(** * mdns-bridge: the per-packet pipeline

    A shallow embedding of the packet decoder (dns_decode.c), the packet
    encoder with its compression dictionary (dns_encode.c), the filter lists
    and their evaluation (filter.c), the interface and peer lists
    (interface.c), the receive path of the bridge (bridge.c) and the string
    functions of the configuration reader (config.c), followed by the
    properties established about them.

    Conventions.
    - An [unsigned char] is a [byte]; [u8] gives its value.  A packet or label
      buffer is a [list byte]; a read past the end of the list yields [x00].
    - [unsigned int] offsets and counters are [Z]; the [uint8_t] and [uint16_t]
      stores of the source are written with their truncation.
    - A function that returns 0 for "drop" returns [0] here as well.
    - Record fields carry a short prefix where the C name is taken in Rocq
      ([nm_length] for [dns_name_t.length], and so on). *)

From Stdlib Require Import ZArith List Bool Lia.
From Stdlib Require Import Strings.Byte.
From Stdlib Require Import Sorting.Sorted.
Import ListNotations.
Local Open Scope Z_scope.

(** ** Bytes and buffers *)

Definition u8 (b : byte) : Z := Z.of_N (Byte.to_N b).

Definition byte_of_Z (z : Z) : byte :=
  match Byte.of_N (Z.to_N (z mod 256)) with
  | Some b => b
  | None => x00
  end.

(** [buf[i]] *)
Definition rd (buf : list byte) (i : Z) : byte := nth (Z.to_nat i) buf x00.

(** The [len] bytes of [buf] that start at [off] (the source of a memcpy). *)
Definition slice (buf : list byte) (off len : Z) : list byte :=
  map (fun k => rd buf (off + Z.of_nat k)) (seq 0 (Z.to_nat len)).

(** A big-endian 16-bit field at [off]: [ntohs] of the field. *)
Definition get16 (buf : list byte) (off : Z) : Z :=
  u8 (rd buf off) * 256 + u8 (rd buf (off + 1)).

(** [htons (uint16_t) v], as the two bytes that land in memory. *)
Definition put16 (v : Z) : list byte :=
  [byte_of_Z ((v mod 65536) / 256); byte_of_Z (v mod 65536)].

(** ** common.h *)

Definition MDNS_MAX_PACKET_SIZE : Z := 9000.
Definition DNS_MAX_NAME_LEN : Z := 256.
Definition DNS_MAX_LABEL_LEN : Z := 64.
Definition DNS_MAX_NUM_LABELS : Z := 128.

(** [packet_t] without the source address, which only the log lines use. *)
Record packet_t := mk_packet {
  bytes : Z;
  buffer : list byte
}.

(** [dns_name_t].  The two arrays are represented by the part of them that
    the decoder wrote: [nm_offset] holds [nm_count] entries and [nm_labels]
    holds [nm_length] bytes. *)
Record dns_name_t := mk_name {
  nm_length : Z;
  nm_count : Z;
  nm_offset : list Z;
  nm_labels : list byte
}.

Record dns_match_name_t := mk_match_name {
  mn_length : Z;
  mn_labels : list byte
}.

Inductive filter_allow_deny_t := ALLOW | DENY.

Record filter_list_t := mk_filter_list {
  allow_deny : filter_allow_deny_t;
  fl_count : Z;
  names : list dns_match_name_t
}.

(** A [filter_list_t *] that is not NULL: the address, which is all that
    pointer comparison looks at, and the list it designates (filter lists are
    never modified once the configuration is read). *)
Record filter_ref := mk_filter_ref {
  addr : nat;
  target : filter_list_t
}.

(** A nullable [filter_list_t *]. *)
Definition filter_ptr := option filter_ref.

Definition filter_ptr_eqb (p q : filter_ptr) : bool :=
  match p, q with
  | None, None => true
  | Some a, Some b => Nat.eqb (addr a) (addr b)
  | _, _ => false
  end.

Inductive ip_type_t := IPV4 | IPV6.

(** [interface_t], for the address family of one bridge thread.  An
    [interface_t *] is the index into [configured_interface_list]. *)
Record interface_t := mk_interface {
  inbound_filter_list : filter_ptr;
  outbound_filter_list : filter_ptr;
  if_index : Z;
  peer_list : list nat;
  peer_filter_list : list filter_ref;
  peer_nofilter_count : Z
}.

(** The globals of main.c, filter.c and interface.c that the packet path
    reads. *)
Record globals := mk_globals {
  flag_warn : bool;
  filtering_enabled : bool;
  global_filter_list : filter_ptr;
  configured_interface_list : list interface_t
}.

(** ** filter.c and dns_subset_match *)

Fixpoint prefix_eqb (needle hay : list byte) : bool :=
  match needle, hay with
  | [], _ => true
  | _ :: _, [] => false
  | x :: needle', y :: hay' => Byte.eqb x y && prefix_eqb needle' hay'
  end.

(** memmem(3), as the test "the result is not NULL". *)
Fixpoint memmem (hay needle : list byte) : bool :=
  prefix_eqb needle hay ||
  match hay with
  | [] => false
  | _ :: hay' => memmem hay' needle
  end.

Definition name_bytes (name : dns_name_t) : list byte :=
  slice (nm_labels name) 0 (nm_length name).

Definition match_name_bytes (subset : dns_match_name_t) : list byte :=
  slice (mn_labels subset) 0 (mn_length subset).

Definition dns_subset_match (name : dns_name_t) (subset : dns_match_name_t) : bool :=
  memmem (name_bytes name) (match_name_bytes subset).

(** The names the loop of filter_list_allowed visits. *)
Definition filter_names (fl : filter_list_t) : list dns_match_name_t :=
  firstn (Z.to_nat (fl_count fl)) (names fl).

Definition filter_list_allowed (fl : filter_list_t) (name : dns_name_t) : bool :=
  let mtch := existsb (dns_subset_match name) (filter_names fl) in
  match allow_deny fl with
  | ALLOW => mtch
  | DENY => negb mtch
  end.

Definition allowed_inbound (g : globals) (interface : interface_t)
    (name : dns_name_t) : bool :=
  let allowed :=
    match global_filter_list g with
    | Some fl => filter_list_allowed (target fl) name
    | None => true
    end in
  match inbound_filter_list interface with
  | Some fl => if allowed then filter_list_allowed (target fl) name else allowed
  | None => allowed
  end.

Definition allowed_outbound (filter_list : filter_ptr) (name : dns_name_t) : bool :=
  match filter_list with
  | Some fl => filter_list_allowed (target fl) name
  | None => true
  end.

(** The reading of the specification: a match name occurs in a name when its
    bytes are a contiguous run of the name's label bytes. *)
Definition occurs_in (subset : dns_match_name_t) (name : dns_name_t) : Prop :=
  exists pre post, name_bytes name = pre ++ match_name_bytes subset ++ post.

Definition admits (fl : filter_list_t) (name : dns_name_t) : Prop :=
  (allow_deny fl = ALLOW /\ exists m, In m (filter_names fl) /\ occurs_in m name) \/
  (allow_deny fl = DENY /\ forall m, In m (filter_names fl) -> ~ occurs_in m name).

(** ** dns.h *)

Definition MAX_NUM_LABELS : Z := 127.
Definition INITIAL_QUERY_COUNT : Z := 25.
Definition INITIAL_RESOURCE_COUNT : Z := 50.
Definition MAX_QUERY_COUNT : Z := 1498.
Definition MAX_RESOURCE_COUNT : Z := 749.

Definition IS_LABEL_POINTER (len : Z) : bool := Z.land len 192 =? 192.
Definition POINTER_OFFSET (hb lb : Z) : Z := Z.lor (Z.shiftl (Z.land hb 63) 8) lb.

(** The argument that OFFSET_TO_POINTER hands to htons.  The source keeps the
    byte-swapped value in [compression_entry_t.pointer]; the model keeps the
    value itself, which is zero exactly when the stored one is, and writes it
    out with [put16]. *)
Definition OFFSET_TO_POINTER (off : Z) : Z := Z.lor (Z.land off 16383) 49152.

Definition DNS_TYPE_A : Z := 1.
Definition DNS_TYPE_CNAME : Z := 5.
Definition DNS_TYPE_PTR : Z := 12.
Definition DNS_TYPE_HINFO : Z := 13.
Definition DNS_TYPE_TXT : Z := 16.
Definition DNS_TYPE_AAAA : Z := 28.
Definition DNS_TYPE_SRV : Z := 33.
Definition DNS_TYPE_DNAME : Z := 39.
Definition DNS_TYPE_OPT : Z := 41.
Definition DNS_TYPE_NSEC : Z := 47.
Definition DNS_TYPE_SVCB : Z := 64.
Definition DNS_TYPE_HTTPS : Z := 65.
Definition DNS_TYPE_ANY : Z := 255.

(** sizeof of the packed wire structures. *)
Definition sizeof_dns_header_t : Z := 12.
Definition sizeof_dns_query_header_t : Z := 4.
Definition sizeof_dns_rr_header_t : Z := 10.
Definition sizeof_dns_rr_srv_data_t : Z := 6.

Inductive rr_section_type_t := RR_ANSWER | RR_AUTHORITY | RR_ADDITIONAL.

(** An array indexed by [rr_section_type_t]. *)
Record per_section := mk_per_section {
  at_answer : Z;
  at_authority : Z;
  at_additional : Z
}.

Definition sec_get (a : per_section) (s : rr_section_type_t) : Z :=
  match s with
  | RR_ANSWER => at_answer a
  | RR_AUTHORITY => at_authority a
  | RR_ADDITIONAL => at_additional a
  end.

Definition sec_set (a : per_section) (s : rr_section_type_t) (v : Z) : per_section :=
  match s with
  | RR_ANSWER => mk_per_section v (at_authority a) (at_additional a)
  | RR_AUTHORITY => mk_per_section (at_answer a) v (at_additional a)
  | RR_ADDITIONAL => mk_per_section (at_answer a) (at_authority a) v
  end.

(** [dns_query_t]; [q_data] is the offset of the query header in the received
    packet. *)
Record dns_query_t := mk_query {
  q_data : Z;
  q_type : Z;
  q_name : dns_name_t
}.

(** [dns_rr_t]; [rr_data] is the offset of the record header in the received
    packet. *)
Record dns_rr_t := mk_rr {
  rr_data : Z;
  rr_type : Z;
  secondary_len : Z;
  rr_name : dns_name_t;
  rdata_name : dns_name_t
}.

(** [compression_entry_t].  [label] is the run of bytes the C pointer
    designates (a length byte and the label), [None] for NULL. *)
Record compression_entry_t := mk_entry {
  label : option (list byte);
  child_index : Z;
  child_allocated : Z;
  child_used : Z;
  pointer : Z
}.

(** [_dns_state_t].  [heap_ok] is not a field of the source: it says whether
    realloc succeeds while the packet is processed. *)
Record dns_state_t := mk_state {
  recv_query_count : Z;
  recv_rr_count : per_section;
  query_count : Z;
  rr_index : per_section;
  rr_count : per_section;
  total_rr_count : Z;
  allocated_query_count : Z;
  allocated_rr_count : Z;
  query_list : list dns_query_t;
  rr_list : list dns_rr_t;
  used_clist_count : Z;
  allocated_clist_count : Z;
  clist : list compression_entry_t;
  heap_ok : bool
}.

(** ** Array cells *)

(** [l[i] = v]; a store outside the array is dropped. *)
Fixpoint list_set {A} (l : list A) (i : nat) (v : A) : list A :=
  match l, i with
  | [], _ => []
  | _ :: l', O => v :: l'
  | x :: l', S i' => x :: list_set l' i' v
  end.

Definition zero_name : dns_name_t := mk_name 0 0 [] [].
Definition zero_query : dns_query_t := mk_query 0 0 zero_name.
Definition zero_rr : dns_rr_t := mk_rr 0 0 0 zero_name zero_name.
Definition zero_entry : compression_entry_t := mk_entry None 0 0 0 0.

(** ** What the decoder does besides computing: reads of the packet buffer,
    compression pointers met, and log lines. *)

Inductive packet_error :=
| err_bad_label_pointer
| err_too_many_labels
| err_name_overrun
| err_packet_too_small
| err_too_many_queries (n : Z)
| err_too_many_rrs (n : Z)
| err_malformed_query
| err_unsupported_query_type (type : Z)
| err_malformed_record (s : rr_section_type_t)
| err_invalid_rdata_length (s : rr_section_type_t)
| err_rdata_ptr_name (s : rr_section_type_t)
| err_unsupported_type (type : Z) (s : rr_section_type_t)
| err_rdata_srv_name (s : rr_section_type_t)
| err_rdata_nsec_name (s : rr_section_type_t)
| err_decoded_length (decoded received : Z).

Inductive event :=
| ev_read (off len : Z)            (* packet->buffer[off .. off+len) is read *)
| ev_pointer (at_off target : Z)   (* a pointer label at at_off, to target *)
| ev_packet_error (e : packet_error)   (* dns_packet_error, which calls logger *)
| ev_logger_name (labels : list byte)  (* logger("(name %s ...)") *)
| ev_logger_alloc.                     (* logger("Cannot allocate memory") *)

Definition is_log (e : event) : bool :=
  match e with
  | ev_packet_error _ | ev_logger_name _ | ev_logger_alloc => true
  | _ => false
  end.

(** ** dns_decode.c *)

(** The name as a failed dns_decode_name leaves it: the cells written so far
    over the previous content, the length and the count untouched. *)
Definition overlay {A} (written old : list A) : list A :=
  written ++ skipn (length written) old.

Definition partial_name (name : dns_name_t) (offs : list Z) (labs : list byte) : dns_name_t :=
  mk_name (nm_length name) (nm_count name)
          (overlay offs (nm_offset name)) (overlay labs (nm_labels name)).

(** The [while (1)] of dns_decode_name.  [offs] and [labs] are the cells of
    [name->offset] and [name->labels] written so far, [tr] the events so far.
    [None] stands for a loop that has not ended within [fuel] rounds. *)
Fixpoint dns_decode_name_loop (fuel : nat) (packet : packet_t) (name : dns_name_t)
    (packet_offset label_offset : Z) (compressed : bool)
    (name_offset label_count : Z) (offs : list Z) (labs : list byte)
    (tr : list event) : option (Z * dns_name_t * list event) :=
  match fuel with
  | O => None
  | S fuel' =>
    let label_len := u8 (rd (buffer packet) label_offset) in
    let tr := tr ++ [ev_read label_offset 1] in
    if IS_LABEL_POINTER label_len then
      let pointer := POINTER_OFFSET label_len (u8 (rd (buffer packet) (label_offset + 1))) in
      let tr := tr ++ [ev_read (label_offset + 1) 1; ev_pointer label_offset pointer] in
      if (pointer <? sizeof_dns_header_t) || (pointer >=? label_offset) then
        Some (0, partial_name name offs labs,
              tr ++ [ev_packet_error err_bad_label_pointer])
      else
        dns_decode_name_loop fuel' packet name
          (if compressed then packet_offset else packet_offset + 2)
          pointer true name_offset label_count offs labs tr
    else
      let offs := offs ++ [name_offset mod 256] in
      let label_count := label_count + 1 in
      if label_count >? MAX_NUM_LABELS then
        Some (0, partial_name name offs labs,
              tr ++ [ev_packet_error err_too_many_labels])
      else if label_len =? 0 then
        Some (if compressed then packet_offset else packet_offset + 1,
              mk_name ((name_offset + 1) mod 65536) (label_count mod 256)
                      offs (labs ++ [x00]),
              tr)
      else
        let copy_len := label_len + 1 in
        if (label_offset + copy_len + 1 >? bytes packet)
           || (name_offset + copy_len + 1 >? DNS_MAX_NAME_LEN) then
          Some (0, partial_name name offs labs,
                tr ++ [ev_packet_error err_name_overrun])
        else
          dns_decode_name_loop fuel' packet name
            (if compressed then packet_offset else packet_offset + copy_len)
            (label_offset + copy_len) compressed
            (name_offset + copy_len) label_count offs
            (labs ++ slice (buffer packet) label_offset copy_len)
            (tr ++ [ev_read label_offset copy_len])
  end.

(** Rounds that always suffice: a pointer moves strictly backwards and at
    most 127 labels are copied, each ending inside the packet. *)
Definition dns_decode_name_fuel (packet : packet_t) (packet_offset : Z) : nat :=
  Z.to_nat (127 * (Z.max 0 (bytes packet) + 1) + Z.max 0 packet_offset + 1).

Definition dns_decode_name (packet : packet_t) (packet_offset : Z)
    (name : dns_name_t) : Z * dns_name_t * list event :=
  match dns_decode_name_loop (dns_decode_name_fuel packet packet_offset)
          packet name packet_offset packet_offset false 0 0 [] [] [] with
  | Some r => r
  | None => (0, name, [])
  end.

(** Field stores on [_dns_state_t]. *)
Definition set_recv_counts (st : dns_state_t) (q : Z) (r : per_section) : dns_state_t :=
  mk_state q r (query_count st) (rr_index st) (rr_count st) (total_rr_count st)
    (allocated_query_count st) (allocated_rr_count st) (query_list st) (rr_list st)
    (used_clist_count st) (allocated_clist_count st) (clist st) (heap_ok st).

Definition set_query_count (st : dns_state_t) (v : Z) : dns_state_t :=
  mk_state (recv_query_count st) (recv_rr_count st) v (rr_index st) (rr_count st)
    (total_rr_count st) (allocated_query_count st) (allocated_rr_count st)
    (query_list st) (rr_list st)
    (used_clist_count st) (allocated_clist_count st) (clist st) (heap_ok st).

Definition set_rr_index (st : dns_state_t) (v : per_section) : dns_state_t :=
  mk_state (recv_query_count st) (recv_rr_count st) (query_count st) v (rr_count st)
    (total_rr_count st) (allocated_query_count st) (allocated_rr_count st)
    (query_list st) (rr_list st)
    (used_clist_count st) (allocated_clist_count st) (clist st) (heap_ok st).

Definition set_rr_counts (st : dns_state_t) (c : per_section) (total : Z) : dns_state_t :=
  mk_state (recv_query_count st) (recv_rr_count st) (query_count st) (rr_index st) c
    total (allocated_query_count st) (allocated_rr_count st)
    (query_list st) (rr_list st)
    (used_clist_count st) (allocated_clist_count st) (clist st) (heap_ok st).

Definition set_query_list (st : dns_state_t) (allocated : Z) (l : list dns_query_t) : dns_state_t :=
  mk_state (recv_query_count st) (recv_rr_count st) (query_count st) (rr_index st)
    (rr_count st) (total_rr_count st) allocated (allocated_rr_count st)
    l (rr_list st)
    (used_clist_count st) (allocated_clist_count st) (clist st) (heap_ok st).

Definition set_rr_list (st : dns_state_t) (allocated : Z) (l : list dns_rr_t) : dns_state_t :=
  mk_state (recv_query_count st) (recv_rr_count st) (query_count st) (rr_index st)
    (rr_count st) (total_rr_count st) (allocated_query_count st) allocated
    (query_list st) l
    (used_clist_count st) (allocated_clist_count st) (clist st) (heap_ok st).

Definition set_clist (st : dns_state_t) (used allocated : Z)
    (l : list compression_entry_t) : dns_state_t :=
  mk_state (recv_query_count st) (recv_rr_count st) (query_count st) (rr_index st)
    (rr_count st) (total_rr_count st) (allocated_query_count st) (allocated_rr_count st)
    (query_list st) (rr_list st) used allocated l (heap_ok st).

(** [query_list[query_count] = query] and [rr_list[total_rr_count] = rr]. *)
Definition store_query (st : dns_state_t) (query : dns_query_t) : dns_state_t :=
  set_query_list st (allocated_query_count st)
    (list_set (query_list st) (Z.to_nat (query_count st)) query).

Definition store_rr (st : dns_state_t) (rr : dns_rr_t) : dns_state_t :=
  set_rr_list st (allocated_rr_count st)
    (list_set (rr_list st) (Z.to_nat (total_rr_count st)) rr).

(** realloc to [n] cells; the new cells hold nothing the code relies on. *)
Definition grow {A} (l : list A) (n : Z) (d : A) : list A :=
  l ++ repeat d (Z.to_nat n - length l).

Definition dns_decode_header (state : dns_state_t) (packet : packet_t)
    : Z * dns_state_t * list event :=
  if bytes packet <? sizeof_dns_header_t then
    (0, state, [ev_packet_error err_packet_too_small])
  else
    let buf := buffer packet in
    let state := set_recv_counts state (get16 buf 4)
                   (mk_per_section (get16 buf 6) (get16 buf 8) (get16 buf 10)) in
    let tr := [ev_read 4 8] in
    if (recv_query_count state >? allocated_query_count state)
       && (recv_query_count state >? MAX_QUERY_COUNT) then
      (0, state, tr ++ [ev_packet_error (err_too_many_queries (recv_query_count state))])
    else if (recv_query_count state >? allocated_query_count state)
            && negb (heap_ok state) then
      (0, state, tr ++ [ev_logger_alloc])
    else
      let state :=
        if recv_query_count state >? allocated_query_count state then
          set_query_list state (recv_query_count state)
            (grow (query_list state) (recv_query_count state) zero_query)
        else state in
      let total_rr_count :=
        sec_get (recv_rr_count state) RR_ANSWER
        + sec_get (recv_rr_count state) RR_AUTHORITY
        + sec_get (recv_rr_count state) RR_ADDITIONAL in
      if (total_rr_count >? allocated_rr_count state)
         && (total_rr_count >? MAX_RESOURCE_COUNT) then
        (0, state, tr ++ [ev_packet_error (err_too_many_rrs total_rr_count)])
      else if (total_rr_count >? allocated_rr_count state) && negb (heap_ok state) then
        (0, state, tr ++ [ev_logger_alloc])
      else
        let state :=
          if total_rr_count >? allocated_rr_count state then
            set_rr_list state total_rr_count (grow (rr_list state) total_rr_count zero_rr)
          else state in
        (sizeof_dns_header_t, state, tr).

(** The name a record is filtered on, as the switch statements give it. *)
Inductive filter_input :=
| filter_owner      (* the owner domain name *)
| filter_rdata      (* the domain name in the data section *)
| not_filtered
| unsupported.      (* the default: branch of the decoder *)

(** The switch on [query->type] in dns_decode_queries. *)
Definition decode_query_filter (type : Z) : filter_input :=
  if (type =? DNS_TYPE_SRV) || (type =? DNS_TYPE_TXT) || (type =? DNS_TYPE_SVCB)
     || (type =? DNS_TYPE_HTTPS) || (type =? DNS_TYPE_ANY) then filter_owner
  else if (type =? DNS_TYPE_A) || (type =? DNS_TYPE_AAAA) || (type =? DNS_TYPE_PTR)
          || (type =? DNS_TYPE_OPT) then not_filtered
  else unsupported.

(** The first switch on [rr->type] in dns_decode_rrs. *)
Definition decode_rr_filter (type : Z) : filter_input :=
  if (type =? DNS_TYPE_SRV) || (type =? DNS_TYPE_TXT) || (type =? DNS_TYPE_HINFO)
     || (type =? DNS_TYPE_SVCB) || (type =? DNS_TYPE_HTTPS) then filter_owner
  else if (type =? DNS_TYPE_PTR) || (type =? DNS_TYPE_CNAME) || (type =? DNS_TYPE_DNAME)
  then filter_rdata
  else if (type =? DNS_TYPE_A) || (type =? DNS_TYPE_AAAA) || (type =? DNS_TYPE_OPT)
          || (type =? DNS_TYPE_NSEC) then not_filtered
  else unsupported.

(** The [for] loop of dns_decode_queries, [count] rounds left. *)
Fixpoint dns_decode_queries (g : globals) (count : nat) (state : dns_state_t)
    (interface : interface_t) (packet : packet_t) (packet_offset : Z)
    (tr : list event) : Z * dns_state_t * list event :=
  match count with
  | O => (packet_offset, state, tr)
  | S count' =>
    let query := nth (Z.to_nat (query_count state)) (query_list state) zero_query in
    let '(packet_offset, name, ev) := dns_decode_name packet packet_offset (q_name query) in
    let tr := tr ++ ev in
    if packet_offset =? 0 then
      (0, store_query state (mk_query (q_data query) (q_type query) name), tr)
    else if packet_offset + sizeof_dns_query_header_t >? bytes packet then
      (0, store_query state (mk_query packet_offset (q_type query) name),
       tr ++ [ev_packet_error err_malformed_query])
    else
      let type := get16 (buffer packet) packet_offset in
      let tr := tr ++ [ev_read packet_offset 2] in
      let query := mk_query packet_offset type name in
      let state := store_query state query in
      let packet_offset := packet_offset + sizeof_dns_query_header_t in
      let '(allowed, tr) :=
        match decode_query_filter type with
        | filter_owner => (allowed_inbound g interface name, tr)
        | unsupported =>
            (false, tr ++ [ev_packet_error (err_unsupported_query_type type);
                           ev_logger_name (nm_labels name)])
        | _ => (true, tr)
        end in
      let state :=
        if allowed then set_query_count state (query_count state + 1) else state in
      dns_decode_queries g count' state interface packet packet_offset tr
  end.

(** The [for] loop of dns_decode_rrs, [count] rounds left. *)
Fixpoint dns_decode_rrs_loop (g : globals) (count : nat) (state : dns_state_t)
    (section_type : rr_section_type_t) (interface : interface_t) (packet : packet_t)
    (packet_offset : Z) (tr : list event) : Z * dns_state_t * list event :=
  match count with
  | O => (packet_offset, state, tr)
  | S count' =>
    let rr := nth (Z.to_nat (total_rr_count state)) (rr_list state) zero_rr in
    let '(packet_offset, name, ev) := dns_decode_name packet packet_offset (rr_name rr) in
    let tr := tr ++ ev in
    let rr := mk_rr (rr_data rr) (rr_type rr) (secondary_len rr) name (rdata_name rr) in
    if packet_offset =? 0 then (0, store_rr state rr, tr)
    else if packet_offset + sizeof_dns_rr_header_t >? bytes packet then
      (0, store_rr state rr, tr ++ [ev_packet_error (err_malformed_record section_type)])
    else
      let data := packet_offset in
      let packet_offset := packet_offset + sizeof_dns_rr_header_t in
      let type := get16 (buffer packet) data in
      let data_len := get16 (buffer packet) (data + 8) in
      let tr := tr ++ [ev_read data 2; ev_read (data + 8) 2] in
      let rr := mk_rr data type (secondary_len rr) name (rdata_name rr) in
      if (data_len =? 0) || (packet_offset + data_len >? bytes packet) then
        (0, store_rr state rr,
         tr ++ [ev_packet_error (err_invalid_rdata_length section_type)])
      else
        (* Apply source filtering *)
        let '(failed, allowed, rr, tr) :=
          match decode_rr_filter type with
          | filter_owner => (false, allowed_inbound g interface name, rr, tr)
          | filter_rdata =>
              let '(tmp_offset, rname, ev) :=
                dns_decode_name packet packet_offset (rdata_name rr) in
              let rr := mk_rr data type (secondary_len rr) name rname in
              if negb (tmp_offset =? packet_offset + data_len) then
                (true, false, rr,
                 tr ++ ev ++ [ev_packet_error (err_rdata_ptr_name section_type)])
              else (false, allowed_inbound g interface rname, rr, tr ++ ev)
          | not_filtered => (false, true, rr, tr)
          | unsupported =>
              (false, false, rr,
               tr ++ [ev_packet_error (err_unsupported_type type section_type);
                      ev_logger_name (nm_labels name)])
          end in
        if failed then (0, store_rr state rr, tr)
        else
          (* Additional processing for records with domain names in the rdata *)
          let '(failed, rr, tr) :=
            if allowed && (type =? DNS_TYPE_SRV) then
              let slen := sizeof_dns_rr_srv_data_t in
              let '(tmp_offset, rname, ev) :=
                dns_decode_name packet (packet_offset + slen) (rdata_name rr) in
              let rr := mk_rr data type slen name rname in
              if negb (tmp_offset =? packet_offset + data_len) then
                (true, rr, tr ++ ev ++ [ev_packet_error (err_rdata_srv_name section_type)])
              else (false, rr, tr ++ ev)
            else if allowed && (type =? DNS_TYPE_NSEC) then
              let '(tmp_offset, rname, ev) :=
                dns_decode_name packet packet_offset (rdata_name rr) in
              let rr := mk_rr data type (secondary_len rr) name rname in
              if tmp_offset >? packet_offset + data_len then
                (true, rr, tr ++ ev ++ [ev_packet_error (err_rdata_nsec_name section_type)])
              else
                (false,
                 mk_rr data type ((data_len - (tmp_offset - packet_offset)) mod 65536)
                       name rname,
                 tr ++ ev)
            else (false, rr, tr) in
          if failed then (0, store_rr state rr, tr)
          else
            let state := store_rr state rr in
            let packet_offset := packet_offset + data_len in
            let state :=
              if allowed then
                set_rr_counts state
                  (sec_set (rr_count state) section_type
                           (sec_get (rr_count state) section_type + 1))
                  (total_rr_count state + 1)
              else state in
            dns_decode_rrs_loop g count' state section_type interface packet
              packet_offset tr
  end.

Definition dns_decode_rrs (g : globals) (state : dns_state_t)
    (section_type : rr_section_type_t) (count : Z) (interface : interface_t)
    (packet : packet_t) (packet_offset : Z) (tr : list event)
    : Z * dns_state_t * list event :=
  let state := set_rr_index state
                 (sec_set (rr_index state) section_type (total_rr_count state)) in
  dns_decode_rrs_loop g (Z.to_nat count) state section_type interface packet
    packet_offset tr.

Definition dns_decode_packet (g : globals) (state : dns_state_t) (packet : packet_t)
    (interface : interface_t) : Z * dns_state_t * list event :=
  (* Clear the counters *)
  let state := set_query_count state 0 in
  let state := set_rr_counts state (mk_per_section 0 0 0) 0 in
  let '(packet_offset, state, tr) := dns_decode_header state packet in
  let '(packet_offset, state, tr) :=
    if negb (packet_offset =? 0) && negb (recv_query_count state =? 0) then
      dns_decode_queries g (Z.to_nat (recv_query_count state)) state interface packet
        packet_offset tr
    else (packet_offset, state, tr) in
  let section '(packet_offset, state, tr) rr_section_type :=
    if negb (packet_offset =? 0)
       && negb (sec_get (recv_rr_count state) rr_section_type =? 0) then
      dns_decode_rrs g state rr_section_type
        (sec_get (recv_rr_count state) rr_section_type) interface packet packet_offset tr
    else (packet_offset, state, tr) in
  let '(packet_offset, state, tr) :=
    fold_left section [RR_ANSWER; RR_AUTHORITY; RR_ADDITIONAL]
      (packet_offset, state, tr) in
  if negb (packet_offset =? bytes packet) then
    (0, state, tr ++ [ev_packet_error (err_decoded_length packet_offset (bytes packet))])
  else if (query_count state =? 0)
          && (sec_get (rr_count state) RR_ANSWER =? 0)
          && (sec_get (rr_count state) RR_AUTHORITY =? 0)
          && (sec_get (rr_count state) RR_ADDITIONAL =? 0) then
    (0, state, tr)
  else (packet_offset, state, tr).

(** ** dns_encode.c: the compression list *)

Definition local_label : list byte := [x05; x6c; x6f; x63; x61; x6c].
Definition tcp_label : list byte := [x04; x5f; x74; x63; x70].

Definition clist_initializer : list compression_entry_t :=
  [ mk_entry None 1 1 1 0;                 (* 0: (root) *)
    mk_entry (Some local_label) 2 2 1 0;   (* 1: local *)
    mk_entry (Some tcp_label) 4 4 0 0;     (* 2: local's children *)
    zero_entry;
    zero_entry; zero_entry; zero_entry; zero_entry ].  (* 4: tcp's children *)

Definition clist_initializer_count : Z := 8.

(** [l[i]], [zero_entry]-like default outside the array. *)
Definition cells {A} (d : A) (l : list A) (off len : Z) : list A :=
  map (fun k => nth (Z.to_nat off + k) l d) (seq 0 (Z.to_nat len)).

(** Store [vs] into [l[i], l[i+1], ...]. *)
Fixpoint store_cells {A} (l : list A) (i : nat) (vs : list A) : list A :=
  match vs with
  | [] => l
  | v :: vs' => store_cells (list_set l i v) (S i) vs'
  end.

Definition entry (state : dns_state_t) (i : Z) : compression_entry_t :=
  nth (Z.to_nat i) (clist state) zero_entry.

Definition set_entry (state : dns_state_t) (i : Z) (e : compression_entry_t) : dns_state_t :=
  set_clist state (used_clist_count state) (allocated_clist_count state)
    (list_set (clist state) (Z.to_nat i) e).

Definition clist_alloc (state : dns_state_t) : dns_state_t :=
  let count := clist_initializer_count * 16 in
  set_clist state (used_clist_count state) count (repeat zero_entry (Z.to_nat count)).

Definition clist_reset (state : dns_state_t) : dns_state_t :=
  let used := used_clist_count state in
  let cl := clist state in
  let cl :=
    if used >? clist_initializer_count then
      store_cells cl (Z.to_nat clist_initializer_count)
        (repeat zero_entry (Z.to_nat (used - clist_initializer_count)))
    else cl in
  let cl := store_cells cl 0 clist_initializer in
  set_clist state clist_initializer_count (allocated_clist_count state) cl.

(** [None] is the NULL that clist_expand returns when realloc fails. *)
Definition clist_expand (state : dns_state_t) (count : Z) : option dns_state_t :=
  if heap_ok state then
    Some (set_clist state (used_clist_count state) (allocated_clist_count state + count)
            (clist state ++ repeat zero_entry (Z.to_nat count)))
  else None.

Definition bump_child_index (index count : Z) (e : compression_entry_t)
    : compression_entry_t :=
  if child_index e >=? index then
    mk_entry (label e) ((child_index e + count) mod 65536) (child_allocated e)
             (child_used e) (pointer e)
  else e.

Definition clist_open (state : dns_state_t) (index count : Z) : Z * dns_state_t :=
  match (if used_clist_count state + count >=? allocated_clist_count state
         then clist_expand state count else Some state) with
  | None => (0, state)
  | Some state =>
    let used := used_clist_count state in
    let cl := clist state in
    let cl :=
      if index <? used then
        (* Update child indexes *)
        let cl := map (bump_child_index index count) (firstn (Z.to_nat used) cl)
                  ++ skipn (Z.to_nat used) cl in
        (* Open the space *)
        let cl := store_cells cl (Z.to_nat (index + count))
                    (cells zero_entry cl index (used - index)) in
        (* Initialize the new entries *)
        store_cells cl (Z.to_nat index) (repeat zero_entry (Z.to_nat count))
      else cl in
    (index, set_clist state (used + count) (allocated_clist_count state) cl)
  end.

Fixpoint bytes_eqb (a b : list byte) : bool :=
  match a, b with
  | [], [] => true
  | x :: a', y :: b' => Byte.eqb x y && bytes_eqb a' b'
  | _, _ => false
  end.

(** [label[0] == other[0] && memcmp(label + 1, other + 1, label[0]) == 0].
    The search only visits children in use, whose label is set; an entry
    without a label, where the C code would dereference NULL, is given the
    answer "no match". *)
Definition label_eqb (lbl : list byte) (other : option (list byte)) : bool :=
  match other with
  | None => false
  | Some o =>
      Byte.eqb (rd lbl 0) (rd o 0)
      && bytes_eqb (slice lbl 1 (u8 (rd lbl 0))) (slice o 1 (u8 (rd lbl 0)))
  end.

(** The search loop of clist_get_child over [n] children from [index]. *)
Fixpoint find_child (state : dns_state_t) (lbl : list byte) (index : Z) (n : nat)
    : option Z :=
  match n with
  | O => None
  | S n' =>
      if label_eqb lbl (label (entry state index)) then Some index
      else find_child state lbl (index + 1) n'
  end.

(** The part of clist_get_child that follows the search: the label becomes a
    new child of the parent. *)
Definition clist_add_child (state : dns_state_t) (parent : Z) (lbl : list byte)
    : Z * dns_state_t :=
  let p := entry state parent in
  (* If the parent doesn't have a child index, assign it *)
  let state :=
    if child_allocated p =? 0 then
      set_entry state parent
        (mk_entry (label p) (used_clist_count state mod 65536) (child_allocated p)
                  (child_used p) (pointer p))
    else state in
  let p := entry state parent in
  (* Where the child will go *)
  let index := child_index p + child_used p in
  let '(failed, index, state) :=
    if child_used p >=? child_allocated p then
      let count := if child_allocated p =? 0 then 1 else child_allocated p in
      let '(index, state) := clist_open state index count in
      if index =? 0 then (true, 0, state)
      else
        let p := entry state parent in
        (false, index,
         set_entry state parent
           (mk_entry (label p) (child_index p) ((child_allocated p + count) mod 65536)
                     (child_used p) (pointer p)))
    else (false, index, state) in
  if failed then (0, state)
  else
    let p := entry state parent in
    let state :=
      set_entry state parent
        (mk_entry (label p) (child_index p) (child_allocated p)
                  ((child_used p + 1) mod 65536) (pointer p)) in
    let c := entry state index in
    (index,
     set_entry state index
       (mk_entry (Some lbl) (child_index c) (child_allocated c) (child_used c)
                 (pointer c))).

Definition clist_get_child (state : dns_state_t) (parent : Z) (lbl : list byte)
    : Z * dns_state_t :=
  let p := entry state parent in
  (* If the parent has children, see if the label is already there *)
  match (if child_used p =? 0 then None
         else find_child state lbl (child_index p) (Z.to_nat (child_used p))) with
  | Some index => (index, state)
  | None => clist_add_child state parent lbl
  end.

Definition set_pointer (state : dns_state_t) (i : Z) (v : Z) : dns_state_t :=
  let e := entry state i in
  set_entry state i
    (mk_entry (label e) (child_index e) (child_allocated e) (child_used e) (v mod 65536)).

(** ** dns_encode.c: names *)

(** A store of [data] at [off] in the buffer of the packet being built.  A
    store that does not fit in the buffer has no defined result: [None]. *)
Definition write_bytes (packet : packet_t) (off : Z) (data : list byte) : option packet_t :=
  if (0 <=? off) && (off + Z.of_nat (length data) <=? Z.of_nat (length (buffer packet)))
  then Some (mk_packet (bytes packet)
               (firstn (Z.to_nat off) (buffer packet) ++ data
                ++ skipn (Z.to_nat off + length data) (buffer packet)))
  else None.

(** [name->offset[i]] *)
Definition name_offset_at (name : dns_name_t) (i : nat) : Z := nth i (nm_offset name) 0.

(** The bytes that [name->labels + name->offset[i]] designates as a label. *)
Definition label_at (name : dns_name_t) (i : nat) : list byte :=
  let o := name_offset_at name i in
  slice (nm_labels name) o (1 + u8 (rd (nm_labels name) o)).

(** How the first loop of dns_encode_name ends. *)
Inductive search_result :=
| search_failed (state : dns_state_t)
      (* clist_get_child returned 0 *)
| search_duplicate (child_index : Z) (state : dns_state_t)
      (* every label is in the packet already *)
| search_break (remaining : nat) (parent_index child_index : Z) (state : dns_state_t).
      (* the label at [remaining] is not in the packet *)

(** The first [while (remaining > 0)]; [remaining] is the value after the
    decrement at the head of the body. *)
Fixpoint encode_search (remaining : nat) (state : dns_state_t) (name : dns_name_t)
    (parent_index : Z) : search_result :=
  let '(child_index, state) := clist_get_child state parent_index (label_at name remaining) in
  if child_index =? 0 then search_failed state
  else if pointer (entry state child_index) =? 0 then
    search_break remaining parent_index child_index state
  else
    match remaining with
    | O => search_duplicate child_index state
    | S remaining' => encode_search remaining' state name child_index
    end.

(** The second [while (remaining > 0)]: the labels before the one that was
    copied get their entries and pointers.  The boolean is false when
    clist_get_child returned 0. *)
Fixpoint encode_remaining (remaining : nat) (state : dns_state_t) (name : dns_name_t)
    (packet_offset child_index : Z) : bool * dns_state_t :=
  match remaining with
  | O => (true, state)
  | S remaining' =>
      let parent_index := child_index in
      let '(child_index, state) :=
        clist_get_child state parent_index (label_at name remaining') in
      if child_index =? 0 then (false, state)
      else
        let state := set_pointer state child_index
                       (OFFSET_TO_POINTER (packet_offset + name_offset_at name remaining')) in
        encode_remaining remaining' state name packet_offset child_index
  end.

(** The result is [None] when a store falls outside the send buffer, and
    otherwise the returned offset (0 on an allocation failure), the send
    packet and the state. *)
Definition dns_encode_name (state : dns_state_t) (send_packet : packet_t)
    (packet_offset : Z) (name : dns_name_t)
    : option (Z * packet_t * dns_state_t) :=
  if nm_count name <=? 1 then
    match write_bytes send_packet packet_offset [x00] with
    | Some send_packet => Some (packet_offset + 1, send_packet, state)
    | None => None
    end
  else
    match encode_search (Z.to_nat (nm_count name - 1) - 1) state name 0 with
    | search_failed state => Some (0, send_packet, state)
    | search_duplicate child_index state =>
        match write_bytes send_packet packet_offset
                (put16 (pointer (entry state child_index))) with
        | Some send_packet => Some (packet_offset + 2, send_packet, state)
        | None => None
        end
    | search_break remaining parent_index child_index state =>
        let ancestor_index := parent_index in
        match (if used_clist_count state + Z.of_nat remaining >? allocated_clist_count state
               then clist_expand state (Z.of_nat remaining) else Some state) with
        | None => Some (0, send_packet, state)
        | Some state =>
          let copy_len :=
            name_offset_at name remaining
            + u8 (rd (nm_labels name) (name_offset_at name remaining)) + 1 in
          match write_bytes send_packet packet_offset
                  (slice (nm_labels name) 0 copy_len) with
          | None => None
          | Some send_packet =>
            let state := set_pointer state child_index
                           (OFFSET_TO_POINTER (packet_offset + name_offset_at name remaining)) in
            match encode_remaining remaining state name packet_offset child_index with
            | (false, state) => Some (0, send_packet, state)
            | (true, state) =>
              let packet_offset := packet_offset + copy_len in
              if negb (pointer (entry state ancestor_index) =? 0) then
                match write_bytes send_packet packet_offset
                        (put16 (pointer (entry state ancestor_index))) with
                | Some send_packet => Some (packet_offset + 2, send_packet, state)
                | None => None
                end
              else
                match write_bytes send_packet packet_offset [x00] with
                | Some send_packet => Some (packet_offset + 1, send_packet, state)
                | None => None
                end
            end
          end
        end
    end.

(** ** dns_encode.c: queries, resource records, packet *)

(** The switch on [query->type] in dns_encode_queries. *)
Definition encode_query_filter (type : Z) : filter_input :=
  if (type =? DNS_TYPE_SRV) || (type =? DNS_TYPE_TXT) || (type =? DNS_TYPE_ANY)
  then filter_owner
  else not_filtered.

(** The first switch on [rr->type] in dns_encode_rrs. *)
Definition encode_rr_filter (type : Z) : filter_input :=
  if (type =? DNS_TYPE_SRV) || (type =? DNS_TYPE_TXT) || (type =? DNS_TYPE_HINFO)
  then filter_owner
  else if (type =? DNS_TYPE_PTR) || (type =? DNS_TYPE_CNAME) || (type =? DNS_TYPE_DNAME)
  then filter_rdata
  else not_filtered.

Definition query_allowed_outbound (send_filter_list : filter_ptr) (query : dns_query_t)
    : bool :=
  match encode_query_filter (q_type query) with
  | filter_owner => allowed_outbound send_filter_list (q_name query)
  | _ => true
  end.

Definition rr_allowed_outbound (send_filter_list : filter_ptr) (rr : dns_rr_t) : bool :=
  match encode_rr_filter (rr_type rr) with
  | filter_owner => allowed_outbound send_filter_list (rr_name rr)
  | filter_rdata => allowed_outbound send_filter_list (rdata_name rr)
  | _ => true
  end.

(** What the encoder threads through its loops: the offset, the packet being
    built, the state and the count of records let through. *)
Definition encoding : Type := Z * packet_t * dns_state_t * Z.

(** The body of the loop of dns_encode_queries for one query that passed the
    filter. *)
Definition encode_query (recv_packet : packet_t) (query : dns_query_t) (e : encoding)
    : option encoding :=
  let '(packet_offset, send_packet, state, allowed_count) := e in
  match dns_encode_name state send_packet packet_offset (q_name query) with
  | None => None
  | Some (packet_offset, send_packet, state) =>
    (* type and class *)
    match write_bytes send_packet packet_offset
            (slice (buffer recv_packet) (q_data query) sizeof_dns_query_header_t) with
    | None => None
    | Some send_packet =>
        Some (packet_offset + sizeof_dns_query_header_t, send_packet, state,
              allowed_count + 1)
    end
  end.

Fixpoint dns_encode_queries_loop (queries : list dns_query_t) (recv_packet : packet_t)
    (send_filter_list : filter_ptr) (e : encoding) : option encoding :=
  match queries with
  | [] => Some e
  | query :: queries' =>
      if query_allowed_outbound send_filter_list query then
        match encode_query recv_packet query e with
        | None => None
        | Some e => dns_encode_queries_loop queries' recv_packet send_filter_list e
        end
      else dns_encode_queries_loop queries' recv_packet send_filter_list e
  end.

Definition dns_encode_queries (state : dns_state_t) (recv_packet send_packet : packet_t)
    (packet_offset : Z) (send_filter_list : filter_ptr) : option encoding :=
  dns_encode_queries_loop
    (cells zero_query (query_list state) 0 (query_count state))
    recv_packet send_filter_list (packet_offset, send_packet, state, 0).

(** The second switch of dns_encode_rrs: the rdata of one record. *)
Definition encode_rdata (recv_packet : packet_t) (rr : dns_rr_t)
    (state : dns_state_t) (send_packet : packet_t) (packet_offset : Z)
    : option (Z * packet_t * dns_state_t) :=
  let type := rr_type rr in
  let rdata := rr_data rr + sizeof_dns_rr_header_t in
  if (type =? DNS_TYPE_PTR) || (type =? DNS_TYPE_CNAME) || (type =? DNS_TYPE_DNAME) then
    dns_encode_name state send_packet packet_offset (rdata_name rr)
  else if type =? DNS_TYPE_SRV then
    match write_bytes send_packet packet_offset
            (slice (buffer recv_packet) rdata (secondary_len rr)) with
    | None => None
    | Some send_packet =>
        dns_encode_name state send_packet (packet_offset + secondary_len rr)
          (rdata_name rr)
    end
  else if type =? DNS_TYPE_NSEC then
    match dns_encode_name state send_packet packet_offset (rdata_name rr) with
    | None => None
    | Some (packet_offset, send_packet, state) =>
      let secondary_data :=
        rdata + get16 (buffer recv_packet) (rr_data rr + 8) - secondary_len rr in
      match write_bytes send_packet packet_offset
              (slice (buffer recv_packet) secondary_data (secondary_len rr)) with
      | None => None
      | Some send_packet => Some (packet_offset + secondary_len rr, send_packet, state)
      end
    end
  else
    let len := get16 (buffer recv_packet) (rr_data rr + 8) in
    match write_bytes send_packet packet_offset (slice (buffer recv_packet) rdata len) with
    | None => None
    | Some send_packet => Some (packet_offset + len, send_packet, state)
    end.

(** The body of the loop of dns_encode_rrs for one record that passed the
    filter. *)
Definition encode_rr (recv_packet : packet_t) (rr : dns_rr_t) (e : encoding)
    : option encoding :=
  let '(packet_offset, send_packet, state, allowed_count) := e in
  match dns_encode_name state send_packet packet_offset (rr_name rr) with
  | None => None
  | Some (packet_offset, send_packet, state) =>
    let rr_header := packet_offset in
    (* type, class and ttl *)
    match write_bytes send_packet rr_header (slice (buffer recv_packet) (rr_data rr) 8) with
    | None => None
    | Some send_packet =>
      let packet_offset := packet_offset + sizeof_dns_rr_header_t in
      let rdata_offset := packet_offset in
      match encode_rdata recv_packet rr state send_packet packet_offset with
      | None => None
      | Some (packet_offset, send_packet, state) =>
        match write_bytes send_packet (rr_header + 8)
                (put16 (packet_offset - rdata_offset)) with
        | None => None
        | Some send_packet => Some (packet_offset, send_packet, state, allowed_count + 1)
        end
      end
    end
  end.

Fixpoint dns_encode_rrs_loop (rrs : list dns_rr_t) (recv_packet : packet_t)
    (send_filter_list : filter_ptr) (e : encoding) : option encoding :=
  match rrs with
  | [] => Some e
  | rr :: rrs' =>
      if rr_allowed_outbound send_filter_list rr then
        match encode_rr recv_packet rr e with
        | None => None
        | Some e => dns_encode_rrs_loop rrs' recv_packet send_filter_list e
        end
      else dns_encode_rrs_loop rrs' recv_packet send_filter_list e
  end.

(** The records of one section: [rr_list[rr_index[s] .. rr_index[s] + rr_count[s])]. *)
Definition section_rrs (state : dns_state_t) (section_type : rr_section_type_t)
    : list dns_rr_t :=
  cells zero_rr (rr_list state) (sec_get (rr_index state) section_type)
    (sec_get (rr_count state) section_type).

Definition dns_encode_rrs (state : dns_state_t) (section_type : rr_section_type_t)
    (recv_packet send_packet : packet_t) (packet_offset : Z)
    (send_filter_list : filter_ptr) : option encoding :=
  dns_encode_rrs_loop (section_rrs state section_type)
    recv_packet send_filter_list (packet_offset, send_packet, state, 0).

Definition dns_encode_packet (state : dns_state_t) (recv_packet send_packet : packet_t)
    (send_filter_list : filter_ptr) : option (Z * packet_t * dns_state_t) :=
  let state := clist_reset state in
  let packet_offset := sizeof_dns_header_t in
  match dns_encode_queries state recv_packet send_packet packet_offset send_filter_list with
  | None => None
  | Some (packet_offset, send_packet, state, query_count) =>
  match dns_encode_rrs state RR_ANSWER recv_packet send_packet packet_offset
          send_filter_list with
  | None => None
  | Some (packet_offset, send_packet, state, answer_count) =>
  match dns_encode_rrs state RR_AUTHORITY recv_packet send_packet packet_offset
          send_filter_list with
  | None => None
  | Some (packet_offset, send_packet, state, authority_count) =>
  match dns_encode_rrs state RR_ADDITIONAL recv_packet send_packet packet_offset
          send_filter_list with
  | None => None
  | Some (packet_offset, send_packet, state, additional_count) =>
    if (query_count =? 0) && (answer_count =? 0) && (authority_count =? 0)
       && (additional_count =? 0) then
      Some (0, send_packet, state)
    else
      match write_bytes send_packet 0
              (slice (buffer recv_packet) 0 4
               ++ put16 query_count ++ put16 answer_count
               ++ put16 authority_count ++ put16 additional_count) with
      | None => None
      | Some send_packet =>
          Some (packet_offset, mk_packet packet_offset (buffer send_packet), state)
      end
  end end end end.

(** dns_state_create: the state of a bridge thread before its first packet. *)
Definition dns_state_create (heap : bool) : dns_state_t :=
  clist_alloc
    (mk_state 0 (mk_per_section 0 0 0) 0 (mk_per_section 0 0 0) (mk_per_section 0 0 0) 0
       INITIAL_QUERY_COUNT INITIAL_RESOURCE_COUNT
       (repeat zero_query (Z.to_nat INITIAL_QUERY_COUNT))
       (repeat zero_rr (Z.to_nat INITIAL_RESOURCE_COUNT))
       0 0 [] heap).

(** ** bridge.c: receive *)

(** [thread_local_storage_t], without the interface list and the destination
    address, of which only the scope id varies. *)
Record thread_local_storage_t := mk_storage {
  ip_type : ip_type_t;
  dns_state : dns_state_t;
  recv_packet : packet_t;
  send_packet : packet_t
}.

(** One call of sendto: the peer (an index into [configured_interface_list]),
    the scope id of the destination when it was set, and the bytes. *)
Record sent := mk_sent {
  to_peer : nat;
  scope_id : option Z;
  payload : list byte
}.

(** recvfrom into [packet->buffer]: at most [sizeof(packet->buffer)] bytes
    of the datagram replace the head of the buffer. *)
Definition recvfrom (packet : packet_t) (datagram : list byte) : packet_t :=
  let data := firstn (length (buffer packet)) datagram in
  mk_packet (Z.of_nat (length data)) (data ++ skipn (length data) (buffer packet)).

(** The loops over [peer_list] that send [packet] to every peer whose
    outbound filter list is the pointer [want]. *)
Definition send_to_peers (g : globals) (family : ip_type_t) (interface : interface_t)
    (packet : packet_t) (want : filter_ptr) : list sent :=
  flat_map
    (fun peer_index =>
       match nth_error (configured_interface_list g) peer_index with
       | Some peer =>
           if filter_ptr_eqb (outbound_filter_list peer) want then
             [mk_sent peer_index
                (match family with IPV6 => Some (if_index peer) | IPV4 => None end)
                (slice (buffer packet) 0 (bytes packet))]
           else []
       | None => []
       end)
    (peer_list interface).

(** "Forward the packet to peers that do not have outbound filters". *)
Definition forward_nofilter (g : globals) (ls : thread_local_storage_t)
    (interface : interface_t) : option (thread_local_storage_t * list sent) :=
  if negb (peer_nofilter_count interface =? 0) then
    match global_filter_list g, inbound_filter_list interface with
    | None, None =>
        Some (ls, send_to_peers g (ip_type ls) interface (recv_packet ls) None)
    | _, _ =>
        match dns_encode_packet (dns_state ls) (recv_packet ls) (send_packet ls) None with
        | None => None
        | Some (_, send_packet, state) =>
            Some (mk_storage (ip_type ls) state (recv_packet ls) send_packet,
                  send_to_peers g (ip_type ls) interface send_packet None)
        end
    end
  else Some (ls, []).

(** "Forward the packet to peers that do have outbound filters": the loop over
    [peer_filter_list]. *)
Fixpoint forward_filtered (g : globals) (filters : list filter_ref)
    (ls : thread_local_storage_t) (interface : interface_t)
    : option (thread_local_storage_t * list sent) :=
  match filters with
  | [] => Some (ls, [])
  | filter_list :: filters' =>
      match dns_encode_packet (dns_state ls) (recv_packet ls) (send_packet ls)
              (Some filter_list) with
      | None => None
      | Some (r, send_packet, state) =>
          let ls := mk_storage (ip_type ls) state (recv_packet ls) send_packet in
          let out :=
            if r =? 0 then []
            else send_to_peers g (ip_type ls) interface send_packet (Some filter_list) in
          match forward_filtered g filters' ls interface with
          | None => None
          | Some (ls, rest) => Some (ls, out ++ rest)
          end
      end
  end.

(** receive, on the datagram that recvfrom delivers ([None] when recvfrom
    returns -1).  The result is the storage afterwards, the datagrams sent in
    order and the events of the decoder; [None] when the encoder stored
    outside the send buffer. *)
Definition receive (g : globals) (ls : thread_local_storage_t) (interface : interface_t)
    (datagram : option (list byte))
    : option (thread_local_storage_t * list sent * list event) :=
  match datagram with
  | None => Some (ls, [], [])
  | Some datagram =>
    let packet := recvfrom (recv_packet ls) datagram in
    let ls := mk_storage (ip_type ls) (dns_state ls) packet (send_packet ls) in
    let '(r, state, tr) :=
      if filtering_enabled g then dns_decode_packet g (dns_state ls) packet interface
      else (1, dns_state ls, []) in
    let ls := mk_storage (ip_type ls) state packet (send_packet ls) in
    if r =? 0 then Some (ls, [], tr)
    else
      match forward_nofilter g ls interface with
      | None => None
      | Some (ls, out1) =>
        match forward_filtered g (peer_filter_list interface) ls interface with
        | None => None
        | Some (ls, out2) => Some (ls, out1 ++ out2, tr)
        end
      end
  end.

(** ** Sample datagrams and configurations *)

Definition datagram (l : list Z) : list byte := map byte_of_Z l.

(** A receive buffer that holds zeroes, as calloc leaves it. *)
Definition blank_packet : packet_t :=
  mk_packet 0 (repeat x00 (Z.to_nat MDNS_MAX_PACKET_SIZE)).

Definition received (l : list Z) : packet_t := recvfrom blank_packet (datagram l).

(** No filter list anywhere, filtering enabled, -w not given. *)
Definition no_filters : globals := mk_globals false true None [].
Definition plain_interface : interface_t := mk_interface None None 1 [] [] 0.

(** A header that announces one query, and nothing after it. *)
Definition header_only : list Z := [0;0; 0;0; 0;1; 0;0; 0;0; 0;0].

(** One TXT record for the root name whose 8977 bytes of RDATA end at byte
    9000, and a header that announces one more record. *)
Definition full_buffer : list Z :=
  [0;0; 132;0; 0;0; 0;1; 0;0; 0;1;
   0; 0;16; 0;1; 0;0;0;120; 35;17] ++ repeat 1 (Z.to_nat 8977).

(** An answer section with an A record for [h] and an MX record (type 15) for
    the same name. *)
Definition a_and_mx : list Z :=
  [0;0; 132;0; 0;0; 0;2; 0;0; 0;0;
   1;104;0;  0;1; 0;1; 0;0;0;120; 0;4;  10;0;0;1;
   192;12;   0;15; 0;1; 0;0;0;120; 0;3;  0;10;0].

(** An NSEC record for [h] whose RDATA starts with a pointer to offset 5. *)
Definition nsec_bad_pointer : list Z :=
  [0;0; 132;0; 0;0; 0;1; 0;0; 0;0;
   1;104;0;  0;47; 0;1; 0;0;0;120; 0;6;  192;5; 0;1;64;0].

(** The match name [_ssh] and a DENY list made of it. *)
Definition ssh_match_name : dns_match_name_t :=
  mk_match_name 5 (datagram [4;95;115;115;104]).

Definition deny_ssh : filter_ref :=
  mk_filter_ref 1 (mk_filter_list DENY 1 [ssh_match_name]).

(** An SVCB record (type 64) for [s._ssh] with three bytes of RDATA. *)
Definition svcb_ssh : list Z :=
  [0;0; 132;0; 0;0; 0;1; 0;0; 0;0;
   1;115; 4;95;115;115;104; 0;  0;64; 0;1; 0;0;0;120; 0;3;  0;1;0].

(** The same record with type TXT (16). *)
Definition txt_ssh : list Z :=
  [0;0; 132;0; 0;0; 0;1; 0;0; 0;0;
   1;115; 4;95;115;115;104; 0;  0;16; 0;1; 0;0;0;120; 0;3;  0;1;0].

(** Two queries of type A for [a.local], the name written out both times. *)
Definition two_queries : list Z :=
  [0;7; 0;0; 0;2; 0;0; 0;0; 0;0;
   1;97; 5;108;111;99;97;108; 0;  0;1; 0;1;
   1;97; 5;108;111;99;97;108; 0;  0;1; 0;1].


(** Two interfaces without interface filters that are each other's peer, and
    a global DENY list for [_ssh]. *)
Definition interface_a : interface_t := mk_interface None None 1 [1%nat] [] 1.
Definition interface_b : interface_t := mk_interface None None 2 [0%nat] [] 1.

Definition global_deny_ssh : globals :=
  mk_globals false true (Some deny_ssh) [interface_a; interface_b].

Definition fresh_storage : thread_local_storage_t :=
  mk_storage IPV4 (dns_state_create true) blank_packet blank_packet.

(** ** Notions used to state the properties *)

(** The part of the state that the decoder fills and the encoder only reads. *)
Definition records (st : dns_state_t) :=
  (recv_query_count st, recv_rr_count st, query_count st, rr_index st, rr_count st,
   total_rr_count st, allocated_query_count st, allocated_rr_count st,
   query_list st, rr_list st, heap_ok st).

(** The queries and the records of a section that pass the outbound filter:
    those for which the loops of the encoder run their body. *)
Definition emitted_queries (send_filter_list : filter_ptr) (state : dns_state_t)
    : list dns_query_t :=
  filter (query_allowed_outbound send_filter_list)
    (cells zero_query (query_list state) 0 (query_count state)).

Definition emitted_rrs (send_filter_list : filter_ptr) (state : dns_state_t)
    (section_type : rr_section_type_t) : list dns_rr_t :=
  filter (rr_allowed_outbound send_filter_list) (section_rrs state section_type).

Definition search_state (r : search_result) : dns_state_t :=
  match r with
  | search_failed st => st
  | search_duplicate _ st => st
  | search_break _ _ _ st => st
  end.

(** The state that receive hands to the encoder: the one the decoder
    leaves when filtering is enabled, the one of the storage otherwise. *)
Definition decoded_state (g : globals) (ls : thread_local_storage_t)
    (interface : interface_t) (datagram : list byte) : dns_state_t :=
  if filtering_enabled g then
    snd (fst (dns_decode_packet g (dns_state ls)
                (recvfrom (recv_packet ls) datagram) interface))
  else dns_state ls.

(** The datagram went to a peer that has no outbound filter list. *)
Definition to_nofilter_peer (g : globals) (s : sent) : bool :=
  match nth_error (configured_interface_list g) (to_peer s) with
  | Some peer =>
      match outbound_filter_list peer with
      | None => true
      | Some _ => false
      end
  | None => false
  end.

(** A small send buffer, the root name, and a configuration in which the
    only peer of the ingress interface has [deny_ssh] as outbound filter
    list. *)
Definition small_packet : packet_t := mk_packet 0 (repeat x00 64).
Definition root_name : dns_name_t := mk_name 1 1 [0] [x00].

Definition interface_in : interface_t := mk_interface None None 1 [1%nat] [deny_ssh] 0.
Definition interface_out : interface_t := mk_interface None (Some deny_ssh) 2 [0%nat] [] 1.

Definition outbound_deny_ssh : globals :=
  mk_globals false true None [interface_in; interface_out].

(** ** Names in expanded form *)

(** A label as it stands in a decoded name: a length byte that is neither
    zero nor a pointer, and as many bytes as it says. *)
Definition wf_label (l : list byte) : Prop :=
  exists b data,
    l = b :: data /\ u8 b = Z.of_nat (length data) /\ u8 b <> 0 /\
    IS_LABEL_POINTER (u8 b) = false.

Fixpoint label_offsets (start : Z) (ls : list (list byte)) : list Z :=
  match ls with
  | [] => []
  | l :: ls' => start :: label_offsets (start + Z.of_nat (length l)) ls'
  end.

(** The [dns_name_t] of a sequence of labels: the labels and the terminator,
    the offset of each of them, the terminator included. *)
Definition name_of_labels (ls : list (list byte)) : dns_name_t :=
  let total := Z.of_nat (length (concat ls)) in
  mk_name (total + 1) (Z.of_nat (length ls) + 1)
          (label_offsets 0 ls ++ [total]) (concat ls ++ [x00]).

(** A name as a successful dns_decode_name leaves it. *)
Definition decoded_name (name : dns_name_t) : Prop :=
  exists ls,
    Forall wf_label ls /\ name = name_of_labels ls /\
    nm_length name <= DNS_MAX_NAME_LEN /\ nm_count name <= MAX_NUM_LABELS.

(** ** The compression list while one name is encoded *)






(** [a_and_mx] without the MX record, and the two interfaces with no filter
    list anywhere. *)
Definition a_only : list Z :=
  [0;0; 132;0; 0;0; 0;1; 0;0; 0;0;
   1;104;0;  0;1; 0;1; 0;0;0;120; 0;4;  10;0;0;1].

Definition unfiltered : globals :=
  mk_globals false true None [interface_a; interface_b].

(** ** dns_decode.c: match names and printable names *)

(** How a function that may call fatal() ends: it returns, it exits through
    fatal(), or its loop has rounds left when the rounds given to the model
    are used up. *)
Inductive outcome (A : Type) :=
| returns (a : A)
| fatal
| unfinished.

Arguments returns {A} a.
Arguments fatal {A}.
Arguments unfinished {A}.

(** A C string is the list of its bytes before the NUL; [rd] past the end
    gives the NUL. *)
Definition dot : byte := x2e.

(** [strcspn(s, ".")] *)
Fixpoint strcspn_dot (s : list byte) : Z :=
  match s with
  | [] => 0
  | c :: s' => if Byte.eqb c dot then 0 else 1 + strcspn_dot s'
  end.

(** The [while (string_offset < string_len)] of dns_save_match_name.
    [labels] are the bytes of [name->labels] stored so far; [name_offset] is
    their number. *)
Fixpoint dns_save_match_name_loop (fuel : nat) (string : list byte)
    (string_offset label_count : Z) (labels : list byte) : outcome (list byte) :=
  match fuel with
  | O => unfinished
  | S fuel' =>
    if string_offset <? Z.of_nat (length string) then
      (* Ensure we have a valid label *)
      let label_len := strcspn_dot (skipn (Z.to_nat string_offset) string) in
      let label_count := label_count + 1 in
      if (label_len =? 0) || (label_len >? DNS_MAX_LABEL_LEN)
         || (label_count >? MAX_NUM_LABELS) then fatal
      else
        (* Copy the label *)
        let labels := labels ++ byte_of_Z label_len :: slice string string_offset label_len in
        (* Skip the dot/nul *)
        dns_save_match_name_loop fuel' string (string_offset + label_len + 1)
          label_count labels
    else returns labels
  end.

(** dns_save_match_name.  [block] is what malloc returns: [None] for NULL,
    otherwise the bytes that the labels array of the new block holds, which
    stay where the function does not store. *)
Definition dns_save_match_name (string : list byte) (block : option (list byte))
    : outcome dns_match_name_t :=
  let string_len := Z.of_nat (length string) in
  if (string_len <? 1) || (string_len >=? DNS_MAX_NAME_LEN) then fatal
  else
    let name_len := string_len + 1 in
    match block with
    | None => fatal
    | Some block =>
        match dns_save_match_name_loop (S (length string)) string 0 0 [] with
        | returns labels => returns (mk_match_name name_len (overlay labels block))
        | fatal => fatal
        | unfinished => unfinished
        end
    end.

(** The [while (labels_offset < length)] of dns_labels_to_string.  [string]
    are the bytes stored so far; [string_offset] is their number. *)
Fixpoint dns_labels_to_string_loop (fuel : nat) (labels : list byte) (length : Z)
    (labels_offset : Z) (string : list byte) : outcome (list byte) :=
  match fuel with
  | O => unfinished
  | S fuel' =>
    if labels_offset <? length then
      let label_len := u8 (rd labels labels_offset) in
      if label_len =? 0 then returns string
      else
        let labels_offset := labels_offset + 1 in
        (* Sanity check *)
        if labels_offset + label_len >? length then fatal
        else
          (* Add the dot separator *)
          let string := if negb (Z.of_nat (List.length string) =? 0)
                        then string ++ [dot] else string in
          (* Copy the label *)
          let string := string ++ slice labels labels_offset label_len in
          dns_labels_to_string_loop fuel' labels length (labels_offset + label_len) string
    else returns string
  end.

(** dns_labels_to_string: the bytes stored in [string] before the final NUL. *)
Definition dns_labels_to_string (labels : list byte) (length : Z)
    : outcome (list byte) :=
  (* If no length is provided, use the length of the first label *)
  let length := if length =? 0 then u8 (rd labels 0) + 1 else length in
  dns_labels_to_string_loop (S (Z.to_nat length)) labels length 0 [].

(** A label with its length byte in front, and labels joined by dots. *)
Definition prefixed (l : list byte) : list byte :=
  byte_of_Z (Z.of_nat (length l)) :: l.

Fixpoint join_dots (ls : list (list byte)) : list byte :=
  match ls with
  | [] => []
  | l :: ls' =>
      match ls' with
      | [] => l
      | _ :: _ => l ++ dot :: join_dots ls'
      end
  end.

(** A label of a filter string: not empty, without a dot, at most 64 bytes. *)
Definition string_label (l : list byte) : Prop :=
  l <> [] /\ ~ In dot l /\ Z.of_nat (length l) <= DNS_MAX_LABEL_LEN.

(** ** interface.c: the interface list and the peer lists of one address family *)

(** An [interface_t] as calloc leaves it. *)
Definition zero_interface : interface_t := mk_interface None None 0 [] [] 0.

(** The first loop of build_interface_list: the interfaces that are not
    disabled, in the order of [configured_interface_list].  [disable_ip] holds
    [disable_ip[ip_type]] of each configured interface, from [index] on. *)
Fixpoint enabled_from (index : nat) (disable_ip : list bool) : list nat :=
  match disable_ip with
  | [] => []
  | disabled :: rest =>
      if disabled then enabled_from (S index) rest
      else index :: enabled_from (S index) rest
  end.

(** The second loop: the first interface that is not disabled becomes
    disabled, and the loop ends. *)
Fixpoint disable_first (disable_ip : list bool) : list bool :=
  match disable_ip with
  | [] => []
  | disabled :: rest =>
      if disabled then disabled :: disable_first rest else true :: rest
  end.

(** build_interface_list for one address family: [ip_interface_list], which
    holds [ip_interface_count] entries afterwards, and the [disable_ip] flags.
    [None] when an interface is stored past the [ip_interface_count] entries
    that calloc was asked for. *)
Definition build_interface_list (ip_interface_count : Z) (disable_ip : list bool)
    : option (list nat * list bool) :=
  let built := if ip_interface_count >? 1 then enabled_from 0 disable_ip else [] in
  if Z.of_nat (length built) >? Z.max 0 ip_interface_count then None
  else if Z.of_nat (length built) <? 2 then Some ([], disable_first disable_ip)
  else Some (built, disable_ip).

Definition set_peer_lists (interface : interface_t) (peers : list nat)
    (filters : list filter_ref) (nofilter : Z) : interface_t :=
  mk_interface (inbound_filter_list interface) (outbound_filter_list interface)
    (if_index interface) peers filters nofilter.

(** The body of the loop over the peers in build_interface_peer_lists, for
    the interface at index [self].  [peer_room] and [filter_room] are the
    numbers of entries that calloc was asked for; a store past them has no
    defined result: [None]. *)
Definition add_peer (configured : list interface_t) (peer_room filter_room : Z)
    (self : nat) (interface : interface_t) (peer : nat) : option interface_t :=
  if Nat.eqb peer self then Some interface
  else if Z.of_nat (length (peer_list interface)) >=? peer_room then None
  else
    (* Add the peer to the list *)
    let peers := peer_list interface ++ [peer] in
    (* Check if the peer has outbound filtering *)
    match outbound_filter_list (nth peer configured zero_interface) with
    | Some filter_list =>
        (* Is the filter already in the list? *)
        if existsb (fun f => filter_ptr_eqb (Some filter_list) (Some f))
                   (peer_filter_list interface)
        then Some (set_peer_lists interface peers (peer_filter_list interface)
                     (peer_nofilter_count interface))
        else if Z.of_nat (length (peer_filter_list interface)) >=? filter_room then None
        else Some (set_peer_lists interface peers
                     (peer_filter_list interface ++ [filter_list])
                     (peer_nofilter_count interface))
    | None =>
        Some (set_peer_lists interface peers (peer_filter_list interface)
                (peer_nofilter_count interface + 1))
    end.

(** The loop over the peers. *)
Fixpoint add_peers (configured : list interface_t) (peer_room filter_room : Z)
    (self : nat) (interface : interface_t) (peers : list nat) : option interface_t :=
  match peers with
  | [] => Some interface
  | peer :: peers' =>
      match add_peer configured peer_room filter_room self interface peer with
      | None => None
      | Some interface =>
          add_peers configured peer_room filter_room self interface peers'
      end
  end.

(** The loop over the interfaces of the address family; [todo] are the
    entries of [ip_interface_list] still to visit. *)
Fixpoint build_peer_lists_loop (unique_outbound_filter_count : Z)
    (ip_interface_list todo : list nat) (configured : list interface_t)
    : option (list interface_t) :=
  match todo with
  | [] => Some configured
  | index :: todo' =>
      match add_peers configured (Z.of_nat (length ip_interface_list) - 1)
              unique_outbound_filter_count index
              (nth index configured zero_interface) ip_interface_list with
      | None => None
      | Some interface =>
          build_peer_lists_loop unique_outbound_filter_count ip_interface_list todo'
            (list_set configured index interface)
      end
  end.

Definition build_interface_peer_lists (unique_outbound_filter_count : Z)
    (ip_interface_list : list nat) (configured : list interface_t)
    : option (list interface_t) :=
  build_peer_lists_loop unique_outbound_filter_count ip_interface_list
    ip_interface_list configured.

(** The interfaces of a list that have an outbound filter list. *)
Definition has_outbound (interface : interface_t) : bool :=
  match outbound_filter_list interface with
  | Some _ => true
  | None => false
  end.

(** Three configured interfaces before their peer lists are built; the last
    two share the outbound filter list [deny_ssh]. *)
Definition three_interfaces : list interface_t :=
  [mk_interface None None 1 [] [] 0;
   mk_interface None (Some deny_ssh) 2 [] [] 0;
   mk_interface None (Some deny_ssh) 3 [] [] 0].

(** A response of 967 bytes: a TXT record for the root name whose 256 bytes
    of RDATA are 192 bytes of value 63 and 64 zero bytes, and 43 A records
    whose owner names are pointers to the first 43 bytes of that RDATA.  Read
    as labels from there, each is a name of three labels of 63 bytes, and no
    two of the names end in the same label. *)
Definition amplified_record (p : Z) : list Z :=
  [192; 23 + p;  0;1; 0;1; 0;0;0;120; 0;4;  10;0;0;1].

Definition amplified : list Z :=
  [0;0; 132;0; 0;0; 0;44; 0;0; 0;0] ++
  [0;  0;16; 0;1; 0;0;0;120; 1;0] ++ repeat 63 192 ++ repeat 0 64 ++
  flat_map amplified_record (map Z.of_nat (seq 0 43)).

(** A send buffer of 16000 bytes, which the program does not have. *)
Definition wide_packet : packet_t := mk_packet 0 (repeat x00 (Z.to_nat 16000)).

(** ** What the decoder keeps *)

(** What makes the decoder keep a query or a record: its type is one that
    the switch knows, and the name that the switch filters on, if any,
    passes the inbound filters. *)
Definition query_kept_ok (g : globals) (interface : interface_t) (query : dns_query_t)
    : Prop :=
  match decode_query_filter (q_type query) with
  | filter_owner => allowed_inbound g interface (q_name query) = true
  | unsupported => False
  | _ => True
  end.

Definition rr_kept_ok (g : globals) (interface : interface_t) (rr : dns_rr_t) : Prop :=
  match decode_rr_filter (rr_type rr) with
  | filter_owner => allowed_inbound g interface (rr_name rr) = true
  | filter_rdata => allowed_inbound g interface (rdata_name rr) = true
  | not_filtered => True
  | unsupported => False
  end.

(** The two arrays of the state are as long as their allocated counts say. *)
Definition lists_allocated (st : dns_state_t) : Prop :=
  Z.of_nat (length (query_list st)) = allocated_query_count st /\
  Z.of_nat (length (rr_list st)) = allocated_rr_count st.

(** The state apart from what the loop of dns_decode_queries stores, and
    apart from what the loop of dns_decode_rrs stores. *)
Definition outside_queries (st : dns_state_t) :=
  (recv_query_count st, recv_rr_count st, rr_index st, rr_count st, total_rr_count st,
   allocated_query_count st, allocated_rr_count st, rr_list st,
   used_clist_count st, allocated_clist_count st, clist st, heap_ok st).

Definition outside_rrs (st : dns_state_t) :=
  (recv_query_count st, recv_rr_count st, query_count st, rr_index st,
   allocated_query_count st, allocated_rr_count st, query_list st,
   used_clist_count st, allocated_clist_count st, clist st, heap_ok st).

(** From [st] to [st'] at most [count] queries were added after those
    counted in [st], each of them one the decoder may keep. *)
Definition queries_kept (g : globals) (interface : interface_t) (count : nat)
    (st st' : dns_state_t) : Prop :=
  exists kept,
    Forall (query_kept_ok g interface) kept /\
    (length kept <= count)%nat /\
    query_count st' = query_count st + Z.of_nat (length kept) /\
    cells zero_query (query_list st') 0 (query_count st')
    = cells zero_query (query_list st) 0 (query_count st) ++ kept /\
    length (query_list st') = length (query_list st) /\
    outside_queries st' = outside_queries st.

(** The same for the records of section [s]. *)
Definition rrs_kept (g : globals) (interface : interface_t) (s : rr_section_type_t)
    (count : nat) (st st' : dns_state_t) : Prop :=
  exists kept,
    Forall (rr_kept_ok g interface) kept /\
    (length kept <= count)%nat /\
    total_rr_count st' = total_rr_count st + Z.of_nat (length kept) /\
    rr_count st' = sec_set (rr_count st) s (sec_get (rr_count st) s + Z.of_nat (length kept)) /\
    cells zero_rr (rr_list st') 0 (total_rr_count st')
    = cells zero_rr (rr_list st) 0 (total_rr_count st) ++ kept /\
    length (rr_list st') = length (rr_list st) /\
    outside_rrs st' = outside_rrs st.

(** ** filter.c: the filter lists of the configuration *)

(** strcmp(3) on two C strings, as its sign: the bytes are compared as
    unsigned char, and of two strings the one that ends first is the
    smaller. *)
Fixpoint strcmp (s1 s2 : list byte) : Z :=
  match s1, s2 with
  | [], [] => 0
  | [], _ :: _ => -1
  | _ :: _, [] => 1
  | c1 :: s1', c2 :: s2' =>
      if u8 c1 =? u8 c2 then strcmp s1' s2' else Z.sgn (u8 c1 - u8 c2)
  end.

Definition qsort_strcmp (p1 p2 : list byte) : Z := strcmp p1 p2.

(** qsort(3) on an array of strings: the entries in ascending order of
    [compar].  Entries that qsort_strcmp finds equal are the same string, so
    the strings that qsort leaves in the array do not depend on its method;
    this one inserts each entry into the sorted rest. *)
Fixpoint qsort_insert (compar : list byte -> list byte -> Z) (x : list byte)
    (l : list (list byte)) : list (list byte) :=
  match l with
  | [] => [x]
  | y :: l' => if compar x y <=? 0 then x :: l else y :: qsort_insert compar x l'
  end.

Fixpoint qsort (compar : list byte -> list byte -> Z) (l : list (list byte))
    : list (list byte) :=
  match l with
  | [] => []
  | x :: l' => qsort_insert compar x (qsort compar l')
  end.

(** [memmove(l + dst, l + src, n * sizeof(l[0]))] *)
Definition memmove {A} (l : list A) (dst src n : Z) : list A :=
  firstn (Z.to_nat dst) l
  ++ firstn (Z.to_nat n) (skipn (Z.to_nat src) l)
  ++ skipn (Z.to_nat (dst + n)) l.

(** The [for (index = 1; index < count; index++)] of filter_list_create that
    removes duplicates: the array and [count] when the loop ends. *)
Fixpoint remove_duplicates (fuel : nat) (list : list (list byte)) (index count : Z)
    : outcome (Datatypes.list (Datatypes.list byte) * Z) :=
  match fuel with
  | O => unfinished
  | S fuel' =>
    if index <? count then
      if strcmp (nth (Z.to_nat (index - 1)) list []) (nth (Z.to_nat index) list []) =? 0
      then
        if index <? count - 1 then
          remove_duplicates fuel'
            (memmove list index (index + 1) (count - index - 1))
            (index - 1 + 1) (count - 1)
        else remove_duplicates fuel' list (index + 1) (count - 1)
      else remove_duplicates fuel' list (index + 1) count
    else returns (list, count)
  end.

(** What the allocator gives to one call of filter_list_create: whether its
    two calls of calloc succeed, the address of the new filter_list_t, and
    what malloc returns to dns_save_match_name for [names[index]]. *)
Record allocation := mk_allocation {
  alloc_ok : bool;
  alloc_addr : nat;
  alloc_blocks : nat -> option (list byte)
}.

(** The loop that saves the filter names, from [index] on. *)
Fixpoint save_names (list : list (list byte)) (index : nat)
    (blocks : nat -> option (Datatypes.list byte))
    : outcome (Datatypes.list dns_match_name_t) :=
  match list with
  | [] => returns []
  | string :: list' =>
      match dns_save_match_name string (blocks index) with
      | returns name =>
          match save_names list' (S index) blocks with
          | returns names => returns (name :: names)
          | fatal => fatal
          | unfinished => unfinished
          end
      | fatal => fatal
      | unfinished => unfinished
      end
  end.

(** filter_list_create.  [list] holds the [count] strings of the array. *)
Definition filter_list_create (allow_deny : filter_allow_deny_t)
    (list : list (list byte)) (memory : allocation) : outcome filter_ref :=
  let count := Z.of_nat (length list) in
  (* Sort the array *)
  let list := qsort qsort_strcmp list in
  (* Remove duplicates *)
  match remove_duplicates (S (length list)) list 1 count with
  | returns (list, count) =>
      (* Allocate the filter list and the name list *)
      if negb (alloc_ok memory) then fatal
      else
        (* Save the filter names *)
        match save_names (firstn (Z.to_nat count) list) 0 (alloc_blocks memory) with
        | returns names =>
            returns (mk_filter_ref (alloc_addr memory)
                       (mk_filter_list allow_deny count names))
        | fatal => fatal
        | unfinished => unfinished
        end
  | fatal => fatal
  | unfinished => unfinished
  end.

Definition allow_deny_eqb (a b : filter_allow_deny_t) : bool :=
  match a, b with
  | ALLOW, ALLOW | DENY, DENY => true
  | _, _ => false
  end.

(** The loop of filter_list_compare over the names of the two lists. *)
Fixpoint filter_list_compare_loop (names1 names2 : list dns_match_name_t) : Z :=
  match names1, names2 with
  | n1 :: names1', n2 :: names2' =>
      if negb (mn_length n1 =? mn_length n2) then 1
      else if negb (bytes_eqb (slice (mn_labels n1) 0 (mn_length n1))
                              (slice (mn_labels n2) 0 (mn_length n1)))
      then 1
      else filter_list_compare_loop names1' names2'
  | _, _ => 0
  end.

Definition filter_list_compare (l1 l2 : filter_list_t) : Z :=
  if negb (allow_deny_eqb (allow_deny l1) (allow_deny l2))
     || negb (fl_count l1 =? fl_count l2)
  then 1
  else filter_list_compare_loop (filter_names l1) (filter_names l2).

Definition set_global (g : globals) (filter_list : filter_ptr) : globals :=
  mk_globals (flag_warn g) (filtering_enabled g) filter_list
    (configured_interface_list g).

Definition set_configured (g : globals) (configured : list interface_t) : globals :=
  mk_globals (flag_warn g) (filtering_enabled g) (global_filter_list g) configured.

Definition set_inbound (interface : interface_t) (filter_list : filter_ptr)
    : interface_t :=
  mk_interface filter_list (outbound_filter_list interface) (if_index interface)
    (peer_list interface) (peer_filter_list interface) (peer_nofilter_count interface).

Definition set_outbound (interface : interface_t) (filter_list : filter_ptr)
    : interface_t :=
  mk_interface (inbound_filter_list interface) filter_list (if_index interface)
    (peer_list interface) (peer_filter_list interface) (peer_nofilter_count interface).

(** set_global_filter_list: the value returned and the globals. *)
Definition set_global_filter_list (g : globals) (allow_deny : filter_allow_deny_t)
    (list : list (list byte)) (memory : allocation) : outcome (Z * globals) :=
  (* If a list was previously defined, return error *)
  match global_filter_list g with
  | Some _ => returns (1, g)
  | None =>
      match filter_list_create allow_deny list memory with
      | returns filter_list => returns (0, set_global g (Some filter_list))
      | fatal => fatal
      | unfinished => unfinished
      end
  end.

(** The loops of the two functions below that look for a duplicate among the
    lists of the configured interfaces: the first list that compares equal,
    or the new list. *)
Fixpoint adopt_existing (lists : list filter_ptr) (filter_list : filter_ref)
    : filter_ref :=
  match lists with
  | [] => filter_list
  | Some existing :: lists' =>
      if filter_list_compare (target existing) (target filter_list) =? 0
      then existing
      else adopt_existing lists' filter_list
  | None :: lists' => adopt_existing lists' filter_list
  end.

(** set_interface_inbound_filter_list, for the interface at index
    [interface] of [configured_interface_list]: the value returned, the
    globals, and whether the line "inbound filter discarded" is logged. *)
Definition set_interface_inbound_filter_list (g : globals) (interface : nat)
    (allow_deny : filter_allow_deny_t) (list : list (list byte))
    (memory : allocation) : outcome (Z * globals * bool) :=
  let configured := configured_interface_list g in
  (* If a list was previously defined, return error *)
  match inbound_filter_list (nth interface configured zero_interface) with
  | Some _ => returns (1, g, false)
  | None =>
      match filter_list_create allow_deny list memory with
      | returns filter_list =>
          (* Check if this is a duplicate of the global list *)
          let duplicate :=
            match global_filter_list g with
            | Some global =>
                filter_list_compare (target global) (target filter_list) =? 0
            | None => false
            end in
          if duplicate then returns (0, g, true)
          else
            (* Check if this is a duplicate of an already existing interface
               filter list *)
            let filter_list :=
              adopt_existing (map inbound_filter_list configured) filter_list in
            (* Assign the list to the interface *)
            returns (0,
                     set_configured g
                       (list_set configured interface
                          (set_inbound (nth interface configured zero_interface)
                             (Some filter_list))),
                     false)
      | fatal => fatal
      | unfinished => unfinished
      end
  end.

(** set_interface_outbound_filter_list: the value returned, the globals and
    [unique_outbound_filter_count], an unsigned int. *)
Definition set_interface_outbound_filter_list (g : globals)
    (unique_outbound_filter_count : Z) (interface : nat)
    (allow_deny : filter_allow_deny_t) (list : list (list byte))
    (memory : allocation) : outcome (Z * globals * Z) :=
  let configured := configured_interface_list g in
  (* If a list was previously defined, return error *)
  match outbound_filter_list (nth interface configured zero_interface) with
  | Some _ => returns (1, g, unique_outbound_filter_count)
  | None =>
      match filter_list_create allow_deny list memory with
      | returns filter_list =>
          (* Check if this is a duplicate of an already existing interface
             filter list *)
          let filter_list :=
            adopt_existing (map outbound_filter_list configured) filter_list in
          (* Assign the list to the interface *)
          returns (0,
                   set_configured g
                     (list_set configured interface
                        (set_outbound (nth interface configured zero_interface)
                           (Some filter_list))),
                   (unique_outbound_filter_count + 1) mod 2 ^ 32)
      | fatal => fatal
      | unfinished => unfinished
      end
  end.

(** The strings of a list without the repetitions that follow [previous]
    or one another: what the loop that removes duplicates keeps of the rest
    of a sorted array. *)
Fixpoint without_repeats (previous : list byte) (rest : list (list byte))
    : list (list byte) :=
  match rest with
  | [] => []
  | string :: rest' =>
      if strcmp previous string =? 0 then without_repeats previous rest'
      else string :: without_repeats string rest'
  end.

(** The strings that filter_list_create saves, in the order of their names. *)
Definition kept_strings (list : list (list byte)) : Datatypes.list (Datatypes.list byte) :=
  match qsort qsort_strcmp list with
  | [] => []
  | first :: rest => first :: without_repeats first rest
  end.

Definition strcmp_le (a b : list byte) : Prop := strcmp a b <= 0.
Definition strcmp_lt (a b : list byte) : Prop := strcmp a b < 0.

(** A filter string that dns_save_match_name accepts and stores in full:
    labels joined by dots. *)
Definition filter_string (string : list byte) : Prop :=
  exists ls,
    string = join_dots ls /\ ls <> [] /\ Forall string_label ls /\
    Z.of_nat (length ls) <= MAX_NUM_LABELS /\
    Z.of_nat (length string) < DNS_MAX_NAME_LEN.

(** A filter list as filter_list_create leaves it: [count] names. *)
Definition filter_list_full (l : filter_list_t) : Prop :=
  fl_count l = Z.of_nat (length (names l)).

(** Two samples: the same filters, given in another order and one twice. *)
Definition ssh_http : list (list byte) :=
  [datagram [95;115;115;104]; datagram [95;104;116;116;112]].

Definition http_ssh_http : list (list byte) :=
  [datagram [95;104;116;116;112]; datagram [95;115;115;104];
   datagram [95;104;116;116;112]].

Definition zeroed (address : nat) : allocation :=
  mk_allocation true address (fun _ => Some (repeat x00 256)).

(** Two match names that filter_list_compare finds equal. *)
Definition same_name (n1 n2 : dns_match_name_t) : Prop :=
  mn_length n1 = mn_length n2 /\ match_name_bytes n1 = match_name_bytes n2.

(** The filter lists of the configured interfaces are as filter_list_create
    leaves them. *)
Definition interface_lists_full (configured : list interface_t) : Prop :=
  forall index l,
    inbound_filter_list (nth index configured zero_interface) = Some l \/
    outbound_filter_list (nth index configured zero_interface) = Some l ->
    filter_list_full (target l).

(** No two interfaces hold two outbound filter lists that filter_list_compare
    finds equal: equal lists are one list. *)
Definition outbound_lists_shared (configured : list interface_t) : Prop :=
  forall i j li lj,
    outbound_filter_list (nth i configured zero_interface) = Some li ->
    outbound_filter_list (nth j configured zero_interface) = Some lj ->
    filter_list_compare (target li) (target lj) = 0 ->
    addr li = addr lj.

(** The filter list that filter_list_create makes of the one filter [_ssh]
    at address 4, in blocks that held zeros. *)
Definition deny_ssh_created : filter_ref :=
  mk_filter_ref 4
    (mk_filter_list DENY 1
       [mk_match_name 5 (datagram [4;95;115;115;104] ++ repeat x00 251)]).

(** Two interfaces without lists. *)
Definition two_plain_interfaces : list interface_t :=
  [mk_interface None None 1 [] [] 0; mk_interface None None 2 [] [] 0].

(** An interface as set_interface_list leaves it, calloc'ed: no filter
    lists, no peers. *)
Definition peers_unset (interface : interface_t) : Prop :=
  peer_list interface = [] /\ peer_filter_list interface = [] /\
  peer_nofilter_count interface = 0.

Definition filters_unset (interface : interface_t) : Prop :=
  inbound_filter_list interface = None /\ outbound_filter_list interface = None.

(** The globals and [unique_outbound_filter_count] after any number of calls
    of the three functions that set filter lists, each for an interface of
    [configured_interface_list], whatever they return. *)
Inductive filter_configuration : globals -> Z -> Prop :=
| configuration_start (g : globals) :
    global_filter_list g = None ->
    Forall filters_unset (configured_interface_list g) ->
    Forall peers_unset (configured_interface_list g) ->
    filter_configuration g 0
| configuration_global (g : globals) (count : Z) allow_deny list memory result g' :
    filter_configuration g count ->
    set_global_filter_list g allow_deny list memory = returns (result, g') ->
    filter_configuration g' count
| configuration_inbound (g : globals) (count : Z) interface allow_deny list memory
    result g' logged :
    filter_configuration g count ->
    (interface < length (configured_interface_list g))%nat ->
    set_interface_inbound_filter_list g interface allow_deny list memory
    = returns (result, g', logged) ->
    filter_configuration g' count
| configuration_outbound (g : globals) (count : Z) interface allow_deny list memory
    result g' count' :
    filter_configuration g count ->
    (interface < length (configured_interface_list g))%nat ->
    set_interface_outbound_filter_list g count interface allow_deny list memory
    = returns (result, g', count') ->
    filter_configuration g' count'.

(** What the three functions keep. *)
Definition configuration_kept (g : globals) (count : Z) : Prop :=
  (Z.of_nat (length (configured_interface_list g)) < 2 ^ 32 ->
   count = Z.of_nat (length (filter has_outbound (configured_interface_list g)))) /\
  Forall peers_unset (configured_interface_list g) /\
  interface_lists_full (configured_interface_list g) /\
  (forall l, global_filter_list g = Some l -> filter_list_full (target l)) /\
  outbound_lists_shared (configured_interface_list g).
(** ** config.c: the strings of a configuration line *)

(** The functions of config.c work in place on the line buffer of
    read_config: [buffer] is that array up to the NUL that ends the line, a
    [char *] into it is an offset, and a function that stores into the line
    returns the buffer.  [None] is an access before the start of the
    array. *)

Definition MAX_LIST_ARRAY : Z := 1024.

Definition comma : byte := x2c.
Definition equals : byte := x3d.

(** isspace(3) in the "C" locale, which the program never changes. *)
Definition isspace (c : byte) : bool :=
  (u8 c =? 32) || ((9 <=? u8 c) && (u8 c <=? 13)).

(** strlen(3) *)
Fixpoint strlen (s : list byte) : Z :=
  match s with
  | [] => 0
  | c :: s' => if Byte.eqb c x00 then 0 else 1 + strlen s'
  end.

(** strchr(3), as the distance to the first [c]; [None] for NULL. *)
Fixpoint strchr (s : list byte) (c : byte) : option Z :=
  match s with
  | [] => None
  | x :: s' =>
      if Byte.eqb x c then Some 0
      else if Byte.eqb x x00 then None
      else option_map (Z.add 1) (strchr s' c)
  end.

(** The string at an offset of the buffer. *)
Fixpoint c_string (s : list byte) : list byte :=
  match s with
  | [] => []
  | c :: s' => if Byte.eqb c x00 then [] else c :: c_string s'
  end.

Definition string_at (buffer : list byte) (str : Z) : list byte :=
  c_string (skipn (Z.to_nat str) buffer).

(** The [while (isspace ( *str))] of trim_leading_whitespace: how far [str]
    moves. *)
Fixpoint whitespace_run (s : list byte) : Z :=
  match s with
  | [] => 0
  | c :: s' => if isspace c then 1 + whitespace_run s' else 0
  end.

(** trim_leading_whitespace: the pointer returned. *)
Definition trim_leading_whitespace (buffer : list byte) (str : Z) : Z :=
  str + whitespace_run (skipn (Z.to_nat str) buffer).

(** The [while (isspace ( *end))] of trim_trailing_whitespace, with
    [end = buffer + n - 1]. *)
Fixpoint trim_trailing_loop (n : nat) (buffer : list byte) : option (list byte) :=
  match n with
  | O => None
  | S n' =>
      if isspace (nth n' buffer x00)
      then trim_trailing_loop n' (list_set buffer n' x00)
      else Some buffer
  end.

(** trim_trailing_whitespace: the buffer afterwards. *)
Definition trim_trailing_whitespace (buffer : list byte) (str : Z)
    : option (list byte) :=
  let end_ := str + strlen (skipn (Z.to_nat str) buffer) - 1 in
  if end_ <? 0 then None else trim_trailing_loop (Z.to_nat (end_ + 1)) buffer.

(** split_keyvalue: the buffer afterwards, in which [line] is the key, and
    the pointer to the value. *)
Definition split_keyvalue (buffer : list byte) (line : Z)
    : option (outcome (list byte * Z)) :=
  (* Ensure it's actually an assignment *)
  match strchr (skipn (Z.to_nat line) buffer) equals with
  | None => Some fatal
  | Some distance =>
      let value := line + distance in
      let buffer := list_set buffer (Z.to_nat value) x00 in
      (* Trim the value and ensure it is not empty *)
      let value := trim_leading_whitespace buffer (value + 1) in
      if Byte.eqb (rd buffer value) x00 then Some fatal
      else
        (* Trim the key *)
        match trim_trailing_whitespace buffer line with
        | None => None
        | Some buffer => Some (returns (buffer, value))
        end
  end.

(** The [while ( *str)] of split_comma_list.  [array] holds the entries
    stored so far, [array[0]] to [array[index]]. *)
Fixpoint split_comma_list_loop (fuel : nat) (buffer : list byte) (str index : Z)
    (array : list Z) : option (outcome (list byte * list Z * Z)) :=
  match fuel with
  | O => Some unfinished
  | S fuel' =>
    if negb (Byte.eqb (rd buffer str) x00) then
      if Byte.eqb (rd buffer str) comma then
        if index + 1 >=? MAX_LIST_ARRAY then Some fatal
        else
          (* Terminate the current element *)
          let buffer := list_set buffer (Z.to_nat str) x00 in
          match trim_trailing_whitespace buffer str with
          | None => None
          | Some buffer =>
              (* Ensure the current element is not empty *)
              if nth (Z.to_nat index) array 0 =? str then Some fatal
              else
                (* Insure the next element is not empty *)
                let str := trim_leading_whitespace buffer (str + 1) in
                if Byte.eqb (rd buffer str) x00 then Some fatal
                else
                  (* Add the new element to the array *)
                  split_comma_list_loop fuel' buffer str (index + 1) (array ++ [str])
          end
      else split_comma_list_loop fuel' buffer (str + 1) index array
    else Some (returns (buffer, array, index + 1))
  end.

(** split_comma_list: the buffer afterwards, the entries of the array and
    the count returned. *)
Definition split_comma_list (buffer : list byte) (str : Z)
    : option (outcome (list byte * list Z * Z)) :=
  split_comma_list_loop (S (length buffer)) buffer str 0 [str].

(** What a list of values looks like in a line: the first element, and for
    each further one the white space before the comma, the white space after
    it and the element. *)
Fixpoint comma_list (rest : list (list byte * list byte * list byte)) : list byte :=
  match rest with
  | [] => []
  | (before, after, element) :: rest' =>
      before ++ comma :: after ++ element ++ comma_list rest'
  end.

(** The same bytes after split_comma_list. *)
Fixpoint comma_list_split (rest : list (list byte * list byte * list byte))
    : list byte :=
  match rest with
  | [] => []
  | (before, after, element) :: rest' =>
      repeat x00 (length before) ++ x00 :: after ++ element ++ comma_list_split rest'
  end.

(** Where the elements start, given where the previous element ends. *)
Fixpoint comma_list_offsets (start : Z) (rest : list (list byte * list byte * list byte))
    : list Z :=
  match rest with
  | [] => []
  | (before, after, element) :: rest' =>
      let here := start + Z.of_nat (length before) + 1 + Z.of_nat (length after) in
      here :: comma_list_offsets (here + Z.of_nat (length element)) rest'
  end.

(** An element of a list: not empty, without NUL or comma, without white
    space at either end. *)
Definition list_element (element : list byte) : Prop :=
  element <> [] /\ ~ In x00 element /\ ~ In comma element /\
  isspace (hd x00 element) = false /\ isspace (last element x00) = false.

Definition white_space (s : list byte) : Prop :=
  Forall (fun c => isspace c = true) s.

Definition list_item (item : list byte * list byte * list byte) : Prop :=
  white_space (fst (fst item)) /\ white_space (snd (fst item)) /\
  list_element (snd item).

(** A key of a configuration line: not empty, without NUL or equals sign,
    without white space at its end. *)
Definition line_key (key : list byte) : Prop :=
  key <> [] /\ ~ In x00 key /\ ~ In equals key /\ isspace (last key x00) = false.

(** Where an element may start: at a byte that is neither NUL nor white
    space. *)
Definition element_start (buffer : list byte) (off : Z) : Prop :=
  rd buffer off <> x00 /\ isspace (rd buffer off) = false.

(** What the loop of split_comma_list keeps, for a list that starts at
    [start]: the array holds [index + 1] entries, 1024 at most; each entry
    lies between [start] and [str], at the start of an element; only the
    last entry can be [str]; and no comma is left between [start] and
    [str]. *)
Definition split_comma_list_kept (buffer : list byte) (start str index : Z)
    (array : list Z) : Prop :=
  0 <= index /\
  Z.of_nat (length array) = index + 1 /\ index + 1 <= MAX_LIST_ARRAY /\
  0 <= start <= str /\ str <= Z.of_nat (length buffer) /\
  (forall off, In off array -> start <= off <= str /\ element_start buffer off) /\
  (forall k, 0 <= k < index -> nth (Z.to_nat k) array 0 < str) /\
  (forall q, start <= q < str -> rd buffer q <> comma).

(* ================================================================== *)
(** * Properties *)

(** ** Filter evaluation *)

Lemma prefix_eqb_spec needle hay :
  prefix_eqb needle hay = true <-> exists post, hay = needle ++ post.
Proof.
  revert hay; induction needle as [|x needle IH]; intros hay; simpl.
  - split; [intros _; now exists hay | reflexivity].
  - destruct hay as [|y hay].
    + split; [discriminate | intros [post H]; discriminate].
    + rewrite andb_true_iff, IH. split.
      * intros [Hxy [post ->]]. apply Byte.byte_dec_bl in Hxy. subst. now exists post.
      * intros [post H]. injection H as -> ->. split.
        -- now apply Byte.byte_dec_lb.
        -- now exists post.
Qed.

Lemma memmem_spec hay needle :
  memmem hay needle = true <-> exists pre post, hay = pre ++ needle ++ post.
Proof.
  induction hay as [|y hay IH]; simpl.
  - rewrite orb_false_r, prefix_eqb_spec. split.
    + intros [post H]. now exists [], post.
    + intros [pre [post H]]. destruct pre; [now exists post | discriminate].
  - rewrite orb_true_iff, prefix_eqb_spec, IH. split.
    + intros [[post H] | [pre [post H]]].
      * now exists [], post.
      * exists (y :: pre), post. simpl. now rewrite H.
    + intros [pre [post H]]. destruct pre as [|z pre]; simpl in H.
      * left. now exists post.
      * right. injection H as _ H. now exists pre, post.
Qed.

Lemma dns_subset_match_spec name subset :
  dns_subset_match name subset = true <-> occurs_in subset name.
Proof. unfold dns_subset_match, occurs_in. apply memmem_spec. Qed.

Lemma filter_list_allowed_spec fl name :
  filter_list_allowed fl name = true <-> admits fl name.
Proof.
  unfold filter_list_allowed, admits.
  destruct (allow_deny fl).
  - rewrite existsb_exists. split.
    + intros [m [Hin Hm]]. left. split; [reflexivity|].
      exists m. split; [assumption|]. now apply dns_subset_match_spec.
    + intros [[_ [m [Hin Hm]]] | [H _]]; [|discriminate].
      exists m. split; [assumption|]. now apply dns_subset_match_spec.
  - rewrite negb_true_iff. split.
    + intros H. right. split; [reflexivity|].
      intros m Hin Hocc. apply dns_subset_match_spec in Hocc.
      assert (existsb (dns_subset_match name) (filter_names fl) = true)
        by (apply existsb_exists; now exists m).
      congruence.
    + intros [[H _] | [_ H]]; [discriminate|].
      destruct (existsb _ _) eqn:E; [|reflexivity].
      apply existsb_exists in E. destruct E as [m [Hin Hm]].
      apply dns_subset_match_spec in Hm. now elim (H m Hin).
Qed.

(** C5.  allowed_inbound answers true exactly when the global filter list, if
    there is one, admits the name and the inbound filter list of the
    interface, if there is one, admits it too; a list admits a name when it is
    an ALLOW list one of whose match names occurs as a contiguous run of the
    name's label bytes, or a DENY list none of whose match names does. *)
Theorem allowed_inbound_iff_admitted (g : globals) (interface : interface_t)
    (name : dns_name_t) :
  allowed_inbound g interface name = true <->
  (forall fl, global_filter_list g = Some fl -> admits (target fl) name) /\
  (forall fl, inbound_filter_list interface = Some fl -> admits (target fl) name).
Proof.
  unfold allowed_inbound.
  destruct (global_filter_list g) as [gf|], (inbound_filter_list interface) as [inf|].
  - destruct (filter_list_allowed (target gf) name) eqn:Eg.
    + rewrite filter_list_allowed_spec. apply filter_list_allowed_spec in Eg. split.
      * intros H. split; intros fl [= <-]; assumption.
      * intros [_ H]. now apply H.
    + split; [discriminate|]. intros [H _].
      specialize (H gf eq_refl). apply filter_list_allowed_spec in H. congruence.
  - rewrite filter_list_allowed_spec. split.
    + intros H. split; [intros fl [= <-]; assumption | discriminate].
    + intros [H _]. now apply H.
  - rewrite filter_list_allowed_spec. split.
    + intros H. split; [discriminate | intros fl [= <-]; assumption].
    + intros [_ H]. now apply H.
  - split; [intros _; split; discriminate | reflexivity].
Qed.

(** ** Bytes and stores into a packet *)

Lemma u8_range b : 0 <= u8 b < 256.
Proof.
  unfold u8. pose proof (Byte.to_N_bounded b). lia.
Qed.

Lemma u8_byte_of_Z z : u8 (byte_of_Z z) = z mod 256.
Proof.
  unfold u8, byte_of_Z.
  pose proof (Z.mod_pos_bound z 256 ltac:(lia)) as Hz.
  destruct (Byte.of_N (Z.to_N (z mod 256))) as [b|] eqn:E.
  - apply Byte.to_of_N in E. rewrite E. lia.
  - apply Byte.of_N_None_iff in E. lia.
Qed.

Lemma byte_of_Z_u8 b : byte_of_Z (u8 b) = b.
Proof.
  unfold byte_of_Z. pose proof (u8_range b) as H.
  rewrite Z.mod_small by lia. unfold u8. rewrite N2Z.id, Byte.of_to_N. reflexivity.
Qed.

Lemma nth_splice (b d : list byte) (o i : nat) :
  (o + length d <= length b)%nat ->
  nth i (firstn o b ++ d ++ skipn (o + length d) b) x00 =
  if (i <? o)%nat then nth i b x00
  else if (i <? o + length d)%nat then nth (i - o) d x00
  else nth i b x00.
Proof.
  intros Hfit.
  assert (Hlen : length (firstn o b) = o) by (rewrite length_firstn; lia).
  destruct (Nat.ltb_spec i o) as [Hi|Hi].
  - rewrite app_nth1 by lia. rewrite nth_firstn.
    destruct (Nat.ltb_spec i o); [reflexivity|lia].
  - rewrite app_nth2 by lia. rewrite Hlen.
    destruct (Nat.ltb_spec i (o + length d)) as [Hj|Hj].
    + apply app_nth1. lia.
    + rewrite app_nth2 by lia. rewrite nth_skipn. f_equal. lia.
Qed.

Lemma length_splice (b d : list byte) (o : nat) :
  (o + length d <= length b)%nat ->
  length (firstn o b ++ d ++ skipn (o + length d) b) = length b.
Proof.
  intros H. rewrite !length_app, length_firstn, length_skipn. lia.
Qed.

Lemma write_bytes_Some packet off data packet' :
  write_bytes packet off data = Some packet' ->
  0 <= off /\ off + Z.of_nat (length data) <= Z.of_nat (length (buffer packet)) /\
  packet' = mk_packet (bytes packet)
              (firstn (Z.to_nat off) (buffer packet) ++ data
               ++ skipn (Z.to_nat off + length data) (buffer packet)).
Proof.
  unfold write_bytes.
  destruct (Z.leb_spec 0 off); [|discriminate].
  destruct (Z.leb_spec (off + Z.of_nat (length data)) (Z.of_nat (length (buffer packet))));
    [|discriminate].
  intros [= <-]. auto.
Qed.

Lemma write_bytes_fits packet off data :
  0 <= off -> off + Z.of_nat (length data) <= Z.of_nat (length (buffer packet)) ->
  write_bytes packet off data =
  Some (mk_packet (bytes packet)
          (firstn (Z.to_nat off) (buffer packet) ++ data
           ++ skipn (Z.to_nat off + length data) (buffer packet))).
Proof.
  intros H0 H1. unfold write_bytes.
  destruct (Z.leb_spec 0 off); [|lia].
  destruct (Z.leb_spec (off + Z.of_nat (length data)) (Z.of_nat (length (buffer packet))));
    [reflexivity|lia].
Qed.

Lemma write_bytes_bytes packet off data packet' :
  write_bytes packet off data = Some packet' -> bytes packet' = bytes packet.
Proof. intros H. apply write_bytes_Some in H as (_ & _ & ->). reflexivity. Qed.

Lemma write_bytes_length packet off data packet' :
  write_bytes packet off data = Some packet' ->
  length (buffer packet') = length (buffer packet).
Proof.
  intros H. apply write_bytes_Some in H as (H0 & H1 & ->). simpl.
  apply length_splice. lia.
Qed.

Lemma write_bytes_rd_outside packet off data packet' i :
  write_bytes packet off data = Some packet' ->
  0 <= i -> i < off \/ off + Z.of_nat (length data) <= i ->
  rd (buffer packet') i = rd (buffer packet) i.
Proof.
  intros H Hi Hout. apply write_bytes_Some in H as (H0 & H1 & ->). simpl.
  unfold rd. rewrite nth_splice by lia.
  destruct (Nat.ltb_spec (Z.to_nat i) (Z.to_nat off)); [reflexivity|].
  destruct (Nat.ltb_spec (Z.to_nat i) (Z.to_nat off + length data)); [lia|reflexivity].
Qed.

Lemma write_bytes_rd_inside packet off data packet' (k : nat) :
  write_bytes packet off data = Some packet' ->
  (k < length data)%nat ->
  rd (buffer packet') (off + Z.of_nat k) = nth k data x00.
Proof.
  intros H Hk. apply write_bytes_Some in H as (H0 & H1 & ->). simpl.
  unfold rd. rewrite nth_splice by lia.
  destruct (Nat.ltb_spec (Z.to_nat (off + Z.of_nat k)) (Z.to_nat off)); [lia|].
  destruct (Nat.ltb_spec (Z.to_nat (off + Z.of_nat k)) (Z.to_nat off + length data));
    [|lia].
  f_equal. lia.
Qed.

Lemma slice_length buf off len : length (slice buf off len) = Z.to_nat len.
Proof. unfold slice. now rewrite length_map, length_seq. Qed.

Lemma slice_ext buf buf' off len :
  (forall k, (k < Z.to_nat len)%nat -> rd buf (off + Z.of_nat k) = rd buf' (off + Z.of_nat k)) ->
  slice buf off len = slice buf' off len.
Proof.
  intros H. unfold slice. apply map_ext_in. intros k Hk. apply in_seq in Hk. apply H. lia.
Qed.

Lemma slice_nth buf off len (k : nat) :
  (k < Z.to_nat len)%nat -> nth k (slice buf off len) x00 = rd buf (off + Z.of_nat k).
Proof.
  intros Hk. unfold slice.
  set (f := fun k : nat => rd buf (off + Z.of_nat k)).
  rewrite (nth_indep _ x00 (f 0%nat)) by (rewrite length_map, length_seq; lia).
  rewrite map_nth, seq_nth by lia. reflexivity.
Qed.


(** ** The root name *)

(** C10.  For a name whose count is at most 1, dns_encode_name stores one zero
    byte at the offset and returns the offset plus one; the rest of the send
    buffer and the whole state, the compression list included, are as before,
    and neither the offset returned nor the packet depends on the list. *)
Theorem dns_encode_name_root (state : dns_state_t) (send_packet : packet_t)
    (packet_offset : Z) (name : dns_name_t) :
  nm_count name <= 1 ->
  0 <= packet_offset < Z.of_nat (length (buffer send_packet)) ->
  exists send_packet',
    (forall st, dns_encode_name st send_packet packet_offset name
                = Some (packet_offset + 1, send_packet', st)) /\
    dns_encode_name state send_packet packet_offset name
      = Some (packet_offset + 1, send_packet', state) /\
    rd (buffer send_packet') packet_offset = x00 /\
    (forall i, 0 <= i -> i <> packet_offset ->
               rd (buffer send_packet') i = rd (buffer send_packet) i) /\
    length (buffer send_packet') = length (buffer send_packet) /\
    bytes send_packet' = bytes send_packet.
Proof.
  intros Hcount Hoff.
  assert (Hw : write_bytes send_packet packet_offset [x00] <> None).
  { rewrite write_bytes_fits by (simpl; lia). discriminate. }
  destruct (write_bytes send_packet packet_offset [x00]) as [sp|] eqn:E; [|contradiction].
  assert (Hdef : forall st, dns_encode_name st send_packet packet_offset name
                            = Some (packet_offset + 1, sp, st)).
  { intros st. unfold dns_encode_name.
    destruct (Z.leb_spec (nm_count name) 1); [|lia]. now rewrite E. }
  exists sp. repeat split.
  - exact Hdef.
  - apply Hdef.
  - pose proof (write_bytes_rd_inside _ _ _ _ 0%nat E ltac:(simpl; lia)) as H.
    simpl in H. now rewrite Z.add_0_r in H.
  - intros i Hi Hne. apply (write_bytes_rd_outside _ _ _ _ i E Hi). simpl. lia.
  - apply (write_bytes_length _ _ _ _ E).
  - apply (write_bytes_bytes _ _ _ _ E).
Qed.

(** ** The decoder on single datagrams *)

(** C1.  The decoder reads the packet buffer at the index equal to the
    received length: on a 12-byte datagram whose header announces one query,
    dns_decode_name reads [buffer[12]] before any bounds check, and the packet
    is then dropped. *)
Theorem decode_reads_at_received_length :
  match dns_decode_packet no_filters (dns_state_create true) (received header_only)
          plain_interface with
  | (r, _, tr) =>
      bytes (received header_only) = 12 /\ In (ev_read 12 1) tr /\ r = 0
  end.
Proof. vm_compute. repeat split. right. left. reflexivity. Qed.

(** The same read falls outside the 9000 bytes of the buffer when the
    datagram fills it. *)
Lemma decode_reads_past_buffer :
  match dns_decode_packet no_filters (dns_state_create true) (received full_buffer)
          plain_interface with
  | (r, _, tr) =>
      bytes (received full_buffer) = MDNS_MAX_PACKET_SIZE /\
      length (buffer (received full_buffer)) = Z.to_nat MDNS_MAX_PACKET_SIZE /\
      In (ev_read MDNS_MAX_PACKET_SIZE 1) tr
  end.
Proof. vm_compute. repeat split. do 4 right. left. reflexivity. Qed.

(** C2.  A name with a pointer to offset 5 makes dns_decode_name fail, but in
    the RDATA of an NSEC record the failure is not noticed: dns_decode_packet
    returns the packet length and keeps the record. *)
Theorem nsec_bad_pointer_accepted :
  match dns_decode_packet no_filters (dns_state_create true) (received nsec_bad_pointer)
          plain_interface with
  | (r, state, tr) =>
      In (ev_pointer 25 5) tr /\ 5 < sizeof_dns_header_t /\
      fst (fst (dns_decode_name (received nsec_bad_pointer) 25 zero_name)) = 0 /\
      In (ev_packet_error err_bad_label_pointer) tr /\
      r = 31 /\ sec_get (rr_count state) RR_ANSWER = 1
  end.
Proof.
  vm_compute. repeat split.
  - do 8 right. left. reflexivity.
  - do 9 right. left. reflexivity.
Qed.

(** ** The filter switches of the decoder and of the encoder *)

(** C6.  For SVCB and HTTPS the decoder filters on the owner name and the
    encoder does not filter: a record that the DENY list [_ssh] rejects
    inbound passes the same list outbound, where a TXT record for the same
    name does not. *)
Theorem svcb_https_not_filtered_outbound :
  decode_rr_filter DNS_TYPE_SVCB = filter_owner /\
  encode_rr_filter DNS_TYPE_SVCB = not_filtered /\
  decode_rr_filter DNS_TYPE_HTTPS = filter_owner /\
  encode_rr_filter DNS_TYPE_HTTPS = not_filtered /\
  decode_query_filter DNS_TYPE_SVCB = filter_owner /\
  encode_query_filter DNS_TYPE_SVCB = not_filtered /\
  decode_query_filter DNS_TYPE_HTTPS = filter_owner /\
  encode_query_filter DNS_TYPE_HTTPS = not_filtered /\
  (* inbound, the list drops the SVCB record, and with it the packet *)
  fst (fst (dns_decode_packet (mk_globals false true (Some deny_ssh) [])
              (dns_state_create true) (received svcb_ssh) plain_interface)) = 0 /\
  (* outbound, the same list lets it through *)
  match dns_decode_packet no_filters (dns_state_create true) (received svcb_ssh)
          plain_interface with
  | (_, state, _) =>
      match dns_encode_packet state (received svcb_ssh) blank_packet (Some deny_ssh) with
      | Some (r, send_packet, _) =>
          r = 33 /\ slice (buffer send_packet) 0 r = datagram svcb_ssh
      | None => False
      end
  end /\
  (* while it stops the TXT record *)
  match dns_decode_packet no_filters (dns_state_create true) (received txt_ssh)
          plain_interface with
  | (_, state, _) =>
      match dns_encode_packet state (received txt_ssh) blank_packet (Some deny_ssh) with
      | Some (r, _, _) => r = 0
      | None => False
      end
  end.
Proof. vm_compute. repeat split. Qed.

(** ** The receive path on a datagram that no filter touches *)


(** ** The encoder leaves the decoded records alone *)

Lemma records_set_clist st u a l : records (set_clist st u a l) = records st.
Proof. reflexivity. Qed.

Lemma records_set_entry st i e : records (set_entry st i e) = records st.
Proof. reflexivity. Qed.

Lemma records_set_pointer st i v : records (set_pointer st i v) = records st.
Proof. reflexivity. Qed.

Lemma records_clist_reset st : records (clist_reset st) = records st.
Proof. reflexivity. Qed.

Lemma records_clist_expand st count st' :
  clist_expand st count = Some st' -> records st' = records st.
Proof. unfold clist_expand. destruct (heap_ok st); [intros [= <-]; reflexivity | discriminate]. Qed.

Lemma records_clist_open st index count :
  records (snd (clist_open st index count)) = records st.
Proof.
  unfold clist_open.
  destruct (used_clist_count st + count >=? allocated_clist_count st).
  - destruct (clist_expand st count) as [st'|] eqn:E; simpl; [|reflexivity].
    now apply records_clist_expand in E.
  - reflexivity.
Qed.

Lemma records_clist_add_child st parent lbl :
  records (snd (clist_add_child st parent lbl)) = records st.
Proof.
  unfold clist_add_child.
  set (st1 := if child_allocated (entry st parent) =? 0 then _ else st).
  assert (H1 : records st1 = records st) by (subst st1; destruct (_ =? 0); reflexivity).
  destruct (child_used (entry st1 parent) >=? child_allocated (entry st1 parent)).
  - destruct (clist_open st1 _ _) as [index st2] eqn:E.
    assert (H2 : records st2 = records st1).
    { pose proof (records_clist_open st1 (child_index (entry st1 parent)
                    + child_used (entry st1 parent))
                    (if child_allocated (entry st1 parent) =? 0 then 1
                     else child_allocated (entry st1 parent))) as H.
      rewrite E in H. exact H. }
    destruct (index =? 0); cbn [snd]; rewrite ?records_set_entry;
      now rewrite H2, H1.
  - cbn [snd]. now rewrite !records_set_entry.
Qed.

Lemma records_clist_get_child st parent lbl :
  records (snd (clist_get_child st parent lbl)) = records st.
Proof.
  unfold clist_get_child.
  destruct (if child_used (entry st parent) =? 0 then None else _); [reflexivity|].
  apply records_clist_add_child.
Qed.

Lemma records_encode_search remaining st name parent :
  records (search_state (encode_search remaining st name parent)) = records st.
Proof.
  revert st parent. induction remaining as [|n IH]; intros st parent; simpl.
  - pose proof (records_clist_get_child st parent (label_at name 0)) as H.
    destruct (clist_get_child st parent (label_at name 0)) as [c st'].
    cbn [snd] in H. destruct (c =? 0); [exact H|].
    destruct (pointer (entry st' c) =? 0); exact H.
  - pose proof (records_clist_get_child st parent (label_at name (S n))) as H.
    destruct (clist_get_child st parent (label_at name (S n))) as [c st'].
    cbn [snd] in H. destruct (c =? 0); [exact H|].
    destruct (pointer (entry st' c) =? 0); [exact H|].
    rewrite IH. exact H.
Qed.

Lemma records_encode_remaining remaining st name off child :
  records (snd (encode_remaining remaining st name off child)) = records st.
Proof.
  revert st child. induction remaining as [|n IH]; intros st child; simpl; [reflexivity|].
  pose proof (records_clist_get_child st child (label_at name n)) as H.
  destruct (clist_get_child st child (label_at name n)) as [c st'].
  cbn [snd] in H. destruct (c =? 0); [exact H|].
  rewrite IH, records_set_pointer. exact H.
Qed.

Lemma records_dns_encode_name st sp off name off' sp' st' :
  dns_encode_name st sp off name = Some (off', sp', st') -> records st' = records st.
Proof.
  unfold dns_encode_name. destruct (nm_count name <=? 1).
  - destruct (write_bytes sp off [x00]); [|discriminate]. now intros [= _ _ <-].
  - pose proof (records_encode_search (Z.to_nat (nm_count name - 1) - 1) st name 0) as Hs.
    destruct (encode_search _ st name 0) as [s1|c s1|rem par c s1]; cbn [search_state] in Hs.
    + now intros [= _ _ <-].
    + destruct (write_bytes sp off _); [|discriminate]. now intros [= _ _ <-].
    + assert (Hx : forall s2,
                (if used_clist_count s1 + Z.of_nat rem >? allocated_clist_count s1
                 then clist_expand s1 (Z.of_nat rem) else Some s1) = Some s2 ->
                records s2 = records st).
      { intros s2. destruct (_ >? _).
        - intros E. apply records_clist_expand in E. congruence.
        - intros [= <-]. exact Hs. }
      destruct (if _ >? _ then _ else _) as [s2|]; [|now intros [= _ _ <-]].
      specialize (Hx s2 eq_refl).
      destruct (write_bytes sp off _) as [sp1|]; [|discriminate].
      match goal with
      | |- context [encode_remaining ?r ?s ?n ?o ?c] =>
          pose proof (records_encode_remaining r s n o c) as Hr;
          destruct (encode_remaining r s n o c) as [[|] s3]
      end; cbn [snd] in Hr; rewrite records_set_pointer in Hr.
      * destruct (negb _).
        -- destruct (write_bytes sp1 _ _); [|discriminate]. intros [= _ _ <-]. congruence.
        -- destruct (write_bytes sp1 _ _); [|discriminate]. intros [= _ _ <-]. congruence.
      * intros [= _ _ <-]. congruence.
Qed.

Lemma records_encode_query recv query off sp st n off' sp' st' n' :
  encode_query recv query (off, sp, st, n) = Some (off', sp', st', n') ->
  records st' = records st /\ n' = n + 1.
Proof.
  unfold encode_query.
  destruct (dns_encode_name st sp off (q_name query)) as [[[o1 sp1] st1]|] eqn:E;
    [|discriminate].
  destruct (write_bytes sp1 o1 _); [|discriminate].
  intros [= _ _ <- <-]. split; [|reflexivity].
  now apply records_dns_encode_name in E.
Qed.

Lemma records_encode_rdata recv rr st sp off off' sp' st' :
  encode_rdata recv rr st sp off = Some (off', sp', st') -> records st' = records st.
Proof.
  unfold encode_rdata.
  destruct (_ || _).
  { apply records_dns_encode_name. }
  destruct (rr_type rr =? DNS_TYPE_SRV).
  { destruct (write_bytes sp off _); [|discriminate]. apply records_dns_encode_name. }
  destruct (rr_type rr =? DNS_TYPE_NSEC).
  { destruct (dns_encode_name st sp off (rdata_name rr)) as [[[o1 sp1] st1]|] eqn:E;
      [|discriminate].
    destruct (write_bytes sp1 o1 _); [|discriminate].
    intros [= _ _ <-]. now apply records_dns_encode_name in E. }
  destruct (write_bytes sp off _); [|discriminate]. now intros [= _ _ <-].
Qed.

Lemma records_encode_rr recv rr off sp st n off' sp' st' n' :
  encode_rr recv rr (off, sp, st, n) = Some (off', sp', st', n') ->
  records st' = records st /\ n' = n + 1.
Proof.
  unfold encode_rr.
  destruct (dns_encode_name st sp off (rr_name rr)) as [[[o1 sp1] st1]|] eqn:E;
    [|discriminate].
  destruct (write_bytes sp1 o1 _) as [sp2|]; [|discriminate].
  destruct (encode_rdata recv rr st1 sp2 _) as [[[o3 sp3] st3]|] eqn:E3; [|discriminate].
  destruct (write_bytes sp3 _ _); [|discriminate].
  intros [= _ _ <- <-]. split; [|reflexivity].
  apply records_dns_encode_name in E. apply records_encode_rdata in E3. congruence.
Qed.

(** The loops count the records that pass the filter. *)
Lemma dns_encode_queries_loop_count queries recv f off sp st n off' sp' st' n' :
  dns_encode_queries_loop queries recv f (off, sp, st, n) = Some (off', sp', st', n') ->
  records st' = records st /\
  n' = n + Z.of_nat (length (filter (query_allowed_outbound f) queries)).
Proof.
  revert off sp st n. induction queries as [|q qs IH]; intros off sp st n;
    cbn [dns_encode_queries_loop filter].
  - intros [= _ _ <- <-]. split; [reflexivity|cbn [length]; lia].
  - destruct (query_allowed_outbound f q).
    + destruct (encode_query recv q (off, sp, st, n)) as [[[[o1 sp1] st1] n1]|] eqn:E;
        [|discriminate].
      apply records_encode_query in E as [Hr ->].
      intros H. apply IH in H as [Hr' ->]. split; [congruence|].
      cbn [length]. lia.
    + apply IH.
Qed.

Lemma dns_encode_rrs_loop_count rrs recv f off sp st n off' sp' st' n' :
  dns_encode_rrs_loop rrs recv f (off, sp, st, n) = Some (off', sp', st', n') ->
  records st' = records st /\
  n' = n + Z.of_nat (length (filter (rr_allowed_outbound f) rrs)).
Proof.
  revert off sp st n. induction rrs as [|q qs IH]; intros off sp st n;
    cbn [dns_encode_rrs_loop filter].
  - intros [= _ _ <- <-]. split; [reflexivity|cbn [length]; lia].
  - destruct (rr_allowed_outbound f q).
    + destruct (encode_rr recv q (off, sp, st, n)) as [[[[o1 sp1] st1] n1]|] eqn:E;
        [|discriminate].
      apply records_encode_rr in E as [Hr ->].
      intros H. apply IH in H as [Hr' ->]. split; [congruence|].
      cbn [length]. lia.
    + apply IH.
Qed.

Lemma records_queries st st' :
  records st' = records st ->
  forall f, emitted_queries f st' = emitted_queries f st.
Proof.
  unfold records, emitted_queries. intros [= _ _ Hq _ _ _ _ _ Hl _ _] f. now rewrite Hq, Hl.
Qed.

Lemma records_section_rrs st st' :
  records st' = records st ->
  forall s, section_rrs st' s = section_rrs st s.
Proof.
  unfold records, section_rrs. intros [= _ _ _ Hi Hc _ _ _ _ Hl _] s. now rewrite Hi, Hc, Hl.
Qed.

Lemma dns_encode_queries_count st recv sp off f off' sp' st' n' :
  dns_encode_queries st recv sp off f = Some (off', sp', st', n') ->
  records st' = records st /\ n' = Z.of_nat (length (emitted_queries f st)).
Proof.
  unfold dns_encode_queries. intros H.
  apply dns_encode_queries_loop_count in H as [Hr ->]. split; [exact Hr|reflexivity].
Qed.

Lemma dns_encode_rrs_count st s recv sp off f off' sp' st' n' :
  dns_encode_rrs st s recv sp off f = Some (off', sp', st', n') ->
  records st' = records st /\ n' = Z.of_nat (length (emitted_rrs f st s)).
Proof.
  unfold dns_encode_rrs. intros H.
  apply dns_encode_rrs_loop_count in H as [Hr ->]. split; [exact Hr|reflexivity].
Qed.

(** ** The header of an assembled packet *)


Lemma cells_length {A} (d : A) l off len : length (cells d l off len) = Z.to_nat len.
Proof. unfold cells. now rewrite length_map, length_seq. Qed.



(** What dns_encode_packet does, stage by stage. *)
Lemma dns_encode_packet_stages st recv send f r send' st' :
  dns_encode_packet st recv send f = Some (r, send', st') ->
  records st' = records st /\
  exists sp,
    (r = 0 /\ send' = sp /\
     emitted_queries f st = [] /\ forall s, emitted_rrs f st s = []) \/
    (r <> 0 -> exists sp5,
      write_bytes sp 0
        (slice (buffer recv) 0 4
         ++ put16 (Z.of_nat (length (emitted_queries f st)))
         ++ put16 (Z.of_nat (length (emitted_rrs f st RR_ANSWER)))
         ++ put16 (Z.of_nat (length (emitted_rrs f st RR_AUTHORITY)))
         ++ put16 (Z.of_nat (length (emitted_rrs f st RR_ADDITIONAL)))) = Some sp5 /\
      send' = mk_packet r (buffer sp5)).
Proof.
  unfold dns_encode_packet.
  destruct (dns_encode_queries _ _ _ _ _) as [[[[o1 sp1] st1] n1]|] eqn:E1; [|discriminate].
  apply dns_encode_queries_count in E1 as [R1 ->].
  rewrite records_clist_reset in R1.
  destruct (dns_encode_rrs st1 RR_ANSWER _ _ _ _) as [[[[o2 sp2] st2] n2]|] eqn:E2;
    [|discriminate].
  apply dns_encode_rrs_count in E2 as [R2 ->].
  destruct (dns_encode_rrs st2 RR_AUTHORITY _ _ _ _) as [[[[o3 sp3] st3] n3]|] eqn:E3;
    [|discriminate].
  apply dns_encode_rrs_count in E3 as [R3 ->].
  destruct (dns_encode_rrs st3 RR_ADDITIONAL _ _ _ _) as [[[[o4 sp4] st4] n4]|] eqn:E4;
    [|discriminate].
  apply dns_encode_rrs_count in E4 as [R4 ->].
  assert (R2' : records st2 = records st) by congruence.
  assert (R3' : records st3 = records st) by congruence.
  assert (R4' : records st4 = records st) by congruence.
  rewrite (records_queries _ _ (records_clist_reset st)).
  unfold emitted_rrs.
  rewrite (records_section_rrs _ _ R1), (records_section_rrs _ _ R2'),
    (records_section_rrs _ _ R3').
  fold (emitted_rrs f st RR_ANSWER) (emitted_rrs f st RR_AUTHORITY)
    (emitted_rrs f st RR_ADDITIONAL).
  destruct ((_ =? 0) && _ && _ && _) eqn:Ez.
  - intros [= <- <- <-]. split; [exact R4'|]. exists sp4. left.
    apply andb_true_iff in Ez as [Ez Ez4]. apply andb_true_iff in Ez as [Ez Ez3].
    apply andb_true_iff in Ez as [Ez1 Ez2].
    apply Z.eqb_eq in Ez1, Ez2, Ez3, Ez4.
    repeat split; try reflexivity.
    + apply length_zero_iff_nil. lia.
    + intros s. fold (emitted_rrs f st s). apply length_zero_iff_nil.
      destruct s; lia.
  - destruct (write_bytes sp4 0 _) as [sp5|] eqn:E5; [|discriminate].
    intros [= <- <- <-]. split; [exact R4'|]. exists sp4. right.
    intros _. exists sp5. split; [exact E5|reflexivity].
Qed.


(** ** Nothing passes the outbound filter *)

Lemma dns_encode_queries_loop_none queries recv f e :
  filter (query_allowed_outbound f) queries = [] ->
  dns_encode_queries_loop queries recv f e = Some e.
Proof.
  induction queries as [|q qs IH]; cbn [dns_encode_queries_loop filter]; [reflexivity|].
  destruct (query_allowed_outbound f q); [discriminate|exact IH].
Qed.

Lemma dns_encode_rrs_loop_none rrs recv f e :
  filter (rr_allowed_outbound f) rrs = [] ->
  dns_encode_rrs_loop rrs recv f e = Some e.
Proof.
  induction rrs as [|q qs IH]; cbn [dns_encode_rrs_loop filter]; [reflexivity|].
  destruct (rr_allowed_outbound f q); [discriminate|exact IH].
Qed.

Lemma dns_encode_packet_all_filtered st recv send f :
  emitted_queries f st = [] ->
  (forall s, emitted_rrs f st s = []) ->
  dns_encode_packet st recv send f = Some (0, send, clist_reset st).
Proof.
  intros Hq Hr. unfold dns_encode_packet, dns_encode_queries, dns_encode_rrs.
  rewrite dns_encode_queries_loop_none
    by (rewrite <- (records_queries _ _ (records_clist_reset st)) in Hq; exact Hq).
  rewrite !dns_encode_rrs_loop_none
    by (rewrite (records_section_rrs _ _ (records_clist_reset st)); apply Hr).
  reflexivity.
Qed.

Lemma records_emitted_rrs st st' :
  records st' = records st ->
  forall f s, emitted_rrs f st' s = emitted_rrs f st s.
Proof.
  intros H f s. unfold emitted_rrs. now rewrite (records_section_rrs _ _ H).
Qed.

Lemma records_dns_encode_packet st recv send f r send' st' :
  dns_encode_packet st recv send f = Some (r, send', st') -> records st' = records st.
Proof. intros H. now apply dns_encode_packet_stages in H as [H _]. Qed.

Lemma in_send_to_peers g family interface packet want s :
  In s (send_to_peers g family interface packet want) ->
  exists peer,
    nth_error (configured_interface_list g) (to_peer s) = Some peer /\
    filter_ptr_eqb (outbound_filter_list peer) want = true /\
    payload s = slice (buffer packet) 0 (bytes packet).
Proof.
  unfold send_to_peers. rewrite in_flat_map. intros (i & _ & H).
  destruct (nth_error (configured_interface_list g) i) as [peer|] eqn:E; [|contradiction].
  destruct (filter_ptr_eqb (outbound_filter_list peer) want) eqn:Ef; [|contradiction].
  destruct H as [<-|[]]. exists peer. cbn [to_peer payload]. auto.
Qed.

Lemma filter_ptr_eqb_Some p a b :
  filter_ptr_eqb p (Some a) = true -> filter_ptr_eqb p (Some b) = true ->
  addr a = addr b.
Proof.
  destruct p as [q|]; simpl; [|discriminate].
  intros Ha Hb. apply Nat.eqb_eq in Ha, Hb. congruence.
Qed.

Lemma NoDup_map_addr_inj (l : list filter_ref) a b :
  NoDup (map addr l) -> In a l -> In b l -> addr a = addr b -> a = b.
Proof.
  induction l as [|x l IH]; simpl; [contradiction|].
  intros Hnd Ha Hb Hab. inversion Hnd as [|? ? Hnotin Hnd']; subst.
  destruct Ha as [->|Ha], Hb as [->|Hb]; try reflexivity.
  - exfalso. apply Hnotin. rewrite Hab. now apply in_map.
  - exfalso. apply Hnotin. rewrite <- Hab. now apply in_map.
  - now apply IH.
Qed.

Lemma forward_filtered_suppressed g filters ls interface ls' out fl :
  forward_filtered g filters ls interface = Some (ls', out) ->
  emitted_queries (Some fl) (dns_state ls) = [] ->
  (forall s, emitted_rrs (Some fl) (dns_state ls) s = []) ->
  (forall fl', In fl' filters -> addr fl' = addr fl -> fl' = fl) ->
  forall s peer, In s out ->
    nth_error (configured_interface_list g) (to_peer s) = Some peer ->
    filter_ptr_eqb (outbound_filter_list peer) (Some fl) = false.
Proof.
  revert ls ls' out. induction filters as [|fl' filters IH]; intros ls ls' out;
    cbn [forward_filtered].
  - intros [= <- <-] _ _ _ s peer [].
  - destruct (dns_encode_packet (dns_state ls) (recv_packet ls) (send_packet ls) (Some fl'))
      as [[[r sp] st]|] eqn:E; [|discriminate].
    destruct (forward_filtered g filters _ interface) as [[ls2 rest]|] eqn:E2; [|discriminate].
    intros [= <- <-] Hq Hr Hinj s peer Hin Hpeer.
    pose proof (records_dns_encode_packet _ _ _ _ _ _ _ E) as Hrec.
    apply in_app_or in Hin as [Hin|Hin].
    + destruct (r =? 0) eqn:Er; [contradiction|].
      apply in_send_to_peers in Hin as (peer' & Hp' & Hf & _).
      assert (peer' = peer) by congruence. subst peer'.
      destruct (filter_ptr_eqb (outbound_filter_list peer) (Some fl)) eqn:Ef; [|reflexivity].
      exfalso.
      assert (fl' = fl).
      { apply Hinj; [now left|]. apply (filter_ptr_eqb_Some _ _ _ Hf Ef). }
      subst fl'.
      rewrite (dns_encode_packet_all_filtered _ _ _ _ Hq Hr) in E.
      injection E as <- _ _. discriminate.
    + refine (IH _ _ _ E2 _ _ _ s peer Hin Hpeer); cbn [dns_state].
      * now rewrite (records_queries _ _ Hrec).
      * intros s0. now rewrite (records_emitted_rrs _ _ Hrec).
      * intros f0 Hf0. apply Hinj. now right.
Qed.

Lemma forward_nofilter_spec g ls interface ls' out :
  forward_nofilter g ls interface = Some (ls', out) ->
  records (dns_state ls') = records (dns_state ls) /\
  recv_packet ls' = recv_packet ls /\ ip_type ls' = ip_type ls /\
  forall s, In s out ->
    exists peer, nth_error (configured_interface_list g) (to_peer s) = Some peer /\
                 outbound_filter_list peer = None.
Proof.
  unfold forward_nofilter.
  assert (Hnone : forall family packet s,
            In s (send_to_peers g family interface packet None) ->
            exists peer, nth_error (configured_interface_list g) (to_peer s) = Some peer /\
                         outbound_filter_list peer = None).
  { intros family packet s Hin. apply in_send_to_peers in Hin as (peer & Hp & Hf & _).
    exists peer. split; [exact Hp|]. destruct (outbound_filter_list peer); [discriminate|reflexivity]. }
  destruct (negb _).
  - destruct (global_filter_list g), (inbound_filter_list interface);
      try (destruct (dns_encode_packet _ _ _ None) as [[[r sp] st]|] eqn:E; [|discriminate];
           intros [= <- <-]; cbn [dns_state recv_packet ip_type];
           repeat split; [now apply records_dns_encode_packet in E | apply Hnone]).
    intros [= <- <-]. repeat split. apply Hnone.
  - intros [= <- <-]. repeat split. intros s [].
Qed.

(** C7.  When every query and every record of the decoded packet is stopped
    by an outbound filter list of the peers, dns_encode_packet returns 0 for
    that list, and receive sends nothing to any peer that has it as its
    outbound filter list. *)
Theorem empty_result_suppressed (g : globals) (ls : thread_local_storage_t)
    (interface : interface_t) (datagram : list byte) (fl : filter_ref) :
  In fl (peer_filter_list interface) ->
  NoDup (map addr (peer_filter_list interface)) ->
  emitted_queries (Some fl) (decoded_state g ls interface datagram) = [] ->
  (forall s, emitted_rrs (Some fl) (decoded_state g ls interface datagram) s = []) ->
  (forall recv send,
     dns_encode_packet (decoded_state g ls interface datagram) recv send (Some fl)
     = Some (0, send, clist_reset (decoded_state g ls interface datagram))) /\
  (forall ls' out tr,
     receive g ls interface (Some datagram) = Some (ls', out, tr) ->
     forall s peer, In s out ->
       nth_error (configured_interface_list g) (to_peer s) = Some peer ->
       filter_ptr_eqb (outbound_filter_list peer) (Some fl) = false).
Proof.
  intros Hfl Hnd Hq Hr. split.
  - intros recv send. now apply dns_encode_packet_all_filtered.
  - intros ls' out tr. unfold receive. cbn [dns_state recv_packet ip_type send_packet].
    assert (Hst : decoded_state g ls interface datagram =
                  snd (fst (if filtering_enabled g
                            then dns_decode_packet g (dns_state ls)
                                   (recvfrom (recv_packet ls) datagram) interface
                            else (1, dns_state ls, [])))).
    { unfold decoded_state. destruct (filtering_enabled g); reflexivity. }
    destruct (if filtering_enabled g then _ else _) as [[r st] tr0].
    cbn [snd fst] in Hst. subst st.
    destruct (r =? 0); [intros [= _ <- _] s peer []|].
    destruct (forward_nofilter g _ interface) as [[ls1 out1]|] eqn:E1; [|discriminate].
    destruct (forward_filtered g _ ls1 interface) as [[ls2 out2]|] eqn:E2; [|discriminate].
    intros [= _ <- _] s peer Hin Hpeer.
    apply forward_nofilter_spec in E1 as (Hrec & _ & _ & Hout1).
    cbn [dns_state] in Hrec.
    apply in_app_or in Hin as [Hin|Hin].
    + destruct (Hout1 s Hin) as (peer' & Hp' & Hnone).
      assert (peer' = peer) by congruence. subst peer'. now rewrite Hnone.
    + refine (forward_filtered_suppressed _ _ _ _ _ _ fl E2 _ _ _ s peer Hin Hpeer).
      * now rewrite (records_queries _ _ Hrec).
      * intros s0. now rewrite (records_emitted_rrs _ _ Hrec).
      * intros fl' Hin' Haddr.
        apply (NoDup_map_addr_inj (peer_filter_list interface)); auto.
Qed.

(** ** Peers without outbound filter *)



Lemma send_to_peers_nofilter g family interface packet s :
  In s (send_to_peers g family interface packet None) -> to_nofilter_peer g s = true.
Proof.
  intros H. apply in_send_to_peers in H as (peer & Hp & Hf & _).
  unfold to_nofilter_peer. rewrite Hp.
  destruct (outbound_filter_list peer); [discriminate|reflexivity].
Qed.


Lemma slice_all (l : list byte) : slice l 0 (Z.of_nat (length l)) = l.
Proof.
  apply (nth_ext _ _ x00 x00).
  - rewrite slice_length. lia.
  - intros k Hk. rewrite slice_length in Hk. rewrite slice_nth by exact Hk.
    unfold rd. f_equal. lia.
Qed.

Lemma slice_app_l (l r : list byte) len :
  len <= Z.of_nat (length l) -> slice (l ++ r) 0 len = slice l 0 len.
Proof.
  intros H. apply slice_ext. intros k Hk. unfold rd. apply app_nth1. lia.
Qed.



(** ** The theorems at sample inputs *)

Lemma dns_encode_name_root_witness :
  exists send_packet',
    dns_encode_name (dns_state_create true) small_packet 12 root_name
    = Some (13, send_packet', dns_state_create true).
Proof.
  destruct (dns_encode_name_root (dns_state_create true) small_packet 12 root_name)
    as (sp & _ & H & _).
  - simpl. lia.
  - simpl. lia.
  - exists sp. exact H.
Defined.


Lemma empty_result_suppressed_witness :
  dns_encode_packet
    (decoded_state outbound_deny_ssh fresh_storage interface_in (datagram txt_ssh))
    (received txt_ssh) small_packet (Some deny_ssh)
  = Some (0, small_packet,
          clist_reset
            (decoded_state outbound_deny_ssh fresh_storage interface_in (datagram txt_ssh))).
Proof.
  refine (proj1 (empty_result_suppressed outbound_deny_ssh fresh_storage interface_in
                   (datagram txt_ssh) deny_ssh _ _ _ _) (received txt_ssh) small_packet).
  - left. reflexivity.
  - simpl. constructor; [intros [] | constructor].
  - vm_compute. reflexivity.
  - intros []; vm_compute; reflexivity.
Defined.


(** ** What dns_decode_name produces *)

Lemma label_offsets_app start ls1 ls2 :
  label_offsets start (ls1 ++ ls2)
  = label_offsets start ls1
    ++ label_offsets (start + Z.of_nat (length (concat ls1))) ls2.
Proof.
  revert start. induction ls1 as [|l ls1 IH]; intros start; simpl.
  - now rewrite Z.add_0_r.
  - rewrite IH. do 3 f_equal. rewrite length_app. lia.
Qed.

Lemma slice_cons buf off len :
  0 <= len -> slice buf off (len + 1) = rd buf off :: slice buf (off + 1) len.
Proof.
  intros H. unfold slice.
  replace (Z.to_nat (len + 1)) with (S (Z.to_nat len)) by lia.
  rewrite <- cons_seq. cbn [map]. f_equal.
  - f_equal. lia.
  - rewrite <- seq_shift, map_map. apply map_ext. intros k. f_equal. lia.
Qed.

Lemma wf_label_slice buf off :
  u8 (rd buf off) <> 0 -> IS_LABEL_POINTER (u8 (rd buf off)) = false ->
  wf_label (slice buf off (u8 (rd buf off) + 1)).
Proof.
  intros Hnz Hnp. pose proof (u8_range (rd buf off)) as Hr.
  exists (rd buf off), (slice buf (off + 1) (u8 (rd buf off))).
  rewrite slice_cons by lia. rewrite slice_length. repeat split; auto. lia.
Qed.

(** A run of the loop that ends with a nonzero offset leaves the name of the
    labels it copied. *)
Lemma dns_decode_name_loop_sound fuel packet name :
  forall packet_offset label_offset compressed name_offset label_count offs labs tr
         r name' tr' ls,
    dns_decode_name_loop fuel packet name packet_offset label_offset compressed
      name_offset label_count offs labs tr = Some (r, name', tr') ->
    r <> 0 ->
    Forall wf_label ls -> offs = label_offsets 0 ls -> labs = concat ls ->
    name_offset = Z.of_nat (length labs) -> label_count = Z.of_nat (length ls) ->
    name_offset <= 255 ->
    decoded_name name'.
Proof.
  induction fuel as [|fuel IH]; intros po lo c no lc offs labs tr r name' tr' ls;
    cbn [dns_decode_name_loop]; [discriminate|].
  intros Hrun Hr Hwf Hoffs Hlabs Hno Hlc Hle.
  destruct (IS_LABEL_POINTER (u8 (rd (buffer packet) lo))) eqn:Eptr.
  - destruct (_ || _); [injection Hrun as <- _ _; contradiction|].
    eapply IH; eauto.
  - destruct (Z.gtb_spec (lc + 1) MAX_NUM_LABELS) as [|Hcount];
      [injection Hrun as <- _ _; contradiction|].
    destruct (Z.eqb_spec (u8 (rd (buffer packet) lo)) 0) as [Hz|Hnz].
    + injection Hrun as _ <- _. exists ls. unfold name_of_labels.
      unfold MAX_NUM_LABELS, DNS_MAX_NAME_LEN in *. cbn [nm_length nm_count].
      subst. rewrite !Z.mod_small by lia. repeat split; auto; try lia.
    + destruct (_ || _) eqn:Ebound; [injection Hrun as <- _ _; contradiction|].
      apply orb_false_iff in Ebound as [_ Ebound].
      unfold DNS_MAX_NAME_LEN in Ebound.
      destruct (Z.gtb_spec (no + (u8 (rd (buffer packet) lo) + 1) + 1) 256);
        [discriminate|].
      pose proof (u8_range (rd (buffer packet) lo)) as Hrange.
      eapply (IH _ _ _ _ _ _ _ _ _ _ _
                (ls ++ [slice (buffer packet) lo (u8 (rd (buffer packet) lo) + 1)]) Hrun Hr).
      * apply Forall_app. split; [exact Hwf|]. constructor; [|constructor].
        now apply wf_label_slice.
      * rewrite label_offsets_app. cbn [label_offsets]. subst.
        rewrite Z.mod_small by lia. now rewrite Z.add_0_l.
      * rewrite concat_app. cbn [concat]. rewrite app_nil_r. now subst.
      * rewrite length_app, slice_length. lia.
      * rewrite length_app. cbn [length]. lia.
      * lia.
Qed.

Lemma dns_decode_name_sound packet packet_offset name r name' tr :
  dns_decode_name packet packet_offset name = (r, name', tr) -> r <> 0 ->
  decoded_name name'.
Proof.
  unfold dns_decode_name.
  destruct (dns_decode_name_loop _ _ _ _ _ _ _ _ _ _ _) as [[[r1 n1] t1]|] eqn:E.
  - intros [= <- <- <-] Hr.
    now apply (dns_decode_name_loop_sound _ _ _ _ _ _ _ _ _ _ _ _ _ _ [] E Hr).
  - intros [= <- _ _] Hr. contradiction.
Qed.

(** ** Decoding a name that is written out in full *)





(** ** Cells of the compression list *)

Lemma length_list_set {A} (l : list A) i v : length (list_set l i v) = length l.
Proof.
  revert i. induction l as [|x l IH]; intros [|i]; simpl; auto.
Qed.

Lemma nth_list_set {A} (l : list A) i v j d :
  nth j (list_set l i v) d
  = if ((j =? i) && (i <? length l))%nat then v else nth j l d.
Proof.
  revert i j. induction l as [|x l IH]; intros i j.
  - destruct i, j; simpl; rewrite ?andb_false_r; reflexivity.
  - destruct i as [|i], j as [|j]; simpl; try reflexivity.
    rewrite IH. reflexivity.
Qed.



Lemma nth_cells {A} (d : A) l off len k :
  (k < Z.to_nat len)%nat -> nth k (cells d l off len) d = nth (Z.to_nat off + k) l d.
Proof.
  intros Hk. unfold cells.
  set (f := fun k : nat => nth (Z.to_nat off + k) l d).
  rewrite (nth_indep _ d (f 0%nat)) by (rewrite length_map, length_seq; lia).
  rewrite map_nth, seq_nth by lia. reflexivity.
Qed.


Lemma used_set_entry st i e : used_clist_count (set_entry st i e) = used_clist_count st.
Proof. reflexivity. Qed.






(** ** The compression list while one name is encoded *)























(** ** Encoding a decoded name into a packet that holds no name yet *)

Lemma length_label_offsets start ls : length (label_offsets start ls) = length ls.
Proof. revert start. induction ls; intros start; simpl; auto. Qed.





(** ** The round trip of a name *)



(** ** The loop of dns_decode_name ends, and it rejects bad pointers *)

Lemma dns_decode_name_loop_total packet name :
  forall fuel packet_offset label_offset compressed name_offset label_count offs labs tr,
    0 <= label_offset ->
    Z.max 0 (127 - label_count) * (Z.max 0 (bytes packet) + 1) + label_offset + 1
      <= Z.of_nat fuel ->
    dns_decode_name_loop fuel packet name packet_offset label_offset compressed
      name_offset label_count offs labs tr <> None.
Proof.
  induction fuel as [|fuel IH]; intros po lo c no lc offs labs tr Hlo Hfuel.
  - exfalso. nia.
  - cbn [dns_decode_name_loop].
    pose proof (u8_range (rd (buffer packet) lo)) as Hlen.
    destruct (IS_LABEL_POINTER _).
    + destruct (Z.ltb_spec (POINTER_OFFSET (u8 (rd (buffer packet) lo))
                              (u8 (rd (buffer packet) (lo + 1)))) sizeof_dns_header_t);
        [discriminate|].
      destruct (Z.geb_spec (POINTER_OFFSET (u8 (rd (buffer packet) lo))
                              (u8 (rd (buffer packet) (lo + 1)))) lo);
        [discriminate|].
      cbn [orb]. unfold sizeof_dns_header_t in *. apply IH; lia.
    + destruct (Z.gtb_spec (lc + 1) MAX_NUM_LABELS); [discriminate|].
      destruct (_ =? 0); [discriminate|].
      destruct (Z.gtb_spec (lo + (u8 (rd (buffer packet) lo) + 1) + 1) (bytes packet));
        [discriminate|].
      destruct (_ >? DNS_MAX_NAME_LEN); [discriminate|]. cbn [orb].
      unfold MAX_NUM_LABELS in *. apply IH; [lia|]. nia.
Qed.

Lemma dns_decode_name_total packet packet_offset name :
  0 <= packet_offset ->
  dns_decode_name_loop (dns_decode_name_fuel packet packet_offset) packet name
    packet_offset packet_offset false 0 0 [] [] [] <> None.
Proof.
  intros H. apply dns_decode_name_loop_total; [exact H|].
  unfold dns_decode_name_fuel. lia.
Qed.



(** ** The decoder leaves counters that fit the header fields *)

Lemma get16_range buf off : 0 <= get16 buf off <= 65535.
Proof.
  unfold get16. pose proof (u8_range (rd buf off)). pose proof (u8_range (rd buf (off + 1))).
  lia.
Qed.

Ltac break_run H :=
  repeat match type of H with
         | context [match ?x with _ => _ end] => destruct x eqn:?
         end.

Lemma dns_decode_queries_counts g count :
  forall state interface packet packet_offset tr r state' tr',
    dns_decode_queries g count state interface packet packet_offset tr = (r, state', tr') ->
    query_count state <= query_count state' <= query_count state + Z.of_nat count /\
    rr_count state' = rr_count state /\
    total_rr_count state' = total_rr_count state /\
    recv_rr_count state' = recv_rr_count state.
Proof.
  induction count as [|count IH]; intros st ifc pkt off tr r st' tr' H.
  - injection H as _ <- _. cbn [Z.of_nat]. repeat split; lia.
  - cbn [dns_decode_queries] in H. break_run H;
      try (injection H as _ <- _; cbn; repeat split; lia);
      apply IH in H; cbn in H; repeat split; try lia; try tauto.
Qed.

Lemma dns_decode_rrs_loop_counts g count section_type :
  forall state interface packet packet_offset tr r state' tr',
    dns_decode_rrs_loop g count state section_type interface packet packet_offset tr
      = (r, state', tr') ->
    sec_get (rr_count state) section_type
      <= sec_get (rr_count state') section_type
      <= sec_get (rr_count state) section_type + Z.of_nat count /\
    (forall s, s <> section_type ->
       sec_get (rr_count state') s = sec_get (rr_count state) s) /\
    query_count state' = query_count state /\
    recv_rr_count state' = recv_rr_count state.
Proof.
  induction count as [|count IH]; intros st ifc pkt off tr r st' tr' H.
  - injection H as _ <- _. cbn [Z.of_nat]. repeat split; lia.
  - cbn [dns_decode_rrs_loop] in H. break_run H;
      try (injection H as _ <- _; cbn; repeat split; lia);
      apply IH in H; cbn in H; destruct H as (H1 & H2 & H3 & H4).
    all: repeat split; try assumption; try (intros s Hs; rewrite (H2 s Hs)).
    all: destruct section_type; try destruct s; cbn in *; try lia; congruence.
Qed.

Lemma dns_decode_header_counts state packet r state' tr :
  dns_decode_header state packet = (r, state', tr) ->
  query_count state' = query_count state /\
  rr_count state' = rr_count state /\
  (r <> 0 ->
   0 <= recv_query_count state' <= 65535 /\
   forall s, 0 <= sec_get (recv_rr_count state') s <= 65535).
Proof.
  unfold dns_decode_header. intros H.
  pose proof (get16_range (buffer packet) 4). pose proof (get16_range (buffer packet) 6).
  pose proof (get16_range (buffer packet) 8). pose proof (get16_range (buffer packet) 10).
  break_run H; injection H as <- <- _; cbn; repeat split; try contradiction; try lia.
  all: destruct s; cbn; lia.
Qed.

Lemma dns_decode_rrs_counts g state section_type count interface packet packet_offset tr
    r state' tr' :
  dns_decode_rrs g state section_type count interface packet packet_offset tr
    = (r, state', tr') ->
  0 <= count ->
  sec_get (rr_count state) section_type
    <= sec_get (rr_count state') section_type
    <= sec_get (rr_count state) section_type + count /\
  (forall s, s <> section_type ->
     sec_get (rr_count state') s = sec_get (rr_count state) s) /\
  query_count state' = query_count state /\
  recv_rr_count state' = recv_rr_count state.
Proof.
  unfold dns_decode_rrs. intros H Hc. apply dns_decode_rrs_loop_counts in H.
  cbn in H. rewrite Z2Nat.id in H by exact Hc. exact H.
Qed.

(** The counters that dns_decode_packet leaves fit the 16-bit count fields
    of the header. *)
Lemma dns_decode_packet_counts g state packet interface :
  let state' := snd (fst (dns_decode_packet g state packet interface)) in
  0 <= query_count state' <= 65535 /\
  forall s, 0 <= sec_get (rr_count state') s <= 65535.
Proof.
  unfold dns_decode_packet.
  destruct (dns_decode_header _ packet) as [[r0 st0] tr0] eqn:E0.
  apply dns_decode_header_counts in E0 as (Q0 & R0 & B0). cbn in Q0, R0.
  set (queries := if negb (r0 =? 0) && negb (recv_query_count st0 =? 0) then _ else _).
  assert (Hq : exists r1 st1 tr1, queries = (r1, st1, tr1) /\
            0 <= query_count st1 <= 65535 /\ rr_count st1 = mk_per_section 0 0 0 /\
            (r1 <> 0 -> forall s, 0 <= sec_get (recv_rr_count st1) s <= 65535)).
  { subst queries. destruct (Z.eqb_spec r0 0) as [->|Hr0]; cbn [negb andb].
    - exists 0, st0, tr0. split; [reflexivity|]. split; [lia|]. split; [assumption|].
      intros []. reflexivity.
    - destruct (B0 Hr0) as [Bq Br].
      destruct (negb _).
      + destruct (dns_decode_queries _ _ _ _ _ _ _) as [[r1 st1] tr1] eqn:E1.
        apply dns_decode_queries_counts in E1 as (Q1 & R1 & _ & V1).
        exists r1, st1, tr1. rewrite Z2Nat.id in Q1 by lia.
        split; [reflexivity|]. split; [lia|]. split; [congruence|].
        intros _. rewrite V1. exact Br.
      + exists r0, st0, tr0. split; [reflexivity|]. split; [lia|]. split; [assumption|].
        intros _. exact Br. }
  destruct Hq as (r1 & st1 & tr1 & -> & Q1 & R1 & B1).
  cbn [fold_left].
  set (answers := if negb (r1 =? 0) && _ then _ else _).
  assert (Ha : exists r2 st2 tr2, answers = (r2, st2, tr2) /\
            0 <= query_count st2 <= 65535 /\
            0 <= sec_get (rr_count st2) RR_ANSWER <= 65535 /\
            sec_get (rr_count st2) RR_AUTHORITY = 0 /\
            sec_get (rr_count st2) RR_ADDITIONAL = 0 /\
            (r2 <> 0 -> forall s, 0 <= sec_get (recv_rr_count st2) s <= 65535)).
  { subst answers. destruct (Z.eqb_spec r1 0) as [->|Hr1]; cbn [negb andb].
    - exists 0, st1, tr1. rewrite R1. cbn.
      split; [reflexivity|]. split; [lia|]. split; [lia|]. split; [reflexivity|].
      split; [reflexivity|]. intros []. reflexivity.
    - specialize (B1 Hr1). destruct (negb _).
      + destruct (dns_decode_rrs _ _ _ _ _ _ _ _) as [[r2 st2] tr2] eqn:E2.
        apply dns_decode_rrs_counts in E2 as (C2 & O2 & Q2 & V2); [|apply B1].
        exists r2, st2, tr2. rewrite R1 in C2.
        pose proof (B1 RR_ANSWER) as Bc. cbn in C2, Bc.
        rewrite (O2 RR_AUTHORITY), (O2 RR_ADDITIONAL), R1 by discriminate. cbn.
        split; [reflexivity|]. split; [lia|]. split; [lia|]. split; [reflexivity|].
        split; [reflexivity|]. intros _. rewrite V2. exact B1.
      + exists r1, st1, tr1. rewrite R1. cbn.
        split; [reflexivity|]. split; [lia|]. split; [lia|]. split; [reflexivity|].
        split; [reflexivity|]. intros _. exact B1. }
  destruct Ha as (r2 & st2 & tr2 & -> & Q2 & A2 & U2 & D2 & B2).
  set (authorities := if negb (r2 =? 0) && _ then _ else _).
  assert (Hb : exists r3 st3 tr3, authorities = (r3, st3, tr3) /\
            0 <= query_count st3 <= 65535 /\
            0 <= sec_get (rr_count st3) RR_ANSWER <= 65535 /\
            0 <= sec_get (rr_count st3) RR_AUTHORITY <= 65535 /\
            sec_get (rr_count st3) RR_ADDITIONAL = 0 /\
            (r3 <> 0 -> forall s, 0 <= sec_get (recv_rr_count st3) s <= 65535)).
  { subst authorities. destruct (Z.eqb_spec r2 0) as [->|Hr2]; cbn [negb andb].
    - exists 0, st2, tr2.
      split; [reflexivity|]. split; [lia|]. split; [lia|]. split; [lia|].
      split; [assumption|]. intros []. reflexivity.
    - specialize (B2 Hr2). destruct (negb _).
      + destruct (dns_decode_rrs _ _ _ _ _ _ _ _) as [[r3 st3] tr3] eqn:E3.
        apply dns_decode_rrs_counts in E3 as (C3 & O3 & Q3 & V3); [|apply B2].
        exists r3, st3, tr3. pose proof (B2 RR_AUTHORITY) as Bc.
        rewrite (O3 RR_ANSWER), (O3 RR_ADDITIONAL) by discriminate.
        split; [reflexivity|]. split; [lia|]. split; [lia|]. split; [lia|].
        split; [assumption|]. intros _. rewrite V3. exact B2.
      + exists r2, st2, tr2.
        split; [reflexivity|]. split; [lia|]. split; [lia|]. split; [lia|].
        split; [assumption|]. intros _. exact B2. }
  destruct Hb as (r3 & st3 & tr3 & -> & Q3 & A3 & U3 & D3 & B3).
  set (additionals := if negb (r3 =? 0) && _ then _ else _).
  assert (Hc : exists r4 st4 tr4, additionals = (r4, st4, tr4) /\
            0 <= query_count st4 <= 65535 /\
            forall s, 0 <= sec_get (rr_count st4) s <= 65535).
  { subst additionals. destruct (Z.eqb_spec r3 0) as [->|Hr3]; cbn [negb andb].
    - exists 0, st3, tr3. split; [reflexivity|]. split; [lia|]. intros []; lia.
    - specialize (B3 Hr3). destruct (negb _).
      + destruct (dns_decode_rrs _ _ _ _ _ _ _ _) as [[r4 st4] tr4] eqn:E4.
        apply dns_decode_rrs_counts in E4 as (C4 & O4 & Q4 & V4); [|apply B3].
        exists r4, st4, tr4. pose proof (B3 RR_ADDITIONAL) as Bc.
        assert (sec_get (rr_count st4) RR_ANSWER = sec_get (rr_count st3) RR_ANSWER)
          by (apply O4; discriminate).
        assert (sec_get (rr_count st4) RR_AUTHORITY = sec_get (rr_count st3) RR_AUTHORITY)
          by (apply O4; discriminate).
        split; [reflexivity|]. split; [lia|]. intros []; lia.
      + exists r3, st3, tr3. split; [reflexivity|]. split; [lia|]. intros []; lia. }
  destruct Hc as (r4 & st4 & tr4 & -> & Q4 & A4).
  destruct (negb _); [|destruct (_ && _)]; cbn [fst snd]; split; assumption.
Qed.

(** ** The warn flag *)

(** Case analysis on a scrutinee of the goal that has no match inside. *)
Ltac break_innermost :=
  match goal with
  | |- context [match ?x with _ => _ end] =>
      lazymatch x with
      | context [match _ with _ => _ end] => fail
      | _ => destruct x eqn:?
      end
  end.

Section FlagWarn.
Variables g1 g2 : globals.
Hypothesis same_filter_list : global_filter_list g1 = global_filter_list g2.

Lemma allowed_inbound_flag_warn interface name :
  allowed_inbound g1 interface name = allowed_inbound g2 interface name.
Proof. unfold allowed_inbound. now rewrite same_filter_list. Qed.

Lemma dns_decode_queries_flag_warn count :
  forall state interface packet packet_offset tr,
    dns_decode_queries g1 count state interface packet packet_offset tr
    = dns_decode_queries g2 count state interface packet packet_offset tr.
Proof.
  induction count as [|count IH]; intros; cbn [dns_decode_queries]; [reflexivity|].
  repeat (rewrite ?allowed_inbound_flag_warn; break_innermost);
    try reflexivity; apply IH.
Qed.

Lemma dns_decode_rrs_loop_flag_warn count :
  forall state section_type interface packet packet_offset tr,
    dns_decode_rrs_loop g1 count state section_type interface packet packet_offset tr
    = dns_decode_rrs_loop g2 count state section_type interface packet packet_offset tr.
Proof.
  induction count as [|count IH]; intros; cbn [dns_decode_rrs_loop]; [reflexivity|].
  repeat (rewrite ?allowed_inbound_flag_warn; break_innermost);
    try reflexivity; apply IH.
Qed.

(** dns_decode_packet does the same whatever the warn flag holds. *)
Lemma dns_decode_packet_flag_warn state packet interface :
  dns_decode_packet g1 state packet interface = dns_decode_packet g2 state packet interface.
Proof.
  unfold dns_decode_packet, dns_decode_rrs. cbn [fold_left].
  destruct (dns_decode_header _ _) as [[r0 st0] tr0].
  rewrite dns_decode_queries_flag_warn.
  destruct (if negb (r0 =? 0) && _ then _ else _) as [[r1 st1] tr1].
  rewrite dns_decode_rrs_loop_flag_warn.
  destruct (if negb (r1 =? 0) && _ then _ else _) as [[r2 st2] tr2].
  rewrite dns_decode_rrs_loop_flag_warn.
  destruct (if negb (r2 =? 0) && _ then _ else _) as [[r3 st3] tr3].
  rewrite dns_decode_rrs_loop_flag_warn.
  reflexivity.
Qed.

End FlagWarn.

(** C9.  dns_decode_packet does not depend on the warn flag.  With the flag
    clear and a global filter list configured, the MX record is dropped from
    the forwarded datagram and the A record survives, and the two log lines
    about the unsupported type are written all the same. *)
Theorem unsupported_type_logged_without_warn :
  (forall w1 w2 enabled filter_list interfaces state packet interface,
     dns_decode_packet (mk_globals w1 enabled filter_list interfaces) state packet interface
     = dns_decode_packet (mk_globals w2 enabled filter_list interfaces) state packet
         interface) /\
  flag_warn global_deny_ssh = false /\
  match receive global_deny_ssh fresh_storage interface_a (Some (datagram a_and_mx)) with
  | Some (_, out, tr) =>
      out = [mk_sent 1 None (datagram a_only)] /\
      filter is_log tr =
        [ev_packet_error (err_unsupported_type 15 RR_ANSWER);
         ev_logger_name (datagram [1;104;0])]
  | None => False
  end.
Proof.
  split; [|split; [reflexivity|]].
  - intros. now apply dns_decode_packet_flag_warn.
  - vm_compute. split; reflexivity.
Qed.

(** Where neither a global nor an inbound filter list is configured, the
    peer without outbound filter is sent the received bytes, the MX record
    among them, after the decoder logged that it dropped the record. *)
Lemma unsupported_type_forwarded_verbatim :
  match receive unfiltered fresh_storage interface_a (Some (datagram a_and_mx)) with
  | Some (_, out, tr) =>
      out = [mk_sent 1 None (datagram a_and_mx)] /\
      filter is_log tr =
        [ev_packet_error (err_unsupported_type 15 RR_ANSWER);
         ev_logger_name (datagram [1;104;0])]
  | None => False
  end.
Proof. vm_compute. split; reflexivity. Qed.

(** ** Compression pointers as written and as read *)

Lemma land_small_high a b k :
  0 <= k -> 0 <= a < 2 ^ k -> Z.land a (b * 2 ^ k) = 0.
Proof.
  intros Hk Ha. apply Z.bits_inj'. intros n Hn.
  rewrite Z.land_spec, Z.bits_0.
  destruct (Z.lt_ge_cases n k) as [Hlt|Hge].
  - rewrite Z.mul_pow2_bits_low by lia. apply andb_false_r.
  - destruct (Z.eq_dec a 0) as [->|Hne]; [now rewrite Z.bits_0|].
    rewrite (Z.bits_above_log2 a n); [reflexivity|lia|].
    apply Z.lt_le_trans with k; [|exact Hge].
    apply Z.log2_lt_pow2; lia.
Qed.

Lemma lor_small_high a b k :
  0 <= k -> 0 <= a < 2 ^ k -> Z.lor a (b * 2 ^ k) = a + b * 2 ^ k.
Proof.
  intros Hk Ha. pose proof (land_small_high a b k Hk Ha) as H.
  rewrite <- (Z.lxor_lor _ _ H). symmetry. now apply Z.add_nocarry_lxor.
Qed.

Lemma high_byte_of_pointer h :
  192 <= h < 256 -> Z.land h 192 = 192 /\ Z.land h 63 = h - 192.
Proof.
  intros Hh. replace h with (192 + Z.of_nat (Z.to_nat (h - 192))) by lia.
  assert (Hn : (Z.to_nat (h - 192) < 64)%nat) by lia.
  revert Hn. generalize (Z.to_nat (h - 192)). intros n Hn.
  do 64 (destruct n as [|n]; [split; reflexivity|]). lia.
Qed.

(** X4.  The two bytes that the encoder writes for the pointer to offset [off]
    are read by the decoder as a pointer, and as a pointer to [off] when
    [off] fits in 14 bits. *)
Theorem pointer_written_is_pointer_read (off : Z) :
  0 <= off ->
  let written := put16 (OFFSET_TO_POINTER off) in
  IS_LABEL_POINTER (u8 (rd written 0)) = true /\
  POINTER_OFFSET (u8 (rd written 0)) (u8 (rd written 1)) = off mod 16384.
Proof.
  intros Hoff written. subst written. unfold OFFSET_TO_POINTER.
  change 16383 with (Z.ones 14). rewrite Z.land_ones by lia.
  change (2 ^ 14) with 16384.
  pose proof (Z.mod_pos_bound off 16384 ltac:(lia)) as Hm.
  set (m := off mod 16384) in *.
  change 49152 with (3 * 2 ^ 14). rewrite lor_small_high by (cbn; lia).
  change (3 * 2 ^ 14) with 49152.
  unfold put16, rd. change (Z.to_nat 0) with 0%nat. change (Z.to_nat 1) with 1%nat.
  cbn [nth].
  rewrite !u8_byte_of_Z.
  rewrite (Z.mod_small (m + 49152) 65536) by lia.
  assert (Hhi : (m + 49152) / 256 = 192 + m / 256).
  { replace (m + 49152) with (m + 192 * 256) by lia. rewrite Z.div_add by lia. lia. }
  assert (Hlo : (m + 49152) mod 256 = m mod 256).
  { replace (m + 49152) with (m + 192 * 256) by lia. now rewrite Z.mod_add by lia. }
  rewrite Hhi, Hlo.
  assert (Hq : 0 <= m / 256 < 64).
  { split; [apply Z.div_pos; lia | apply Z.div_lt_upper_bound; lia]. }
  rewrite (Z.mod_small (192 + m / 256) 256) by lia.
  destruct (high_byte_of_pointer (192 + m / 256) ltac:(lia)) as [H1 H2].
  unfold IS_LABEL_POINTER, POINTER_OFFSET. rewrite H1, H2. split; [reflexivity|].
  pose proof (Z.mod_pos_bound m 256 ltac:(lia)) as Hr.
  rewrite Z.shiftl_mul_pow2 by lia. rewrite Z.lor_comm.
  rewrite lor_small_high by (cbn; lia). change (2 ^ 8) with 256.
  pose proof (Z.div_mod m 256 ltac:(lia)). lia.
Qed.

Lemma pointer_written_is_pointer_read_witness :
  IS_LABEL_POINTER (u8 (rd (put16 (OFFSET_TO_POINTER 12)) 0)) = true /\
  POINTER_OFFSET (u8 (rd (put16 (OFFSET_TO_POINTER 12)) 0))
    (u8 (rd (put16 (OFFSET_TO_POINTER 12)) 1)) = 12 mod 16384.
Proof. apply (pointer_written_is_pointer_read 12). lia. Defined.

(** ** Match names and printable names *)

Lemma slice_skipn (buf : list byte) off len :
  0 <= off -> 0 <= len -> off + len <= Z.of_nat (length buf) ->
  slice buf off len = firstn (Z.to_nat len) (skipn (Z.to_nat off) buf).
Proof.
  intros Hoff Hlen Hfit. apply (nth_ext _ _ x00 x00).
  - rewrite slice_length, length_firstn, length_skipn. lia.
  - intros k Hk. rewrite slice_length in Hk. rewrite slice_nth by exact Hk.
    rewrite nth_firstn. destruct (Nat.ltb_spec k (Z.to_nat len)); [|lia].
    rewrite nth_skipn. unfold rd. f_equal. lia.
Qed.

Lemma slice_mid (pre l post : list byte) :
  slice (pre ++ l ++ post) (Z.of_nat (length pre)) (Z.of_nat (length l)) = l.
Proof.
  apply (nth_ext _ _ x00 x00); [rewrite slice_length; lia|].
  intros k Hk. rewrite slice_length in Hk. rewrite slice_nth by exact Hk.
  unfold rd. rewrite app_nth2 by lia.
  replace (Z.to_nat (Z.of_nat (length pre) + Z.of_nat k) - length pre)%nat with k by lia.
  apply app_nth1. lia.
Qed.

Lemma rd_app_r (pre post : list byte) k :
  0 <= k -> rd (pre ++ post) (Z.of_nat (length pre) + k) = rd post k.
Proof.
  intros Hk. unfold rd. rewrite app_nth2 by lia. f_equal. lia.
Qed.

Lemma strcspn_dot_range s : 0 <= strcspn_dot s <= Z.of_nat (length s).
Proof.
  induction s as [|c s IH]; cbn [strcspn_dot length]; [lia|].
  destruct (Byte.eqb c dot); lia.
Qed.

Lemma strcspn_dot_split s :
  ~ In dot (firstn (Z.to_nat (strcspn_dot s)) s) /\
  (skipn (Z.to_nat (strcspn_dot s)) s = [] \/
   exists rest, skipn (Z.to_nat (strcspn_dot s)) s = dot :: rest).
Proof.
  induction s as [|c s IH]; cbn [strcspn_dot].
  - split; [intros []|now left].
  - pose proof (strcspn_dot_range s) as Hr.
    destruct (Byte.eqb c dot) eqn:E.
    + apply Byte.byte_dec_bl in E. subst c. cbn. split; [tauto|]. right. now exists s.
    + replace (Z.to_nat (1 + strcspn_dot s)) with (S (Z.to_nat (strcspn_dot s))) by lia.
      cbn [firstn skipn]. destruct IH as [IH1 IH2]. split; [|exact IH2].
      intros [->|Hin]; [|tauto].
      rewrite (Byte.byte_dec_lb eq_refl) in E. discriminate.
Qed.

Lemma strcspn_dot_app l rest :
  ~ In dot l -> (rest = [] \/ exists r, rest = dot :: r) ->
  strcspn_dot (l ++ rest) = Z.of_nat (length l).
Proof.
  intros Hl Hrest. induction l as [|c l IH]; cbn [app strcspn_dot length].
  - destruct Hrest as [->|[r ->]]; [reflexivity|]. cbn [strcspn_dot].
    now rewrite (Byte.byte_dec_lb eq_refl).
  - destruct (Byte.eqb c dot) eqn:E.
    + apply Byte.byte_dec_bl in E. subst c. exfalso. apply Hl. now left.
    + rewrite IH by (intros H; apply Hl; now right). lia.
Qed.

Lemma join_dots_cons l l' ls :
  join_dots (l :: l' :: ls) = l ++ dot :: join_dots (l' :: ls).
Proof. reflexivity. Qed.

Lemma join_dots_nil ls :
  Forall string_label ls -> join_dots ls = [] -> ls = [].
Proof.
  intros Hwf H. destruct ls as [|l ls]; [reflexivity|]. exfalso.
  apply Forall_inv in Hwf. destruct Hwf as [Hne _].
  destruct ls; cbn [join_dots] in H; [contradiction|].
  destruct l; [contradiction|discriminate].
Qed.

Lemma length_prefixed l : length (prefixed l) = S (length l).
Proof. reflexivity. Qed.

Lemma length_prefixed_labels ls :
  ls <> [] ->
  Z.of_nat (length (concat (map prefixed ls))) = Z.of_nat (length (join_dots ls)) + 1.
Proof.
  induction ls as [|l ls IH]; [contradiction|]. intros _.
  destruct ls as [|l' ls].
  - cbn [map concat join_dots]. rewrite app_nil_r, length_prefixed. lia.
  - rewrite join_dots_cons. specialize (IH ltac:(discriminate)).
    change (concat (map prefixed (l :: l' :: ls)))
      with (prefixed l ++ concat (map prefixed (l' :: ls))).
    rewrite !length_app, length_prefixed. cbn [length]. lia.
Qed.

(** What a run of the loop of dns_save_match_name that returns has read and
    stored. *)
Lemma dns_save_match_name_loop_returns fuel string :
  forall string_offset label_count labels stored,
    0 <= string_offset ->
    dns_save_match_name_loop fuel string string_offset label_count labels
      = returns stored ->
    exists ls,
      stored = labels ++ concat (map prefixed ls) /\
      Forall string_label ls /\
      label_count + Z.of_nat (length ls) <= MAX_NUM_LABELS + Z.max 0 (label_count - MAX_NUM_LABELS) /\
      (skipn (Z.to_nat string_offset) string = join_dots ls \/
       (ls <> [] /\ skipn (Z.to_nat string_offset) string = join_dots ls ++ [dot])).
Proof.
  induction fuel as [|fuel IH]; intros off count labels stored Hoff;
    cbn [dns_save_match_name_loop]; [discriminate|].
  destruct (Z.ltb_spec off (Z.of_nat (length string))) as [Hlt|Hge].
  - set (rest := skipn (Z.to_nat off) string).
    pose proof (strcspn_dot_range rest) as Hrange.
    destruct (strcspn_dot_split rest) as [Hnodot Htail].
    set (n := strcspn_dot rest) in *.
    destruct (Z.eqb_spec n 0) as [|Hn0]; [discriminate|].
    destruct (Z.gtb_spec n DNS_MAX_LABEL_LEN) as [|Hn64]; [discriminate|].
    destruct (Z.gtb_spec (count + 1) MAX_NUM_LABELS) as [|Hcount]; [discriminate|].
    cbn [orb]. intros Hrun.
    apply IH in Hrun as (ls & -> & Hwf & Hc & Hrest); [|lia].
    assert (Hlenrest : length rest = (length string - Z.to_nat off)%nat)
      by (subst rest; apply length_skipn).
    assert (Hslice : slice string off n = firstn (Z.to_nat n) rest).
    { subst rest. apply slice_skipn; lia. }
    set (l := firstn (Z.to_nat n) rest) in *.
    assert (Hl : Z.of_nat (length l) = n).
    { subst l. rewrite length_firstn. lia. }
    assert (Hnext : skipn (Z.to_nat (off + n + 1)) string = skipn 1 (skipn (Z.to_nat n) rest)).
    { subst rest. rewrite !skipn_skipn. f_equal. lia. }
    assert (Hsplit : rest = l ++ skipn (Z.to_nat n) rest)
      by (subst l; symmetry; apply firstn_skipn).
    assert (Hlabel : string_label l).
    { repeat split; [|exact Hnodot|lia]. intros E. rewrite E in Hl. cbn in Hl. lia. }
    exists (l :: ls). rewrite Hslice. cbn [map concat]. unfold prefixed at 2.
    rewrite Hl, <- app_assoc. cbn [app length].
    split; [reflexivity|]. split; [now constructor|].
    split; [unfold MAX_NUM_LABELS in *; lia|].
    rewrite Hnext in Hrest. fold rest. rewrite Hsplit.
    destruct Htail as [Htail|[rest' Htail]]; rewrite Htail in Hrest |- *;
      cbn [skipn] in Hrest.
    + left. rewrite app_nil_r.
      destruct Hrest as [Hrest|[_ Hrest]].
      * symmetry in Hrest. apply join_dots_nil in Hrest; [|exact Hwf]. now subst ls.
      * destruct (join_dots ls); discriminate.
    + destruct Hrest as [Hrest|[Hne Hrest]].
      * destruct ls as [|l' ls].
        -- right. split; [discriminate|]. now rewrite Hrest.
        -- left. rewrite join_dots_cons. now rewrite Hrest.
      * right. split; [discriminate|]. destruct ls as [|l' ls]; [contradiction|].
        rewrite join_dots_cons, Hrest, <- app_assoc. reflexivity.
  - intros [= <-]. exists []. cbn [map concat join_dots length].
    rewrite app_nil_r. split; [reflexivity|]. split; [constructor|]. split; [lia|].
    left. apply skipn_all2. lia.
Qed.

Lemma dns_save_match_name_loop_labels string :
  forall ls fuel string_offset label_count labels,
    Forall string_label ls ->
    0 <= string_offset ->
    (skipn (Z.to_nat string_offset) string = join_dots ls \/
     (ls <> [] /\ skipn (Z.to_nat string_offset) string = join_dots ls ++ [dot])) ->
    0 <= label_count ->
    label_count + Z.of_nat (length ls) <= MAX_NUM_LABELS ->
    (length ls < fuel)%nat ->
    dns_save_match_name_loop fuel string string_offset label_count labels
    = returns (labels ++ concat (map prefixed ls)).
Proof.
  induction ls as [|l ls IH]; intros fuel off count labels Hwf Hoff Hrest Hc0 Hc Hfuel;
    (destruct fuel as [|fuel]; [cbn [length] in Hfuel; lia|]);
    cbn [dns_save_match_name_loop].
  - destruct Hrest as [Hrest|[Hne _]]; [|contradiction].
    apply (f_equal (@length byte)) in Hrest. rewrite length_skipn in Hrest.
    cbn [join_dots length] in Hrest.
    destruct (Z.ltb_spec off (Z.of_nat (length string))); [lia|].
    cbn [map concat]. now rewrite app_nil_r.
  - apply Forall_cons_iff in Hwf as [(Hne & Hnodot & Hlen) Hwf].
    set (rest := skipn (Z.to_nat off) string) in *.
    assert (Hsplit : exists tail,
              rest = l ++ tail /\ (tail = [] \/ exists r, tail = dot :: r) /\
              (skipn 1 tail = join_dots ls \/
               (ls <> [] /\ skipn 1 tail = join_dots ls ++ [dot]))).
    { destruct ls as [|l' ls].
      - destruct Hrest as [Hrest|[_ Hrest]]; cbn [join_dots] in Hrest.
        + exists []. rewrite app_nil_r. repeat split; auto.
        + exists [dot]. repeat split; auto. right. now exists [].
      - destruct Hrest as [Hrest|[_ Hrest]]; rewrite join_dots_cons in Hrest.
        + exists (dot :: join_dots (l' :: ls)). repeat split; auto.
          right. now eexists.
        + exists (dot :: join_dots (l' :: ls) ++ [dot]).
          rewrite <- app_assoc in Hrest. repeat split; auto.
          * right. now eexists.
          * right. split; [discriminate|reflexivity]. }
    destruct Hsplit as (tail & Hrest' & Htail & Hnext).
    assert (Hlpos : 0 < Z.of_nat (length l)) by (destruct l; [contradiction|cbn [length]; lia]).
    assert (Hlenrest : length rest = (length string - Z.to_nat off)%nat)
      by (subst rest; apply length_skipn).
    assert (Hlr : (length l <= length rest)%nat)
      by (rewrite Hrest', length_app; lia).
    destruct (Z.ltb_spec off (Z.of_nat (length string))); [|lia].
    rewrite Hrest', (strcspn_dot_app l tail Hnodot Htail).
    destruct (Z.eqb_spec (Z.of_nat (length l)) 0); [lia|].
    destruct (Z.gtb_spec (Z.of_nat (length l)) DNS_MAX_LABEL_LEN); [lia|].
    destruct (Z.gtb_spec (count + 1) MAX_NUM_LABELS); [cbn [length] in Hc; lia|].
    cbn [orb].
    assert (Hslice : slice string off (Z.of_nat (length l)) = l).
    { rewrite slice_skipn by lia. fold rest. rewrite Hrest', Nat2Z.id.
      rewrite firstn_app, firstn_all, Nat.sub_diag. cbn [firstn]. apply app_nil_r. }
    rewrite Hslice, IH; try assumption; try lia.
    + cbn [map concat]. unfold prefixed at 3. now rewrite <- app_assoc.
    + replace (Z.to_nat (off + Z.of_nat (length l) + 1))
        with (1 + (length l + Z.to_nat off))%nat by lia.
      rewrite <- !skipn_skipn. fold rest. rewrite Hrest'.
      rewrite skipn_app, skipn_all, Nat.sub_diag. cbn [app]. exact Hnext.
    + cbn [length] in Hc. lia.
    + cbn [length] in Hfuel. lia.
Qed.

Lemma length_join_dots_tail l ls :
  (length (join_dots ls) <= length (join_dots (l :: ls)))%nat.
Proof.
  destruct ls as [|l' ls]; [cbn; lia|].
  rewrite join_dots_cons, length_app. cbn [length]. lia.
Qed.

Lemma length_join_dots ls :
  Forall string_label ls -> (length ls <= length (join_dots ls))%nat.
Proof.
  induction 1 as [|l ls (Hne & _) _ IH]; [cbn; lia|].
  assert (1 <= length l)%nat by (destruct l; [contradiction|cbn; lia]).
  destruct ls as [|l' ls]; [cbn [join_dots length]; lia|].
  rewrite join_dots_cons, length_app. cbn [length] in *. lia.
Qed.

Lemma slice_overlay (written old : list byte) :
  slice (overlay written old) 0 (Z.of_nat (length written)) = written.
Proof. unfold overlay. rewrite slice_app_l by lia. apply slice_all. Qed.

Lemma join_dots_no_trailing_dot ls :
  Forall string_label ls -> forall s, join_dots ls <> s ++ [dot].
Proof.
  induction 1 as [|l ls (Hne & Hnodot & _) Hwf IH]; intros s E.
  - destruct s; discriminate.
  - destruct ls as [|l' ls].
    + cbn [join_dots] in E. apply Hnodot. rewrite E. apply in_or_app. right. now left.
    + rewrite join_dots_cons in E.
      destruct (exists_last (l := join_dots (l' :: ls))) as (t & c & Ht).
      { intros Hnil. apply join_dots_nil in Hnil; [discriminate|exact Hwf]. }
      rewrite Ht in E.
      change (l ++ dot :: t ++ [c]) with (l ++ (dot :: t) ++ [c]) in E.
      rewrite app_assoc in E. apply app_inj_tail in E as [_ ->].
      now apply (IH t).
Qed.

(** What the loop of dns_labels_to_string makes of labels that stand in
    [labels] from [pre] on, each with its length byte, when the labels end
    where [length] says or at a zero byte. *)
Lemma dns_labels_to_string_loop_labels labels len :
  forall ds fuel pre post string,
    Forall (fun d => d <> [] /\ Z.of_nat (length d) < 256) ds ->
    labels = pre ++ concat (map prefixed ds) ++ post ->
    Z.of_nat (length pre) + Z.of_nat (length (concat (map prefixed ds))) <= len ->
    (Z.of_nat (length pre) + Z.of_nat (length (concat (map prefixed ds))) < len ->
     rd post 0 = x00) ->
    (length ds < fuel)%nat ->
    dns_labels_to_string_loop fuel labels len (Z.of_nat (length pre)) string
    = returns (string ++ match ds with
                         | [] => []
                         | _ :: _ =>
                             match string with
                             | [] => join_dots ds
                             | _ :: _ => dot :: join_dots ds
                             end
                         end).
Proof.
  induction ds as [|d ds IH]; intros fuel pre post string Hwf Hlab Hlen Hend Hfuel;
    (destruct fuel as [|fuel]; [cbn [length] in Hfuel; lia|]);
    cbn [dns_labels_to_string_loop].
  - cbn [map concat length app] in *. rewrite app_nil_r.
    destruct (Z.ltb_spec (Z.of_nat (length pre)) len) as [Hlt|]; [|reflexivity].
    assert (Hrd : rd labels (Z.of_nat (length pre)) = rd post 0)
      by (rewrite Hlab, <- (rd_app_r pre post 0) by lia; f_equal; lia).
    rewrite Hrd, Hend by lia. reflexivity.
  - apply Forall_cons_iff in Hwf as [[Hne Hd] Hwf].
    cbn [map concat] in *. rewrite length_app, length_prefixed in Hlen, Hend.
    assert (Hdpos : 0 < Z.of_nat (length d)) by (destruct d; [contradiction|cbn [length]; lia]).
    destruct (Z.ltb_spec (Z.of_nat (length pre)) len) as [_|]; [|lia].
    assert (Hrd : rd labels (Z.of_nat (length pre)) = byte_of_Z (Z.of_nat (length d))).
    { rewrite Hlab, <- (Z.add_0_r (Z.of_nat (length pre))), rd_app_r by lia. reflexivity. }
    rewrite Hrd, u8_byte_of_Z, Z.mod_small by lia.
    destruct (Z.eqb_spec (Z.of_nat (length d)) 0); [lia|].
    destruct (Z.gtb_spec (Z.of_nat (length pre) + 1 + Z.of_nat (length d)) len); [lia|].
    assert (Hslice : slice labels (Z.of_nat (length pre) + 1) (Z.of_nat (length d)) = d).
    { rewrite Hlab.
      change ((prefixed d ++ concat (map prefixed ds)) ++ post)
        with (([byte_of_Z (Z.of_nat (length d))] ++ d ++ concat (map prefixed ds)) ++ post).
      rewrite <- !app_assoc, (app_assoc pre).
      replace (Z.of_nat (length pre) + 1)
        with (Z.of_nat (length (pre ++ [byte_of_Z (Z.of_nat (length d))])))
        by (rewrite length_app; cbn [length]; lia).
      apply slice_mid. }
    rewrite Hslice.
    specialize (IH fuel (pre ++ prefixed d) post
                  ((if negb (Z.of_nat (length string) =? 0) then string ++ [dot] else string) ++ d)
                  Hwf).
    rewrite length_app, length_prefixed in IH.
    replace (Z.of_nat (length pre + S (length d)))
      with (Z.of_nat (length pre) + 1 + Z.of_nat (length d)) in IH by lia.
    rewrite IH; [|rewrite Hlab, <- !app_assoc; reflexivity|lia|intros; apply Hend; lia
                 |cbn [length] in Hfuel; lia].
    f_equal. destruct string as [|c string]; cbn [length].
    + cbn [negb Z.eqb Z.of_nat app]. destruct ds as [|d' ds].
      * cbn [join_dots]. now rewrite !app_nil_r.
      * rewrite join_dots_cons. destruct d; [contradiction|reflexivity].
    + destruct (Z.eqb_spec (Z.of_nat (S (length string))) 0); [lia|]. cbn [negb].
      destruct ds as [|d' ds]; rewrite ?join_dots_cons; cbn [join_dots app];
        rewrite ?app_nil_r, <- ?app_assoc; cbn [app]; reflexivity.
Qed.

(** Labels joined by dots are stored as the labels with their length bytes. *)
Lemma dns_save_match_name_joined (ls : list (list byte)) (block : list byte) :
  ls <> [] -> Forall string_label ls ->
  Z.of_nat (length ls) <= MAX_NUM_LABELS ->
  Z.of_nat (length (join_dots ls)) < DNS_MAX_NAME_LEN ->
  exists m,
    dns_save_match_name (join_dots ls) (Some block) = returns m /\
    mn_length m = Z.of_nat (length (join_dots ls)) + 1 /\
    match_name_bytes m = concat (map prefixed ls).
Proof.
  intros Hne Hwf Hcount Hlen. unfold dns_save_match_name.
  pose proof (length_join_dots ls Hwf) as Hlj.
  assert (0 < length ls)%nat by (destruct ls; [contradiction|cbn; lia]).
  destruct (Z.ltb_spec (Z.of_nat (length (join_dots ls))) 1); [lia|].
  destruct (Z.geb_spec (Z.of_nat (length (join_dots ls))) DNS_MAX_NAME_LEN); [lia|].
  cbn [orb].
  rewrite (dns_save_match_name_loop_labels (join_dots ls) ls); try assumption; try lia.
  - eexists. split; [reflexivity|]. split; [reflexivity|].
    unfold match_name_bytes. cbn [mn_labels mn_length app].
    rewrite <- length_prefixed_labels by exact Hne. apply slice_overlay.
  - left. reflexivity.
Qed.

(** X9.  For a string of at most 127 labels, none empty or longer than 64 bytes,
    joined by dots and shorter than 256 bytes, dns_save_match_name returns
    the labels, each behind its length byte, and one more than the length of
    the string as length. *)
Theorem dns_save_match_name_labels (ls : list (list byte)) (block : list byte) :
  ls <> [] -> Forall string_label ls ->
  Z.of_nat (length ls) <= MAX_NUM_LABELS ->
  Z.of_nat (length (join_dots ls)) < DNS_MAX_NAME_LEN ->
  exists m,
    dns_save_match_name (join_dots ls) (Some block) = returns m /\
    mn_length m = Z.of_nat (length (join_dots ls)) + 1 /\
    match_name_bytes m = concat (map prefixed ls).
Proof. intros. eapply dns_save_match_name_joined; eassumption. Qed.

Lemma dns_save_match_name_labels_witness :
  exists m,
    dns_save_match_name (join_dots [datagram [95;115;115;104]; datagram [95;116;99;112]])
      (Some (repeat x00 10)) = returns m /\
    mn_length m
    = Z.of_nat (length (join_dots [datagram [95;115;115;104]; datagram [95;116;99;112]])) + 1 /\
    match_name_bytes m
    = concat (map prefixed [datagram [95;115;115;104]; datagram [95;116;99;112]]).
Proof.
  apply dns_save_match_name_labels.
  - discriminate.
  - repeat constructor; try discriminate; try (cbn; lia);
      cbn; intros H; repeat (destruct H as [H|H]; [discriminate|]); exact H.
  - unfold MAX_NUM_LABELS. cbn. lia.
  - unfold DNS_MAX_NAME_LEN. cbn. lia.
Defined.

(** X11.  A string that dns_save_match_name accepts and that does not end in a dot
    is given back by dns_labels_to_string. *)
Theorem match_name_roundtrip (string block : list byte) (m : dns_match_name_t) :
  dns_save_match_name string (Some block) = returns m ->
  last string x00 <> dot ->
  dns_labels_to_string (mn_labels m) (mn_length m) = returns string.
Proof.
  unfold dns_save_match_name. intros Hsave Hlast.
  destruct (Z.ltb_spec (Z.of_nat (length string)) 1) as [|Hlen1]; [discriminate|].
  destruct (Z.geb_spec (Z.of_nat (length string)) DNS_MAX_NAME_LEN) as [|Hlen2];
    [discriminate|].
  cbn [orb] in Hsave.
  destruct (dns_save_match_name_loop _ string 0 0 []) as [stored| |] eqn:Hloop;
    try discriminate.
  injection Hsave as <-. cbn [mn_labels mn_length].
  apply dns_save_match_name_loop_returns in Hloop as (ls & -> & Hwf & _ & Hrest); [|lia].
  cbn [Z.to_nat skipn app] in *.
  destruct Hrest as [Hstr|[_ Hstr]];
    [|exfalso; apply Hlast; rewrite Hstr; apply last_last].
  assert (Hne : ls <> []) by (intros ->; subst string; cbn in Hlen1; lia).
  unfold dns_labels_to_string.
  destruct (Z.eqb_spec (Z.of_nat (length string) + 1) 0); [lia|].
  pose proof (length_prefixed_labels ls Hne) as Hlp. rewrite <- Hstr in Hlp.
  rewrite (dns_labels_to_string_loop_labels _ _ ls _ []
             (skipn (length (concat (map prefixed ls))) block) []).
  - cbn [app]. destruct ls; [contradiction|]. now rewrite Hstr.
  - eapply Forall_impl; [|exact Hwf]. intros d (Hd & _ & Hd64).
    unfold DNS_MAX_LABEL_LEN in Hd64. split; [exact Hd|lia].
  - reflexivity.
  - cbn [length]. lia.
  - cbn [length]. lia.
  - pose proof (length_join_dots ls Hwf). rewrite <- Hstr in H. lia.
Qed.

Lemma match_name_roundtrip_witness :
  dns_labels_to_string
    (mn_labels (mk_match_name 5 (datagram [4;95;115;115;104])))
    (mn_length (mk_match_name 5 (datagram [4;95;115;115;104])))
  = returns (datagram [95;115;115;104]).
Proof.
  apply (match_name_roundtrip (datagram [95;115;115;104]) (repeat x00 5)).
  - reflexivity.
  - discriminate.
Defined.

(** X10.  For a string that ends in a dot and is accepted, dns_save_match_name
    counts the final dot in the length but stores nothing for it: the last
    byte of the labels is what the block held when malloc returned it. *)
Theorem dns_save_match_name_trailing_dot (string block : list byte)
    (m : dns_match_name_t) :
  dns_save_match_name (string ++ [dot]) (Some block) = returns m ->
  mn_length m = Z.of_nat (length string) + 2 /\
  exists stored,
    Z.of_nat (length stored) = Z.of_nat (length string) + 1 /\
    mn_labels m = overlay stored block.
Proof.
  unfold dns_save_match_name. rewrite length_app. cbn [length]. intros Hsave.
  destruct (_ || _); [discriminate|].
  destruct (dns_save_match_name_loop _ _ 0 0 []) as [stored| |] eqn:Hloop;
    try discriminate.
  injection Hsave as <-. cbn [mn_labels mn_length]. split; [lia|].
  apply dns_save_match_name_loop_returns in Hloop as (ls & -> & Hwf & _ & Hrest); [|lia].
  cbn [Z.to_nat skipn app] in *. exists (concat (map prefixed ls)). split; [|reflexivity].
  destruct Hrest as [Hstr|[Hne Hstr]].
  - symmetry in Hstr. now apply join_dots_no_trailing_dot in Hstr.
  - apply app_inj_tail in Hstr as [-> _]. now apply length_prefixed_labels.
Qed.

Lemma dns_save_match_name_trailing_dot_witness :
  mn_length (mk_match_name 3 (datagram [1;97;255])) = Z.of_nat (length (datagram [97])) + 2 /\
  exists stored,
    Z.of_nat (length stored) = Z.of_nat (length (datagram [97])) + 1 /\
    mn_labels (mk_match_name 3 (datagram [1;97;255])) = overlay stored (datagram [238;238;255]).
Proof.
  apply (dns_save_match_name_trailing_dot (datagram [97]) (datagram [238;238;255])).
  reflexivity.
Defined.

Lemma dns_labels_to_string_loop_bound labels len :
  forall fuel labels_offset string,
    (labels_offset = 0 /\ string = []) \/
    (2 <= labels_offset <= len /\ Z.of_nat (length string) = labels_offset - 1) ->
    (Z.to_nat (len - labels_offset) < fuel)%nat ->
    match dns_labels_to_string_loop fuel labels len labels_offset string with
    | returns out => Z.of_nat (length out) + 1 <= Z.max 1 len
    | fatal => True
    | unfinished => False
    end.
Proof.
  induction fuel as [|fuel IH]; intros off string Hinv Hfuel; [lia|].
  cbn [dns_labels_to_string_loop].
  assert (Hout : Z.of_nat (length string) + 1 <= Z.max 1 len).
  { destruct Hinv as [[_ ->]|[? ?]]; [cbn [length]|]; lia. }
  destruct (Z.ltb_spec off len) as [Hlt|]; [|exact Hout].
  pose proof (u8_range (rd labels off)) as Hu.
  destruct (Z.eqb_spec (u8 (rd labels off)) 0) as [|Hne]; [exact Hout|].
  destruct (Z.gtb_spec (off + 1 + u8 (rd labels off)) len) as [|Hfit]; [exact I|].
  apply IH; [|lia]. right. split; [lia|].
  rewrite length_app, slice_length.
  destruct Hinv as [[-> ->]|[Hoff Hlen]].
  - cbn [length Z.of_nat Z.eqb negb]. lia.
  - destruct (Z.eqb_spec (Z.of_nat (length string)) 0); [lia|]. cbn [negb].
    rewrite length_app. cbn [length]. lia.
Qed.

(** X12.  dns_labels_to_string ends, and when it returns, the string with its
    final NUL is no longer than the labels it was given: a buffer of that
    size is enough, as the note above the function asks for. *)
Theorem dns_labels_to_string_fits (labels : list byte) (length : Z) :
  0 <= length ->
  match dns_labels_to_string labels length with
  | returns string =>
      Z.of_nat (List.length string) + 1
      <= (if length =? 0 then u8 (rd labels 0) + 1 else length)
  | fatal => True
  | unfinished => False
  end.
Proof.
  intros Hlen. unfold dns_labels_to_string.
  pose proof (u8_range (rd labels 0)) as Hu.
  set (len := if length =? 0 then u8 (rd labels 0) + 1 else length).
  assert (Hpos : 1 <= len) by (subst len; destruct (Z.eqb_spec length 0); lia).
  pose proof (dns_labels_to_string_loop_bound labels len (S (Z.to_nat len)) 0 []) as H.
  destruct (dns_labels_to_string_loop _ labels len 0 []).
  - rewrite Z.max_r in H by lia. apply H; [now left|lia].
  - exact I.
  - apply H; [now left|lia].
Qed.

Lemma dns_labels_to_string_fits_witness :
  match dns_labels_to_string (datagram [1;104;0]) 3 with
  | returns string =>
      Z.of_nat (List.length string) + 1
      <= (if 3 =? 0 then u8 (rd (datagram [1;104;0]) 0) + 1 else 3)
  | fatal => True
  | unfinished => False
  end.
Proof. apply dns_labels_to_string_fits. lia. Defined.






(** ** A filter string and the names it matches *)

(** X14.  The match name saved for a filter string matches every name in which the
    labels of the string stand as consecutive labels; a filter list that
    holds it admits such a name when it is an ALLOW list and rejects it when
    it is a DENY list. *)
Theorem filter_string_matches_labels (sub : list (list byte)) (block : list byte) :
  sub <> [] -> Forall string_label sub ->
  Z.of_nat (length sub) <= MAX_NUM_LABELS ->
  Z.of_nat (length (join_dots sub)) < DNS_MAX_NAME_LEN ->
  exists m,
    dns_save_match_name (join_dots sub) (Some block) = returns m /\
    forall pre post,
      let name := name_of_labels (map prefixed (pre ++ sub ++ post)) in
      dns_subset_match name m = true /\
      forall fl, In m (filter_names fl) ->
        filter_list_allowed fl name
        = match allow_deny fl with ALLOW => true | DENY => false end.
Proof.
  intros Hne Hwf Hcount Hlen.
  destruct (dns_save_match_name_joined sub block Hne Hwf Hcount Hlen) as (m & Hm & _ & Hbytes).
  exists m. split; [exact Hm|]. intros pre post name.
  assert (Hmatch : dns_subset_match name m = true).
  { unfold dns_subset_match. apply memmem_spec. rewrite Hbytes.
    exists (concat (map prefixed pre)), (concat (map prefixed post) ++ [x00]).
    subst name. unfold name_bytes, name_of_labels. cbn [nm_labels nm_length].
    replace (Z.of_nat (length (concat (map prefixed (pre ++ sub ++ post)))) + 1)
      with (Z.of_nat (length (concat (map prefixed (pre ++ sub ++ post)) ++ [x00])))
      by (rewrite length_app; cbn [length]; lia).
    rewrite slice_all, !map_app, !concat_app, <- !app_assoc. reflexivity. }
  split; [exact Hmatch|]. intros fl Hin. unfold filter_list_allowed.
  assert (He : existsb (dns_subset_match name) (filter_names fl) = true)
    by (apply existsb_exists; now exists m).
  rewrite He. now destruct (allow_deny fl).
Qed.

Lemma filter_string_matches_labels_witness :
  exists m,
    dns_save_match_name (join_dots [datagram [95;115;115;104]]) (Some (repeat x00 5))
    = returns m /\
    forall pre post,
      let name := name_of_labels (map prefixed (pre ++ [datagram [95;115;115;104]] ++ post)) in
      dns_subset_match name m = true /\
      forall fl, In m (filter_names fl) ->
        filter_list_allowed fl name
        = match allow_deny fl with ALLOW => true | DENY => false end.
Proof.
  apply filter_string_matches_labels.
  - discriminate.
  - repeat constructor; try discriminate; try (cbn; lia);
      cbn; intros H; repeat (destruct H as [H|H]; [discriminate|]); exact H.
  - unfold MAX_NUM_LABELS. cbn. lia.
  - unfold DNS_MAX_NAME_LEN. cbn. lia.
Defined.

(** ** The interface list of an address family *)

Lemma in_enabled_from disable_ip :
  forall index i,
    In i (enabled_from index disable_ip) <->
    (index <= i < index + length disable_ip)%nat /\
    nth (i - index) disable_ip true = false.
Proof.
  induction disable_ip as [|d rest IH]; intros index i; cbn [enabled_from length].
  - split; [intros []|lia].
  - assert (Hstep : forall j, (S index <= j)%nat ->
              nth (j - index) (d :: rest) true = nth (j - S index) rest true).
    { intros j Hj. replace (j - index)%nat with (S (j - S index)) by lia. reflexivity. }
    destruct d; cbn [In]; rewrite ?IH.
    + split.
      * intros [Hr Hn]. rewrite Hstep by lia. split; [lia|exact Hn].
      * intros [Hr Hn]. destruct (Nat.eq_dec i index) as [->|Hne].
        -- rewrite Nat.sub_diag in Hn. discriminate.
        -- rewrite Hstep in Hn by lia. split; [lia|exact Hn].
    + split.
      * intros [<-|[Hr Hn]].
        -- rewrite Nat.sub_diag. split; [lia|reflexivity].
        -- rewrite Hstep by lia. split; [lia|exact Hn].
      * intros [Hr Hn]. destruct (Nat.eq_dec i index) as [->|Hne]; [now left|].
        right. rewrite Hstep in Hn by lia. split; [lia|exact Hn].
Qed.

Lemma NoDup_enabled_from disable_ip :
  forall index, NoDup (enabled_from index disable_ip).
Proof.
  induction disable_ip as [|d rest IH]; intros index; cbn [enabled_from];
    [constructor|].
  destruct d; [apply IH|]. constructor; [|apply IH].
  rewrite in_enabled_from. lia.
Qed.

Lemma length_enabled_from disable_ip :
  forall index, length (enabled_from index disable_ip) = length (filter negb disable_ip).
Proof.
  induction disable_ip as [|d rest IH]; intros index; cbn [enabled_from filter];
    [reflexivity|].
  destruct d; cbn [negb length]; now rewrite IH.
Qed.

Lemma length_disable_first disable_ip :
  length (disable_first disable_ip) = length disable_ip.
Proof.
  induction disable_ip as [|d rest IH]; [reflexivity|].
  cbn [disable_first]. destruct d; cbn [length]; [now rewrite IH|reflexivity].
Qed.

Lemma disable_first_all disable_ip :
  (length (filter negb disable_ip) <= 1)%nat ->
  Forall (fun disabled => disabled = true) (disable_first disable_ip).
Proof.
  induction disable_ip as [|d rest IH]; cbn [disable_first filter]; [constructor|].
  destruct d; cbn [negb length]; intros H.
  - constructor; [reflexivity|now apply IH].
  - constructor; [reflexivity|].
    apply Forall_forall. intros x Hx. destruct x; [reflexivity|].
    assert (Hin : In false (filter negb rest)) by (apply filter_In; now split).
    destruct (filter negb rest); [destruct Hin|cbn [length] in H; lia].
Qed.

(** X22.  With [ip_interface_count] the number of interfaces that are not
    disabled, as os_validate_interfaces leaves it, build_interface_list stays
    inside the array it allocates.  Two or more such interfaces make the
    list, each once and the flags as they were; fewer leave the list empty
    and every interface disabled. *)
Theorem build_interface_list_spec (ip_interface_count : Z) (disable_ip : list bool) :
  ip_interface_count = Z.of_nat (length (filter negb disable_ip)) ->
  exists ip_interface_list flags,
    build_interface_list ip_interface_count disable_ip = Some (ip_interface_list, flags) /\
    length flags = length disable_ip /\
    NoDup ip_interface_list /\
    (forall i, In i ip_interface_list <->
       2 <= ip_interface_count /\ (i < length disable_ip)%nat /\
       nth i disable_ip true = false) /\
    (2 <= ip_interface_count -> flags = disable_ip) /\
    (ip_interface_count < 2 ->
       Forall (fun disabled => disabled = true) flags).
Proof.
  intros Hcount. unfold build_interface_list.
  destruct (Z.gtb_spec ip_interface_count 1) as [Hmany|Hfew].
  - rewrite length_enabled_from, <- Hcount.
    destruct (Z.gtb_spec ip_interface_count (Z.max 0 ip_interface_count)); [lia|].
    destruct (Z.ltb_spec ip_interface_count 2); [lia|].
    exists (enabled_from 0 disable_ip), disable_ip.
    split; [reflexivity|]. split; [reflexivity|].
    split; [apply NoDup_enabled_from|]. split; [|split; [reflexivity|lia]].
    intros i. rewrite in_enabled_from, Nat.sub_0_r. cbn [Nat.add]. split.
    + intros [Hr Hn]. repeat split; [lia|lia|exact Hn].
    + intros (_ & Hr & Hn). split; [lia|exact Hn].
  - cbn [length Z.of_nat].
    destruct (Z.gtb_spec 0 (Z.max 0 ip_interface_count)); [lia|].
    cbn [Z.ltb Z.compare].
    exists [], (disable_first disable_ip).
    split; [reflexivity|]. split; [apply length_disable_first|].
    split; [constructor|]. split; [|split; [lia|]].
    + intros i. split; [intros []|lia].
    + intros _. apply disable_first_all. lia.
Qed.

Lemma build_interface_list_spec_witness :
  exists ip_interface_list flags,
    build_interface_list 2 [false; true; false] = Some (ip_interface_list, flags) /\
    length flags = length [false; true; false] /\
    NoDup ip_interface_list /\
    (forall i, In i ip_interface_list <->
       2 <= 2 /\ (i < length [false; true; false])%nat /\
       nth i [false; true; false] true = false) /\
    (2 <= 2 -> flags = [false; true; false]) /\
    (2 < 2 -> Forall (fun disabled => disabled = true) flags).
Proof. apply (build_interface_list_spec 2 [false; true; false]). reflexivity. Defined.

(** ** The peer lists of an interface *)

Lemma existsb_filter_ptr (filter_list : filter_ref) (l : list filter_ref) :
  existsb (fun f => filter_ptr_eqb (Some filter_list) (Some f)) l = true <->
  In (addr filter_list) (map addr l).
Proof.
  rewrite existsb_exists, in_map_iff. cbn [filter_ptr_eqb]. split.
  - intros (f & Hin & Heq). apply Nat.eqb_eq in Heq. now exists f.
  - intros (f & Heq & Hin). exists f. split; [exact Hin|]. now apply Nat.eqb_eq.
Qed.

Lemma add_peers_spec configured peer_room filter_room self :
  forall peers interface,
    Z.of_nat (length (peer_list interface))
    + Z.of_nat (length (filter (fun p => negb (Nat.eqb p self)) peers)) <= peer_room ->
    Z.of_nat (length (peer_filter_list interface))
    + Z.of_nat (length (filter (fun p => negb (Nat.eqb p self)
                                         && has_outbound (nth p configured zero_interface))
                          peers)) <= filter_room ->
    NoDup (map addr (peer_filter_list interface)) ->
    exists interface',
      add_peers configured peer_room filter_room self interface peers = Some interface' /\
      inbound_filter_list interface' = inbound_filter_list interface /\
      outbound_filter_list interface' = outbound_filter_list interface /\
      if_index interface' = if_index interface /\
      peer_list interface'
      = peer_list interface ++ filter (fun p => negb (Nat.eqb p self)) peers /\
      peer_nofilter_count interface'
      = peer_nofilter_count interface
        + Z.of_nat (length (filter (fun p => negb (Nat.eqb p self)
                                             && negb (has_outbound
                                                        (nth p configured zero_interface)))
                              peers)) /\
      NoDup (map addr (peer_filter_list interface')) /\
      (forall f, In f (peer_filter_list interface') ->
         In f (peer_filter_list interface) \/
         exists p, In p peers /\ p <> self /\
           outbound_filter_list (nth p configured zero_interface) = Some f) /\
      (forall a, In a (map addr (peer_filter_list interface)) ->
         In a (map addr (peer_filter_list interface'))) /\
      (forall p f, In p peers -> p <> self ->
         outbound_filter_list (nth p configured zero_interface) = Some f ->
         In (addr f) (map addr (peer_filter_list interface'))).
Proof.
  induction peers as [|peer peers IH]; intros interface Hroom1 Hroom2 Hnd;
    cbn [add_peers filter].
  - exists interface. cbn [length Z.of_nat]. rewrite app_nil_r, Z.add_0_r.
    repeat split; auto. intros p f [].
  - unfold add_peer. cbn [filter] in Hroom1, Hroom2.
    destruct (Nat.eqb_spec peer self) as [->|Hne]; cbn [negb andb] in *.
    + destruct (IH interface Hroom1 Hroom2 Hnd)
        as (i' & Hrun & H1 & H2 & H3 & H4 & H5 & H6 & H7 & H8 & H9).
      exists i'. repeat split; auto.
      * intros f Hf. destruct (H7 f Hf) as [|(p & Hp & Hps & Ho)]; [now left|].
        right. exists p. repeat split; auto. now right.
      * intros p f [<-|Hp] Hps Ho; [contradiction|]. now apply (H9 p f).
    + cbn [length] in Hroom1.
      destruct (Z.geb_spec (Z.of_nat (length (peer_list interface))) peer_room); [lia|].
      pose proof (eq_refl (has_outbound (nth peer configured zero_interface))) as Hho.
      unfold has_outbound at 2 in Hho.
      destruct (outbound_filter_list (nth peer configured zero_interface))
        as [filter_list|] eqn:Hout; rewrite Hho in *; cbn [negb andb] in *.
      * cbn [length] in Hroom2.
        destruct (existsb _ (peer_filter_list interface)) eqn:Hex.
        -- apply existsb_filter_ptr in Hex.
           destruct (IH (set_peer_lists interface (peer_list interface ++ [peer])
                           (peer_filter_list interface) (peer_nofilter_count interface)))
             as (i' & Hrun & H1 & H2 & H3 & H4 & H5 & H6 & H7 & H8 & H9);
             cbn [set_peer_lists peer_list peer_filter_list peer_nofilter_count
                  inbound_filter_list outbound_filter_list if_index] in *;
             [rewrite length_app; cbn [length]; lia|lia|exact Hnd|].
           exists i'. rewrite <- app_assoc in H4. repeat split; auto.
           ++ intros f Hf. destruct (H7 f Hf) as [|(p & Hp & Hps & Ho)]; [now left|].
              right. exists p. repeat split; auto. now right.
           ++ intros p f [<-|Hp] Hps Ho; [|now apply (H9 p f)].
              rewrite Hout in Ho. injection Ho as <-. now apply H8.
        -- assert (Hnew : ~ In (addr filter_list) (map addr (peer_filter_list interface))).
           { intros Hin. apply existsb_filter_ptr in Hin. congruence. }
           destruct (Z.geb_spec (Z.of_nat (length (peer_filter_list interface))) filter_room);
             [lia|].
           destruct (IH (set_peer_lists interface (peer_list interface ++ [peer])
                           (peer_filter_list interface ++ [filter_list])
                           (peer_nofilter_count interface)))
             as (i' & Hrun & H1 & H2 & H3 & H4 & H5 & H6 & H7 & H8 & H9);
             cbn [set_peer_lists peer_list peer_filter_list peer_nofilter_count
                  inbound_filter_list outbound_filter_list if_index] in *.
           ++ rewrite length_app. cbn [length]. lia.
           ++ rewrite length_app. cbn [length]. lia.
           ++ rewrite map_app. cbn [map]. apply NoDup_app; [exact Hnd| |].
              ** constructor; [intros []|constructor].
              ** intros a Ha [<-|[]]. contradiction.
           ++ exists i'. rewrite <- app_assoc in H4. repeat split; auto.
              ** intros f Hf. destruct (H7 f Hf) as [Hin|(p & Hp & Hps & Ho)].
                 --- apply in_app_or in Hin as [Hin|[<-|[]]]; [now left|].
                     right. exists peer. repeat split; auto. now left.
                 --- right. exists p. repeat split; auto. now right.
              ** intros a Ha. apply H8. rewrite map_app. apply in_or_app. now left.
              ** intros p f [<-|Hp] Hps Ho; [|now apply (H9 p f)].
                 rewrite Hout in Ho. injection Ho as <-. apply H8.
                 rewrite map_app. apply in_or_app. right. now left.
      * cbn [length] in *.
        destruct (IH (set_peer_lists interface (peer_list interface ++ [peer])
                        (peer_filter_list interface) (peer_nofilter_count interface + 1)))
          as (i' & Hrun & H1 & H2 & H3 & H4 & H5 & H6 & H7 & H8 & H9);
          cbn [set_peer_lists peer_list peer_filter_list peer_nofilter_count
               inbound_filter_list outbound_filter_list if_index] in *;
          [rewrite length_app; cbn [length]; lia|lia|exact Hnd|].
        exists i'. rewrite <- app_assoc in H4. repeat split; auto.
        -- lia.
        -- intros f Hf. destruct (H7 f Hf) as [|(p & Hp & Hps & Ho)]; [now left|].
           right. exists p. repeat split; auto. now right.
        -- intros p f [<-|Hp] Hps Ho; [congruence|]. now apply (H9 p f).
Qed.

Lemma length_filter_nth_seq {A} (f : A -> bool) (d : A) (c : list A) :
  forall s,
    length (filter (fun i => f (nth (i - s) c d)) (seq s (length c)))
    = length (filter f c).
Proof.
  induction c as [|x c IH]; intros s; [reflexivity|].
  cbn [length seq filter].
  assert (E : filter (fun i => f (nth (i - s) (x :: c) d)) (seq (S s) (length c))
              = filter (fun i => f (nth (i - S s) c d)) (seq (S s) (length c))).
  { apply filter_ext_in. intros i Hi. apply in_seq in Hi.
    replace (i - s)%nat with (S (i - S s)) by lia. reflexivity. }
  rewrite E, Nat.sub_diag. cbn [nth]. destruct (f x); cbn [length]; now rewrite IH.
Qed.

Lemma length_filter_indices {A} (f : A -> bool) (d : A) (c : list A) (l : list nat) :
  NoDup l -> (forall i, In i l -> (i < length c)%nat) ->
  (length (filter (fun i => f (nth i c d)) l) <= length (filter f c))%nat.
Proof.
  intros Hnd Hin. rewrite <- (length_filter_nth_seq f d c 0).
  apply NoDup_incl_length; [now apply NoDup_filter|].
  intros i Hi. apply filter_In in Hi as [Hi Hf]. apply filter_In. split.
  - apply in_seq. specialize (Hin i Hi). lia.
  - now rewrite Nat.sub_0_r.
Qed.

Lemma length_filter_le {A} (f : A -> bool) (l : list A) :
  (length (filter f l) <= length l)%nat.
Proof.
  induction l as [|x l IH]; [reflexivity|]. cbn [filter].
  destruct (f x); cbn [length]; lia.
Qed.

Lemma length_filter_and {A} (f g : A -> bool) (l : list A) :
  (length (filter (fun x => f x && g x) l) <= length (filter g l))%nat.
Proof.
  induction l as [|x l IH]; [reflexivity|]. cbn [filter].
  destruct (f x), (g x); cbn [andb length]; lia.
Qed.

Lemma length_filter_others (self : nat) (l : list nat) :
  NoDup l -> In self l ->
  S (length (filter (fun p => negb (Nat.eqb p self)) l)) = length l.
Proof.
  induction 1 as [|x l Hx Hnd IH]; intros Hin; [destruct Hin|].
  cbn [filter length]. destruct (Nat.eqb_spec x self) as [->|Hne]; cbn [negb].
  - f_equal. clear IH Hin Hnd. induction l as [|y l IH]; [reflexivity|].
    cbn [filter]. destruct (Nat.eqb_spec y self) as [->|_]; cbn [negb length].
    + exfalso. apply Hx. now left.
    + f_equal. apply IH. intros H. apply Hx. now right.
  - cbn [length]. f_equal. apply IH. destruct Hin as [->|Hin]; [contradiction|exact Hin].
Qed.

Lemma nth_list_set_same {A} (l : list A) (i : nat) (v d : A) :
  (i < length l)%nat -> nth i (list_set l i v) d = v.
Proof.
  revert i. induction l as [|x l IH]; intros [|i] H; cbn [length list_set nth] in *;
    try lia; [reflexivity|]. apply IH. lia.
Qed.

Lemma nth_list_set_other {A} (l : list A) (i j : nat) (v d : A) :
  i <> j -> nth j (list_set l i v) d = nth j l d.
Proof.
  revert i j. induction l as [|x l IH]; intros [|i] [|j] H; cbn [list_set nth];
    try reflexivity; try lia. apply IH. lia.
Qed.

Section PeerLists.

Variables (unique_outbound_filter_count : Z) (ip_interface_list : list nat).
Variable reference : list interface_t.

Hypothesis ip_interface_list_NoDup : NoDup ip_interface_list.
Hypothesis outbound_counted :
  Z.of_nat (length (filter (fun p => has_outbound (nth p reference zero_interface))
                      ip_interface_list))
  <= unique_outbound_filter_count.

(** What build_interface_peer_lists leaves in the interface at index [i]. *)
Let built (i : nat) (interface : interface_t) : Prop :=
  peer_list interface = filter (fun p => negb (Nat.eqb p i)) ip_interface_list /\
  peer_nofilter_count interface
  = Z.of_nat (length (filter (fun p => negb (has_outbound (nth p reference zero_interface)))
                        (peer_list interface))) /\
  NoDup (map addr (peer_filter_list interface)) /\
  (forall f, In f (peer_filter_list interface) ->
     exists p, In p (peer_list interface) /\
       outbound_filter_list (nth p reference zero_interface) = Some f) /\
  (forall p f, In p (peer_list interface) ->
     outbound_filter_list (nth p reference zero_interface) = Some f ->
     In (addr f) (map addr (peer_filter_list interface))).

Lemma build_peer_lists_loop_spec :
  forall todo configured,
    NoDup todo -> incl todo ip_interface_list ->
    length configured = length reference ->
    (forall i, outbound_filter_list (nth i configured zero_interface)
               = outbound_filter_list (nth i reference zero_interface)) ->
    (forall i, In i todo ->
       (i < length configured)%nat /\
       peer_list (nth i configured zero_interface) = [] /\
       peer_filter_list (nth i configured zero_interface) = [] /\
       peer_nofilter_count (nth i configured zero_interface) = 0) ->
    exists configured',
      build_peer_lists_loop unique_outbound_filter_count ip_interface_list todo configured
      = Some configured' /\
      length configured' = length reference /\
      forall i,
        inbound_filter_list (nth i configured' zero_interface)
        = inbound_filter_list (nth i configured zero_interface) /\
        outbound_filter_list (nth i configured' zero_interface)
        = outbound_filter_list (nth i reference zero_interface) /\
        if_index (nth i configured' zero_interface)
        = if_index (nth i configured zero_interface) /\
        (~ In i todo -> nth i configured' zero_interface = nth i configured zero_interface) /\
        (In i todo -> built i (nth i configured' zero_interface)).
Proof.
  induction todo as [|index todo IH]; intros configured Hnd Hincl Hlen Hout Hzero;
    cbn [build_peer_lists_loop].
  - exists configured. split; [reflexivity|]. split; [exact Hlen|].
    intros i. split; [reflexivity|]. split; [apply Hout|]. split; [reflexivity|].
    split; [reflexivity|intros []].
  - apply NoDup_cons_iff in Hnd as [Hnotin Hnd].
    destruct (Hzero index (or_introl eq_refl)) as (Hrange & Hp & Hf & Hn).
    assert (Hin : In index ip_interface_list) by (apply Hincl; now left).
    assert (Hext : forall (g : bool -> bool) (h : nat -> bool) l,
              filter (fun p => h p && g (has_outbound (nth p configured zero_interface))) l
              = filter (fun p => h p && g (has_outbound (nth p reference zero_interface))) l).
    { intros g h l. apply filter_ext. intros p. unfold has_outbound. now rewrite Hout. }
    destruct (add_peers_spec configured (Z.of_nat (length ip_interface_list) - 1)
                unique_outbound_filter_count index ip_interface_list
                (nth index configured zero_interface))
      as (i' & Hrun & H1 & H2 & H3 & H4 & H5 & H6 & H7 & H8 & H9).
    { rewrite Hp. cbn [length]. pose proof (length_filter_others index _
        ip_interface_list_NoDup Hin). lia. }
    { rewrite Hf. cbn [length].
      rewrite (Hext (fun b => b)).
      pose proof (length_filter_and (fun p => negb (Nat.eqb p index))
                    (fun p => has_outbound (nth p reference zero_interface))
                    ip_interface_list). lia. }
    { rewrite Hf. constructor. }
    rewrite Hrun.
    destruct (IH (list_set configured index i')) as (configured' & Hloop & Hlen' & Hall).
    + exact Hnd.
    + intros i Hi. apply Hincl. now right.
    + now rewrite length_list_set.
    + intros i. destruct (Nat.eq_dec index i) as [<-|Hne].
      * rewrite nth_list_set_same by exact Hrange. now rewrite H2.
      * rewrite nth_list_set_other by exact Hne. apply Hout.
    + intros i Hi. assert (index <> i) by (intros <-; contradiction).
      rewrite length_list_set, nth_list_set_other by assumption.
      apply Hzero. now right.
    + exists configured'. split; [exact Hloop|]. split; [exact Hlen'|].
      intros i. destruct (Hall i) as (A1 & A2 & A3 & A4 & A5).
      destruct (Nat.eq_dec index i) as [<-|Hne].
      * rewrite nth_list_set_same in A1, A3, A4 by exact Hrange.
        split; [congruence|]. split; [exact A2|]. split; [congruence|].
        split; [intros Hn'; exfalso; apply Hn'; now left|]. intros _.
        rewrite (A4 Hnotin). rewrite Hp, Hf, Hn in *. cbn [app] in *.
        unfold built. rewrite H4. repeat split.
        -- rewrite H5, (Hext negb), Z.add_0_l. f_equal.
           clear. induction ip_interface_list as [|p l IHl]; [reflexivity|].
           cbn [filter]. destruct (negb (Nat.eqb p index)); cbn [andb filter];
             [|exact IHl].
           destruct (negb (has_outbound _)); cbn [length]; now rewrite IHl.
        -- exact H6.
        -- intros f Hfin. destruct (H7 f Hfin) as [[]|(p & Hpin & Hps & Ho)].
           exists p. split; [|now rewrite <- Hout].
           apply filter_In. split; [exact Hpin|].
           now destruct (Nat.eqb_spec p index).
        -- intros p f Hpin Ho. apply filter_In in Hpin as [Hpin Hps].
           apply (H9 p f Hpin); [|now rewrite Hout].
           intros ->. rewrite Nat.eqb_refl in Hps. discriminate.
      * rewrite nth_list_set_other in A1, A3, A4 by exact Hne.
        split; [exact A1|]. split; [exact A2|]. split; [exact A3|]. split.
        -- intros Hn'. apply A4. intros Hi. apply Hn'. now right.
        -- intros [Hi|Hi]; [contradiction|]. now apply A5.
Qed.

End PeerLists.

(** What build_interface_peer_lists leaves in the peer lists. *)
Lemma build_interface_peer_lists_built (unique_outbound_filter_count : Z)
    (ip_interface_list : list nat) (configured : list interface_t) :
  NoDup ip_interface_list ->
  (forall i, In i ip_interface_list ->
     (i < length configured)%nat /\
     peer_list (nth i configured zero_interface) = [] /\
     peer_filter_list (nth i configured zero_interface) = [] /\
     peer_nofilter_count (nth i configured zero_interface) = 0) ->
  Z.of_nat (length (filter has_outbound configured)) <= unique_outbound_filter_count ->
  exists configured',
    build_interface_peer_lists unique_outbound_filter_count ip_interface_list configured
    = Some configured' /\
    length configured' = length configured /\
    forall i,
      let old := nth i configured zero_interface in
      let new := nth i configured' zero_interface in
      inbound_filter_list new = inbound_filter_list old /\
      outbound_filter_list new = outbound_filter_list old /\
      if_index new = if_index old /\
      (~ In i ip_interface_list -> new = old) /\
      (In i ip_interface_list ->
         peer_list new = filter (fun p => negb (Nat.eqb p i)) ip_interface_list /\
         peer_nofilter_count new
         = Z.of_nat (length (filter (fun p => negb (has_outbound
                                                      (nth p configured zero_interface)))
                               (peer_list new))) /\
         NoDup (map addr (peer_filter_list new)) /\
         (forall f, In f (peer_filter_list new) ->
            exists p, In p (peer_list new) /\
              outbound_filter_list (nth p configured zero_interface) = Some f) /\
         (forall p f, In p (peer_list new) ->
            outbound_filter_list (nth p configured zero_interface) = Some f ->
            In (addr f) (map addr (peer_filter_list new)))).
Proof.
  intros Hnd Hzero Hcount. unfold build_interface_peer_lists.
  apply (build_peer_lists_loop_spec unique_outbound_filter_count ip_interface_list
           configured Hnd).
  - pose proof (length_filter_indices has_outbound zero_interface configured
                  ip_interface_list Hnd (fun i Hi => proj1 (Hzero i Hi))). lia.
  - exact Hnd.
  - apply incl_refl.
  - reflexivity.
  - reflexivity.
  - exact Hzero.
Qed.

(** X23.  build_interface_peer_lists stays inside the arrays it allocates when
    [unique_outbound_filter_count] is at least the number of interfaces with
    an outbound filter list.  Every interface of the address family then has
    the other interfaces of the family as peers, in their order; its peer
    filter list holds the outbound filter list of each peer that has one,
    each address once; and [peer_nofilter_count] counts the peers that have
    none.  The other interfaces, and the filter lists and index of every
    interface, stay as they were. *)
Theorem build_interface_peer_lists_spec (unique_outbound_filter_count : Z)
    (ip_interface_list : list nat) (configured : list interface_t) :
  NoDup ip_interface_list ->
  (forall i, In i ip_interface_list ->
     (i < length configured)%nat /\
     peer_list (nth i configured zero_interface) = [] /\
     peer_filter_list (nth i configured zero_interface) = [] /\
     peer_nofilter_count (nth i configured zero_interface) = 0) ->
  Z.of_nat (length (filter has_outbound configured)) <= unique_outbound_filter_count ->
  exists configured',
    build_interface_peer_lists unique_outbound_filter_count ip_interface_list configured
    = Some configured' /\
    length configured' = length configured /\
    forall i,
      let old := nth i configured zero_interface in
      let new := nth i configured' zero_interface in
      inbound_filter_list new = inbound_filter_list old /\
      outbound_filter_list new = outbound_filter_list old /\
      if_index new = if_index old /\
      (~ In i ip_interface_list -> new = old) /\
      (In i ip_interface_list ->
         peer_list new = filter (fun p => negb (Nat.eqb p i)) ip_interface_list /\
         peer_nofilter_count new
         = Z.of_nat (length (filter (fun p => negb (has_outbound
                                                      (nth p configured zero_interface)))
                               (peer_list new))) /\
         NoDup (map addr (peer_filter_list new)) /\
         (forall f, In f (peer_filter_list new) ->
            exists p, In p (peer_list new) /\
              outbound_filter_list (nth p configured zero_interface) = Some f) /\
         (forall p f, In p (peer_list new) ->
            outbound_filter_list (nth p configured zero_interface) = Some f ->
            In (addr f) (map addr (peer_filter_list new)))).
Proof. intros. eapply build_interface_peer_lists_built; eassumption. Qed.

(** ** Who receive sends to *)

Lemma to_peer_send_to_peers g family interface packet want :
  map to_peer (send_to_peers g family interface packet want)
  = filter (fun p => match nth_error (configured_interface_list g) p with
                     | Some peer => filter_ptr_eqb (outbound_filter_list peer) want
                     | None => false
                     end) (peer_list interface).
Proof.
  unfold send_to_peers. induction (peer_list interface) as [|p l IH]; [reflexivity|].
  cbn [flat_map filter]. rewrite map_app, IH.
  destruct (nth_error (configured_interface_list g) p) as [peer|]; [|reflexivity].
  destruct (filter_ptr_eqb (outbound_filter_list peer) want); reflexivity.
Qed.

Lemma to_peer_forward_filtered g interface :
  forall filters ls ls' out,
    forward_filtered g filters ls interface = Some (ls', out) ->
    NoDup (peer_list interface) -> NoDup (map addr filters) ->
    NoDup (map to_peer out) /\
    forall p, In p (map to_peer out) ->
      In p (peer_list interface) /\
      exists peer f, nth_error (configured_interface_list g) p = Some peer /\
        outbound_filter_list peer = Some f /\ In (addr f) (map addr filters).
Proof.
  induction filters as [|fl filters IH]; intros ls ls' out; cbn [forward_filtered].
  - intros [= _ <-] _ _. split; [constructor|intros p []].
  - destruct (dns_encode_packet _ _ _ (Some fl)) as [[[r sp] st]|]; [|discriminate].
    destruct (forward_filtered g filters _ interface) as [[ls2 rest]|] eqn:E;
      [|discriminate].
    intros [= _ <-] Hpeers Hnd. cbn [map] in Hnd.
    apply NoDup_cons_iff in Hnd as [Hfresh Hnd].
    destruct (IH _ _ _ E Hpeers Hnd) as [Hrest Hin].
    assert (Hhere : forall p,
              In p (map to_peer (if r =? 0 then []
                                 else send_to_peers g (ip_type ls) interface sp (Some fl))) ->
              In p (peer_list interface) /\
              exists peer f, nth_error (configured_interface_list g) p = Some peer /\
                outbound_filter_list peer = Some f /\ addr f = addr fl).
    { intros p Hp. destruct (r =? 0); [destruct Hp|].
      cbn [ip_type] in Hp.
      rewrite to_peer_send_to_peers in Hp. apply filter_In in Hp as [Hp Hm].
      split; [exact Hp|].
      destruct (nth_error (configured_interface_list g) p) as [peer|]; [|discriminate].
      destruct (outbound_filter_list peer) as [f|] eqn:Ho; [|discriminate].
      exists peer, f. repeat split; auto. cbn [filter_ptr_eqb] in Hm.
      now apply Nat.eqb_eq in Hm. }
    rewrite map_app. split.
    + apply NoDup_app.
      * destruct (r =? 0); [constructor|]. rewrite to_peer_send_to_peers.
        now apply NoDup_filter.
      * exact Hrest.
      * intros p Hp Hp'. destruct (Hhere p Hp) as (_ & peer & f & Hn & Ho & Ha).
        destruct (Hin p Hp') as (_ & peer' & f' & Hn' & Ho' & Ha').
        rewrite Hn in Hn'. injection Hn' as <-. rewrite Ho in Ho'. injection Ho' as <-.
        apply Hfresh. now rewrite <- Ha.
    + intros p Hp. apply in_app_or in Hp as [Hp|Hp].
      * destruct (Hhere p Hp) as (Hpl & peer & f & Hn & Ho & Ha).
        split; [exact Hpl|]. exists peer, f. repeat split; auto. left. now symmetry.
      * destruct (Hin p Hp) as (Hpl & peer & f & Hn & Ho & Ha).
        split; [exact Hpl|]. exists peer, f. repeat split; auto. now right.
Qed.

(** The datagrams of one call of receive go to distinct peers of the interface. *)
Lemma receive_fan_out (g : globals) (ls : thread_local_storage_t)
    (interface : interface_t) (datagram : list byte)
    (ls' : thread_local_storage_t) (out : list sent) (tr : list event) :
  NoDup (peer_list interface) ->
  NoDup (map addr (peer_filter_list interface)) ->
  receive g ls interface (Some datagram) = Some (ls', out, tr) ->
  NoDup (map to_peer out) /\
  forall p, In p (map to_peer out) -> In p (peer_list interface).
Proof.
  intros Hpeers Hfilters. unfold receive.
  destruct (if filtering_enabled g then _ else _) as [[r st] tr0].
  destruct (r =? 0); [intros [= _ <- _]; split; [constructor|intros p []]|].
  destruct (forward_nofilter g _ interface) as [[ls1 out1]|] eqn:E1; [|discriminate].
  destruct (forward_filtered g _ ls1 interface) as [[ls2 out2]|] eqn:E2; [|discriminate].
  intros [= _ <- _].
  destruct (to_peer_forward_filtered _ _ _ _ _ _ E2 Hpeers Hfilters) as [Hnd2 Hin2].
  assert (Hout1 : NoDup (map to_peer out1) /\
                  forall p, In p (map to_peer out1) ->
                    In p (peer_list interface) /\
                    exists peer, nth_error (configured_interface_list g) p = Some peer /\
                      outbound_filter_list peer = None).
  { assert (Hsend : forall packet,
              NoDup (map to_peer (send_to_peers g (ip_type ls) interface packet None)) /\
              forall p, In p (map to_peer (send_to_peers g (ip_type ls) interface packet None)) ->
                In p (peer_list interface) /\
                exists peer, nth_error (configured_interface_list g) p = Some peer /\
                  outbound_filter_list peer = None).
    { intros packet. rewrite to_peer_send_to_peers. split; [now apply NoDup_filter|].
      intros p Hp. apply filter_In in Hp as [Hp Hm]. split; [exact Hp|].
      destruct (nth_error (configured_interface_list g) p) as [peer|]; [|discriminate].
      exists peer. split; [reflexivity|].
      destruct (outbound_filter_list peer); [discriminate|reflexivity]. }
    unfold forward_nofilter in E1. cbn [ip_type dns_state recv_packet send_packet] in E1.
    destruct (negb _); [|injection E1 as _ <-; split; [constructor|intros p []]].
    destruct (global_filter_list g), (inbound_filter_list interface);
      try (destruct (dns_encode_packet _ _ _ None) as [[[r1 sp1] st1]|]; [|discriminate]);
      injection E1 as _ <-; apply Hsend. }
  destruct Hout1 as [Hnd1 Hin1]. rewrite map_app. split.
  - apply NoDup_app; [exact Hnd1|exact Hnd2|].
    intros p Hp Hp'. destruct (Hin1 p Hp) as (_ & peer & Hn & Ho).
    destruct (Hin2 p Hp') as (_ & peer' & f & Hn' & Ho' & _). congruence.
  - intros p Hp. apply in_app_or in Hp as [Hp|Hp]; [apply (Hin1 p Hp)|apply (Hin2 p Hp)].
Qed.

(** X24.  receive sends a received datagram to peers of the interface only, to
    each of them at most once, and so never back to the interface itself,
    which is not among its peers. *)
Theorem receive_each_peer_once (g : globals) (ls : thread_local_storage_t)
    (interface : interface_t) (datagram : list byte)
    (ls' : thread_local_storage_t) (out : list sent) (tr : list event) :
  NoDup (peer_list interface) ->
  NoDup (map addr (peer_filter_list interface)) ->
  receive g ls interface (Some datagram) = Some (ls', out, tr) ->
  NoDup (map to_peer out) /\
  forall p, In p (map to_peer out) -> In p (peer_list interface).
Proof. intros. eapply receive_fan_out; eassumption. Qed.

Lemma build_interface_peer_lists_spec_witness :
  exists configured',
    build_interface_peer_lists 2 [0; 1; 2]%nat three_interfaces = Some configured' /\
    length configured' = length three_interfaces /\
    peer_list (nth 0 configured' zero_interface) = [1; 2]%nat /\
    NoDup (map addr (peer_filter_list (nth 0 configured' zero_interface))).
Proof.
  destruct (build_interface_peer_lists_spec 2 [0; 1; 2]%nat three_interfaces)
    as (configured' & Hrun & Hlen & Hall).
  - repeat constructor; cbn; lia.
  - intros i [<-|[<-|[<-|[]]]]; cbn; repeat split; lia.
  - vm_compute. discriminate.
  - exists configured'. split; [exact Hrun|]. split; [exact Hlen|].
    destruct (Hall 0%nat) as (_ & _ & _ & _ & H). destruct H as (H1 & _ & H3 & _).
    + now left.
    + split; [exact H1|exact H3].
Defined.

Lemma receive_each_peer_once_witness :
  match receive global_deny_ssh fresh_storage interface_a (Some (datagram two_queries)) with
  | Some (_, out, _) =>
      NoDup (map to_peer out) /\
      forall p, In p (map to_peer out) -> In p (peer_list interface_a)
  | None => True
  end.
Proof.
  destruct (receive global_deny_ssh fresh_storage interface_a (Some (datagram two_queries)))
    as [[[ls' out] tr]|] eqn:E; [|exact I].
  refine (receive_each_peer_once _ _ _ _ ls' out tr _ _ E).
  - repeat constructor. intros [].
  - constructor.
Defined.

(** X25.  On the interfaces that build_interface_peer_lists has set up, receive
    sends a datagram that arrived on an interface of the address family to
    other interfaces of the family only, and to each at most once. *)
Theorem receive_after_build (unique_outbound_filter_count : Z)
    (ip_interface_list : list nat) (configured configured' : list interface_t)
    (g : globals) (ls : thread_local_storage_t) (i : nat) (datagram : list byte)
    (ls' : thread_local_storage_t) (out : list sent) (tr : list event) :
  NoDup ip_interface_list ->
  (forall j, In j ip_interface_list ->
     (j < length configured)%nat /\
     peer_list (nth j configured zero_interface) = [] /\
     peer_filter_list (nth j configured zero_interface) = [] /\
     peer_nofilter_count (nth j configured zero_interface) = 0) ->
  Z.of_nat (length (filter has_outbound configured)) <= unique_outbound_filter_count ->
  build_interface_peer_lists unique_outbound_filter_count ip_interface_list configured
  = Some configured' ->
  In i ip_interface_list ->
  receive g ls (nth i configured' zero_interface) (Some datagram) = Some (ls', out, tr) ->
  NoDup (map to_peer out) /\
  forall p, In p (map to_peer out) -> In p ip_interface_list /\ p <> i.
Proof.
  intros Hnd Hzero Hcount Hbuild Hi Hrecv.
  destruct (build_interface_peer_lists_built _ _ _ Hnd Hzero Hcount)
    as (c & Hrun & _ & Hall).
  rewrite Hbuild in Hrun. injection Hrun as <-.
  destruct (Hall i) as (_ & _ & _ & _ & H). destruct (H Hi) as (Hpeers & _ & Hfilters & _).
  destruct (receive_fan_out g ls (nth i configured' zero_interface) datagram
              ls' out tr) as [H1 H2]; try assumption.
  - rewrite Hpeers. now apply NoDup_filter.
  - split; [exact H1|]. intros p Hp. specialize (H2 p Hp). rewrite Hpeers in H2.
    apply filter_In in H2 as [H2 Hne]. split; [exact H2|].
    intros ->. rewrite Nat.eqb_refl in Hne. discriminate.
Qed.

Lemma receive_after_build_witness :
  match build_interface_peer_lists 2 [0; 1; 2]%nat three_interfaces with
  | Some configured' =>
      match receive (mk_globals false true (Some deny_ssh) configured') fresh_storage
              (nth 0 configured' zero_interface) (Some (datagram two_queries)) with
      | Some (_, out, _) =>
          NoDup (map to_peer out) /\
          forall p, In p (map to_peer out) -> In p [0; 1; 2]%nat /\ p <> 0%nat
      | None => True
      end
  | None => True
  end.
Proof.
  destruct (build_interface_peer_lists 2 [0; 1; 2]%nat three_interfaces)
    as [configured'|] eqn:B; [|exact I].
  destruct (receive _ fresh_storage _ (Some (datagram two_queries)))
    as [[[ls' out] tr]|] eqn:E; [|exact I].
  refine (receive_after_build 2 [0; 1; 2]%nat three_interfaces configured' _ _ 0
            _ ls' out tr _ _ _ B _ E).
  - repeat constructor; cbn; lia.
  - intros i [<-|[<-|[<-|[]]]]; cbn; repeat split; lia.
  - vm_compute. discriminate.
  - now left.
Defined.



(** ** The size of a re-encoded packet *)

(** The decoder accepts the 967 bytes of [amplified]; encoded again, they
    take 9180 bytes, and dns_encode_packet stores past the 9000 bytes of
    [send_packet->buffer]. *)
Lemma amplified_overruns :
  Z.of_nat (length (datagram amplified)) = 967 /\
  Z.of_nat (length (buffer blank_packet)) = MDNS_MAX_PACKET_SIZE /\
  match dns_decode_packet global_deny_ssh (dns_state_create true) (received amplified)
          interface_a with
  | (r, state, tr) =>
      r = 967 /\ filter is_log tr = [] /\
      dns_encode_packet state (received amplified) blank_packet None = None /\
      exists send_packet' state',
        dns_encode_packet state (received amplified) wide_packet None
        = Some (9180, send_packet', state')
  end /\
  receive global_deny_ssh fresh_storage interface_a (Some (datagram amplified)) = None.
Proof.
  split; [reflexivity|]. split; [reflexivity|]. split.
  - vm_compute. split; [reflexivity|]. split; [reflexivity|]. split; [reflexivity|].
    eexists. eexists. reflexivity.
  - vm_compute. reflexivity.
Qed.

(** X8.  The encoder does not check what it stores against the size of the send
    buffer, and a re-encoded packet can be larger than the received one:
    there is a datagram of no more than 9000 bytes that the decoder accepts
    without a log line and whose encoding takes more than 9000 bytes, so
    that dns_encode_packet stores past the end of [send_packet->buffer] and
    receive has no defined result. *)
Theorem encoder_overruns_send_buffer :
  exists (g : globals) (interface : interface_t) (received_bytes : list byte),
    Z.of_nat (length received_bytes) <= MDNS_MAX_PACKET_SIZE /\
    Z.of_nat (length (buffer blank_packet)) = MDNS_MAX_PACKET_SIZE /\
    (exists state tr,
       dns_decode_packet g (dns_state_create true)
         (recvfrom blank_packet received_bytes) interface
       = (Z.of_nat (length received_bytes), state, tr) /\
       filter is_log tr = [] /\
       dns_encode_packet state (recvfrom blank_packet received_bytes) blank_packet None
       = None /\
       exists encoded send_packet' state',
         dns_encode_packet state (recvfrom blank_packet received_bytes) wide_packet None
         = Some (encoded, send_packet', state') /\
         encoded > MDNS_MAX_PACKET_SIZE) /\
    receive g fresh_storage interface (Some received_bytes) = None.
Proof.
  destruct amplified_overruns as (Hlen & Hbuffer & Hrun & Hreceive).
  exists global_deny_ssh, interface_a, (datagram amplified).
  split; [rewrite Hlen; unfold MDNS_MAX_PACKET_SIZE; lia|]. split; [exact Hbuffer|].
  split; [|exact Hreceive].
  fold (received amplified).
  destruct (dns_decode_packet global_deny_ssh (dns_state_create true) (received amplified)
              interface_a) as [[r state] tr].
  destruct Hrun as (Hr & Hlog & Hnone & send_packet' & state' & Hwide).
  exists state, tr. rewrite Hlen, <- Hr. split; [reflexivity|]. split; [exact Hlog|].
  split; [exact Hnone|]. exists 9180, send_packet', state'.
  split; [exact Hwide|]. unfold MDNS_MAX_PACKET_SIZE. lia.
Qed.

(** ** What the encoder leaves of the state *)



(** ** The queries and records that the decoder keeps *)

Lemma cells_nil {A} (d : A) l off : cells d l off 0 = [].
Proof. reflexivity. Qed.

Lemma cells_snoc {A} (d : A) l n :
  0 <= n -> cells d l 0 (n + 1) = cells d l 0 n ++ [nth (Z.to_nat n) l d].
Proof.
  intros Hn. unfold cells.
  replace (Z.to_nat (n + 1)) with (Z.to_nat n + 1)%nat by lia.
  rewrite seq_app, map_app. reflexivity.
Qed.

Lemma cells_list_set_below {A} (d : A) l i v n :
  n <= Z.of_nat i -> cells d (list_set l i v) 0 n = cells d l 0 n.
Proof.
  intros Hn. unfold cells. apply map_ext_in. intros k Hk. apply in_seq in Hk.
  rewrite nth_list_set. destruct (Nat.eqb_spec (Z.to_nat 0 + k) i); [lia|reflexivity].
Qed.

Lemma cells_app_tail {A} (d : A) l (pre : list A) n (m : nat) kept :
  0 <= n -> length pre = Z.to_nat n -> length kept = m ->
  cells d l 0 (n + Z.of_nat m) = pre ++ kept ->
  cells d l n (Z.of_nat m) = kept.
Proof.
  intros Hn Hpre Hkept H. apply (nth_ext _ _ d d).
  - rewrite cells_length. lia.
  - intros k Hk. rewrite cells_length in Hk. rewrite nth_cells by exact Hk.
    replace (nth k kept d) with (nth (Z.to_nat n + k) (pre ++ kept) d)
      by (rewrite app_nth2 by lia; f_equal; lia).
    rewrite <- H, nth_cells by lia. reflexivity.
Qed.

Lemma sec_set_get a s : sec_set a s (sec_get a s) = a.
Proof. destruct a, s; reflexivity. Qed.

Lemma sec_set_set a s v w : sec_set (sec_set a s v) s w = sec_set a s w.
Proof. destruct a, s; reflexivity. Qed.

Lemma sec_get_set a s v : sec_get (sec_set a s v) s = v.
Proof. destruct a, s; reflexivity. Qed.

Lemma queries_kept_refl g interface count st st' :
  query_count st' = query_count st ->
  cells zero_query (query_list st') 0 (query_count st)
  = cells zero_query (query_list st) 0 (query_count st) ->
  length (query_list st') = length (query_list st) ->
  outside_queries st' = outside_queries st ->
  queries_kept g interface count st st'.
Proof.
  intros Hq Hc Hl Ho. exists []. cbn [length Z.of_nat]. rewrite app_nil_r, Z.add_0_r, Hq.
  repeat split; auto. lia.
Qed.

Lemma queries_kept_store g interface count st query :
  queries_kept g interface count st (store_query st query).
Proof.
  apply queries_kept_refl; try reflexivity.
  - cbn [store_query set_query_list query_list]. apply cells_list_set_below. lia.
  - cbn [store_query set_query_list query_list]. apply length_list_set.
Qed.

Lemma queries_kept_step g interface count st query (allowed : bool) st' :
  0 <= query_count st < Z.of_nat (length (query_list st)) ->
  (allowed = true -> query_kept_ok g interface query) ->
  queries_kept g interface count
    (if allowed then set_query_count (store_query st query) (query_count st + 1)
     else store_query st query) st' ->
  queries_kept g interface (S count) st st'.
Proof.
  intros Hroom Hok (kept & Hkept & Hlen & Hq & Hcells & Hl & Hout).
  destruct allowed.
  - exists (query :: kept).
    cbn [set_query_count store_query set_query_list query_count query_list] in *.
    rewrite length_list_set in Hl.
    assert (Hnew : cells zero_query
                     (list_set (query_list st) (Z.to_nat (query_count st)) query) 0
                     (query_count st + 1)
                   = cells zero_query (query_list st) 0 (query_count st) ++ [query]).
    { rewrite cells_snoc by lia. rewrite cells_list_set_below by lia. f_equal. f_equal.
      rewrite nth_list_set, Nat.eqb_refl.
      destruct (Nat.ltb_spec (Z.to_nat (query_count st)) (length (query_list st)));
        [reflexivity|lia]. }
    rewrite Hnew, <- app_assoc in Hcells. cbn [length app] in *.
    split; [constructor; auto|]. split; [lia|]. split; [lia|]. split; [exact Hcells|].
    split; [exact Hl|exact Hout].
  - exists kept.
    cbn [store_query set_query_list query_count query_list] in *.
    rewrite length_list_set in Hl. rewrite cells_list_set_below in Hcells by lia.
    split; [exact Hkept|]. split; [lia|]. split; [exact Hq|]. split; [exact Hcells|].
    split; [exact Hl|exact Hout].
Qed.

Lemma dns_decode_queries_kept g interface packet count :
  forall st packet_offset tr r st' tr',
    dns_decode_queries g count st interface packet packet_offset tr = (r, st', tr') ->
    0 <= query_count st ->
    query_count st + Z.of_nat count <= Z.of_nat (length (query_list st)) ->
    queries_kept g interface count st st'.
Proof.
  induction count as [|count IH]; intros st off tr r st' tr' Hrun Hq Hroom;
    cbn [dns_decode_queries] in Hrun.
  - injection Hrun as _ <- _. now apply queries_kept_refl.
  - destruct (dns_decode_name packet off _) as [[o name] ev].
    destruct (o =? 0); [injection Hrun as _ <- _; apply queries_kept_store|].
    destruct (o + sizeof_dns_query_header_t >? bytes packet);
      [injection Hrun as _ <- _; apply queries_kept_store|].
    set (type := get16 (buffer packet) o) in *.
    set (query := mk_query o type name) in *.
    destruct (match decode_query_filter type with
              | filter_owner => _ | unsupported => _ | _ => _ end)
      as [allowed tr1] eqn:Hallowed.
    apply (queries_kept_step g interface count st query allowed); [lia| |].
    + intros ->. unfold query_kept_ok. cbn [q_type q_name query].
      destruct (decode_query_filter type); try exact I.
      * now injection Hallowed as ->.
      * discriminate.
    + assert (Hst : (if allowed
                     then set_query_count (store_query st query)
                            (query_count (store_query st query) + 1)
                     else store_query st query)
                    = (if allowed
                       then set_query_count (store_query st query) (query_count st + 1)
                       else store_query st query)) by reflexivity.
      rewrite Hst in Hrun. eapply IH; [exact Hrun| |].
      * destruct allowed; cbn; lia.
      * destruct allowed; cbn [set_query_count store_query set_query_list query_count
                               query_list]; rewrite length_list_set; lia.
Qed.

Lemma rrs_kept_refl g interface s count st st' :
  total_rr_count st' = total_rr_count st ->
  rr_count st' = rr_count st ->
  cells zero_rr (rr_list st') 0 (total_rr_count st)
  = cells zero_rr (rr_list st) 0 (total_rr_count st) ->
  length (rr_list st') = length (rr_list st) ->
  outside_rrs st' = outside_rrs st ->
  rrs_kept g interface s count st st'.
Proof.
  intros Ht Hc Hcells Hl Ho. exists []. cbn [length Z.of_nat].
  rewrite app_nil_r, !Z.add_0_r, Ht, Hc, sec_set_get.
  repeat split; auto. lia.
Qed.

Lemma rrs_kept_store g interface s count st rr :
  rrs_kept g interface s count st (store_rr st rr).
Proof.
  apply rrs_kept_refl; try reflexivity.
  - cbn [store_rr set_rr_list rr_list]. apply cells_list_set_below. lia.
  - cbn [store_rr set_rr_list rr_list]. apply length_list_set.
Qed.

Lemma rrs_kept_step g interface s count st rr (allowed : bool) st' :
  0 <= total_rr_count st < Z.of_nat (length (rr_list st)) ->
  (allowed = true -> rr_kept_ok g interface rr) ->
  rrs_kept g interface s count
    (if allowed
     then set_rr_counts (store_rr st rr)
            (sec_set (rr_count st) s (sec_get (rr_count st) s + 1))
            (total_rr_count st + 1)
     else store_rr st rr) st' ->
  rrs_kept g interface s (S count) st st'.
Proof.
  intros Hroom Hok (kept & Hkept & Hlen & Ht & Hc & Hcells & Hl & Hout).
  destruct allowed.
  - exists (rr :: kept).
    cbn [set_rr_counts store_rr set_rr_list total_rr_count rr_count rr_list] in *.
    rewrite length_list_set in Hl.
    assert (Hnew : cells zero_rr
                     (list_set (rr_list st) (Z.to_nat (total_rr_count st)) rr) 0
                     (total_rr_count st + 1)
                   = cells zero_rr (rr_list st) 0 (total_rr_count st) ++ [rr]).
    { rewrite cells_snoc by lia. rewrite cells_list_set_below by lia. f_equal. f_equal.
      rewrite nth_list_set, Nat.eqb_refl.
      destruct (Nat.ltb_spec (Z.to_nat (total_rr_count st)) (length (rr_list st)));
        [reflexivity|lia]. }
    rewrite Hnew, <- app_assoc in Hcells. rewrite sec_set_set, sec_get_set in Hc.
    cbn [length app] in *.
    split; [constructor; auto|]. split; [lia|]. split; [lia|]. split.
    { rewrite Hc. f_equal. lia. }
    split; [exact Hcells|]. split; [exact Hl|exact Hout].
  - exists kept.
    cbn [store_rr set_rr_list total_rr_count rr_count rr_list] in *.
    rewrite length_list_set in Hl. rewrite cells_list_set_below in Hcells by lia.
    split; [exact Hkept|]. split; [lia|]. split; [exact Ht|]. split; [exact Hc|].
    split; [exact Hcells|]. split; [exact Hl|exact Hout].
Qed.

Lemma rr_kept_ok_same g interface rr rr' :
  rr_kept_ok g interface rr ->
  rr_type rr' = rr_type rr -> rr_name rr' = rr_name rr ->
  (decode_rr_filter (rr_type rr) = filter_rdata -> rdata_name rr' = rdata_name rr) ->
  rr_kept_ok g interface rr'.
Proof.
  unfold rr_kept_ok. intros Hok -> -> Hr.
  destruct (decode_rr_filter (rr_type rr)); auto. now rewrite Hr.
Qed.

Ltac stored_only H :=
  apply (f_equal (fun x => snd (fst x))) in H; cbn [fst snd] in H; subst;
  apply rrs_kept_store.

Lemma dns_decode_rrs_loop_kept g interface packet s count :
  forall st packet_offset tr r st' tr',
    dns_decode_rrs_loop g count st s interface packet packet_offset tr = (r, st', tr') ->
    0 <= total_rr_count st ->
    total_rr_count st + Z.of_nat count <= Z.of_nat (length (rr_list st)) ->
    rrs_kept g interface s count st st'.
Proof.
  induction count as [|count IH]; intros st off tr r st' tr' Hrun Ht Hroom;
    cbn [dns_decode_rrs_loop] in Hrun.
  - injection Hrun as _ <- _. now apply rrs_kept_refl.
  - destruct (dns_decode_name packet off _) as [[o name] ev].
    destruct (o =? 0); [stored_only Hrun|].
    destruct (o + sizeof_dns_rr_header_t >? bytes packet);
      [stored_only Hrun|].
    destruct ((get16 (buffer packet) (o + 8) =? 0) || _);
      [stored_only Hrun|].
    set (type := get16 (buffer packet) o) in *.
    set (data_len := get16 (buffer packet) (o + 8)) in *.
    set (rr0 := nth (Z.to_nat (total_rr_count st)) (rr_list st) zero_rr) in *.
    destruct (match decode_rr_filter type with
              | filter_owner => _ | filter_rdata => _
              | not_filtered => _ | unsupported => _ end)
      as [[[failed allowed] rr1] tr1] eqn:Hstage1.
    assert (H1 : failed = false ->
                 rr_type rr1 = type /\ rr_name rr1 = name /\
                 (allowed = true -> rr_kept_ok g interface rr1)).
    { clear Hrun IH. intros ->. unfold rr_kept_ok.
      destruct (decode_rr_filter type) eqn:Hf.
      - injection Hstage1 as <- <- _. cbn [rr_type rr_name]. rewrite Hf. auto.
      - destruct (dns_decode_name packet _ _) as [[t rname] ev2].
        destruct (negb _); [discriminate|].
        injection Hstage1 as <- <- _. cbn [rr_type rr_name rdata_name]. rewrite Hf. auto.
      - injection Hstage1 as _ <- _. cbn [rr_type rr_name]. rewrite Hf. auto.
      - injection Hstage1 as <- <- _. cbn [rr_type rr_name].
        split; [reflexivity|]. split; [reflexivity|discriminate]. }
    clear Hstage1. destruct failed; [stored_only Hrun|].
    destruct (H1 eq_refl) as (Htype & Hname1 & Hok1). clear H1.
    destruct (if allowed && (type =? DNS_TYPE_SRV) then _ else _)
      as [[failed2 rr2] tr2] eqn:Hstage2.
    assert (H2 : failed2 = false ->
                 rr_type rr2 = type /\ rr_name rr2 = rr_name rr1 /\
                 (decode_rr_filter type = filter_rdata -> rdata_name rr2 = rdata_name rr1)).
    { clear Hrun IH. intros ->. destruct (allowed && (type =? DNS_TYPE_SRV)) eqn:Hsrv.
      - apply andb_true_iff in Hsrv as [_ Hsrv]. apply Z.eqb_eq in Hsrv.
        destruct (dns_decode_name packet _ _) as [[t rname] ev2].
        destruct (negb _); [discriminate|]. injection Hstage2 as <- _.
        cbn [rr_type rr_name]. split; [reflexivity|]. split; [now rewrite Hname1|].
        rewrite Hsrv. discriminate.
      - destruct (allowed && (type =? DNS_TYPE_NSEC)) eqn:Hnsec.
        + apply andb_true_iff in Hnsec as [_ Hnsec]. apply Z.eqb_eq in Hnsec.
          destruct (dns_decode_name packet _ _) as [[t rname] ev2].
          destruct (_ >? _); [discriminate|]. injection Hstage2 as <- _.
          cbn [rr_type rr_name]. split; [reflexivity|]. split; [now rewrite Hname1|].
          rewrite Hnsec. discriminate.
        + injection Hstage2 as <- _. auto. }
    clear Hstage2. destruct failed2; [stored_only Hrun|].
    destruct (H2 eq_refl) as (Htype2 & Hname2 & Hrdata2). clear H2.
    apply (rrs_kept_step g interface s count st rr2 allowed); [lia| |].
    + intros Ha. apply (rr_kept_ok_same g interface rr1); auto; try congruence.
      rewrite Htype. exact Hrdata2.
    + eapply IH; [exact Hrun| |].
      * destruct allowed; cbn; lia.
      * destruct allowed; cbn [set_rr_counts store_rr set_rr_list total_rr_count rr_list];
          rewrite length_list_set; lia.
Qed.

Lemma cells_prefix {A} (d : A) l n m (a b : list A) :
  0 <= n -> 0 <= m -> length a = Z.to_nat n ->
  cells d l 0 (n + m) = a ++ b -> cells d l 0 n = a.
Proof.
  intros Hn Hm Ha H. apply (nth_ext _ _ d d); [rewrite cells_length; lia|].
  intros k Hk. rewrite cells_length in Hk. rewrite nth_cells by exact Hk.
  rewrite <- (app_nth1 a b) by lia. rewrite <- H, nth_cells by lia. reflexivity.
Qed.

Lemma cells_middle {A} (d : A) l n (a b c : list A) :
  0 <= n -> length a = Z.to_nat n ->
  cells d l 0 (n + Z.of_nat (length b) + Z.of_nat (length c)) = a ++ b ++ c ->
  cells d l n (Z.of_nat (length b)) = b.
Proof.
  intros Hn Ha H. apply (cells_app_tail d l a n (length b) b Hn Ha eq_refl).
  rewrite app_assoc in H.
  apply (cells_prefix d l (n + Z.of_nat (length b)) (Z.of_nat (length c)) (a ++ b) c);
    try lia; [rewrite length_app; lia|exact H].
Qed.

Lemma sec_get_set_other a s s' v : s' <> s -> sec_get (sec_set a s v) s' = sec_get a s'.
Proof. destruct a, s, s'; intros H; try reflexivity; contradiction. Qed.

Lemma length_grow {A} (l : list A) n d :
  Z.of_nat (length l) < n -> Z.of_nat (length (grow l n d)) = n.
Proof. intros H. unfold grow. rewrite length_app, repeat_length. lia. Qed.

Ltac header_cbn H :=
  cbn [set_recv_counts set_query_list set_rr_list recv_query_count recv_rr_count
       allocated_query_count allocated_rr_count heap_ok query_list rr_list
       sec_get at_answer at_authority at_additional] in H.

Ltac header_done H :=
  injection H as <- <- _; cbn; rewrite ?length_grow by lia;
  repeat split; auto; try contradiction; try lia;
  try (intros s; destruct s; cbn; lia).

Lemma dns_decode_header_lists st packet r st1 tr :
  dns_decode_header st packet = (r, st1, tr) ->
  lists_allocated st ->
  lists_allocated st1 /\
  query_count st1 = query_count st /\ rr_count st1 = rr_count st /\
  total_rr_count st1 = total_rr_count st /\
  (r <> 0 ->
   0 <= recv_query_count st1 <= Z.of_nat (length (query_list st1)) /\
   (forall s, 0 <= sec_get (recv_rr_count st1) s) /\
   sec_get (recv_rr_count st1) RR_ANSWER + sec_get (recv_rr_count st1) RR_AUTHORITY
   + sec_get (recv_rr_count st1) RR_ADDITIONAL <= Z.of_nat (length (rr_list st1))).
Proof.
  unfold dns_decode_header, lists_allocated. intros H [Hq Hr].
  pose proof (get16_range (buffer packet) 4). pose proof (get16_range (buffer packet) 6).
  pose proof (get16_range (buffer packet) 8). pose proof (get16_range (buffer packet) 10).
  destruct (bytes packet <? sizeof_dns_header_t); [header_done H|].
  header_cbn H. destruct (heap_ok st) eqn:Hh.
  all: destruct (Z.gtb_spec (get16 (buffer packet) 4) (allocated_query_count st))
         as [Hgq|Hgq]; cbn [andb negb] in H.
  all: try (destruct (get16 (buffer packet) 4 >? MAX_QUERY_COUNT); [header_done H|]).
  all: header_cbn H; rewrite ?Hh in H; cbn [andb negb] in H; try solve [header_done H].
  all: destruct (Z.gtb_spec (get16 (buffer packet) 6 + get16 (buffer packet) 8
                             + get16 (buffer packet) 10) (allocated_rr_count st))
         as [Hgr|Hgr]; cbn [andb negb] in H.
  all: try (destruct (_ >? MAX_RESOURCE_COUNT); [header_done H|]).
  all: header_cbn H; rewrite ?Hh in H; cbn [andb negb] in H; header_done H.
Qed.

Lemma section_kept g interface packet s r st tr r' st' tr' :
  (if negb (r =? 0) && negb (sec_get (recv_rr_count st) s =? 0)
   then dns_decode_rrs g st s (sec_get (recv_rr_count st) s) interface packet r tr
   else (r, st, tr)) = (r', st', tr') ->
  0 <= total_rr_count st ->
  (r <> 0 ->
   0 <= sec_get (recv_rr_count st) s /\
   total_rr_count st + sec_get (recv_rr_count st) s <= Z.of_nat (length (rr_list st))) ->
  (r' <> 0 -> r <> 0) /\
  exists kept,
    Forall (rr_kept_ok g interface) kept /\
    Z.of_nat (length kept) <= Z.max 0 (sec_get (recv_rr_count st) s) /\
    (total_rr_count st <= Z.of_nat (length (rr_list st)) ->
     total_rr_count st + Z.of_nat (length kept) <= Z.of_nat (length (rr_list st))) /\
    (kept <> [] -> sec_get (rr_index st') s = total_rr_count st) /\
    total_rr_count st' = total_rr_count st + Z.of_nat (length kept) /\
    rr_count st'
    = sec_set (rr_count st) s (sec_get (rr_count st) s + Z.of_nat (length kept)) /\
    cells zero_rr (rr_list st') 0 (total_rr_count st')
    = cells zero_rr (rr_list st) 0 (total_rr_count st) ++ kept /\
    length (rr_list st') = length (rr_list st) /\
    (forall s', s' <> s -> sec_get (rr_index st') s' = sec_get (rr_index st) s') /\
    recv_rr_count st' = recv_rr_count st /\
    query_count st' = query_count st /\ query_list st' = query_list st /\
    allocated_query_count st' = allocated_query_count st /\
    allocated_rr_count st' = allocated_rr_count st.
Proof.
  intros Hrun Ht Hroom.
  destruct (Z.eqb_spec r 0) as [Hr|Hr]; cbn [negb andb] in Hrun.
  - injection Hrun as <- <- _. split; [auto|]. exists []. cbn [length Z.of_nat].
    rewrite app_nil_r, !Z.add_0_r, sec_set_get.
    repeat split; auto; try lia. intros H; contradiction.
  - destruct (Hroom Hr) as [Hpos Hfit].
    destruct (negb _).
    + split; [auto|]. unfold dns_decode_rrs in Hrun.
      apply dns_decode_rrs_loop_kept in Hrun;
        cbn [set_rr_index total_rr_count rr_list]; try lia.
      destruct Hrun as (kept & Hok & Hlen & Htot & Hcount & Hcells & Hl & Hout).
      cbn [set_rr_index total_rr_count rr_list rr_count] in *.
      unfold outside_rrs in Hout.
      cbn [set_rr_index recv_query_count recv_rr_count query_count rr_index
           allocated_query_count allocated_rr_count query_list used_clist_count
           allocated_clist_count clist heap_ok] in Hout.
      injection Hout as _ Hrecv Hq Hidx Haq Har Hql _ _ _ _.
      exists kept. rewrite Hidx.
      repeat split; auto; try lia.
      * intros _. apply sec_get_set.
      * intros s' Hs'. now apply sec_get_set_other.
    + injection Hrun as <- <- _. split; [auto|]. exists []. cbn [length Z.of_nat].
      rewrite app_nil_r, !Z.add_0_r, sec_set_get.
      repeat split; auto; try lia. intros H; contradiction.
Qed.

(** What dns_decode_packet leaves in a state whose arrays are as long as
    their allocated counts say. *)
Lemma dns_decode_packet_kept g st packet interface r st' tr :
  dns_decode_packet g st packet interface = (r, st', tr) ->
  lists_allocated st ->
  lists_allocated st' /\
  exists kq ka ku kd,
    Forall (query_kept_ok g interface) kq /\
    Forall (rr_kept_ok g interface) ka /\
    Forall (rr_kept_ok g interface) ku /\
    Forall (rr_kept_ok g interface) kd /\
    query_count st' = Z.of_nat (length kq) /\
    cells zero_query (query_list st') 0 (query_count st') = kq /\
    rr_count st'
    = mk_per_section (Z.of_nat (length ka)) (Z.of_nat (length ku)) (Z.of_nat (length kd)) /\
    total_rr_count st'
    = Z.of_nat (length ka) + Z.of_nat (length ku) + Z.of_nat (length kd) /\
    cells zero_rr (rr_list st') 0 (total_rr_count st') = ka ++ ku ++ kd /\
    section_rrs st' RR_ANSWER = ka /\
    section_rrs st' RR_AUTHORITY = ku /\
    section_rrs st' RR_ADDITIONAL = kd /\
    query_count st' <= Z.of_nat (length (query_list st')) /\
    total_rr_count st' <= Z.of_nat (length (rr_list st')).
Proof.
  unfold dns_decode_packet. intros Hrun Halloc.
  destruct (dns_decode_header _ packet) as [[r0 st1] tr0] eqn:E0.
  apply dns_decode_header_lists in E0; [|exact Halloc].
  cbn [set_rr_counts set_query_count query_count rr_count total_rr_count] in E0.
  destruct E0 as (Halloc1 & Hq1 & Hc1 & Ht1 & Hhead).
  destruct (if negb (r0 =? 0) && negb (recv_query_count st1 =? 0) then _ else _)
    as [[r1 st2] tr1] eqn:E1.
  assert (Hqueries : queries_kept g interface (Z.to_nat (recv_query_count st1)) st1 st2 /\
                     (r1 <> 0 -> r0 <> 0) /\
                     query_count st2 <= Z.of_nat (length (query_list st2))).
  { destruct (Z.eqb_spec r0 0) as [Hr|Hr]; cbn [negb andb] in E1.
    - injection E1 as <- <- _. split; [now apply queries_kept_refl|]. split; [auto|lia].
    - destruct (negb _).
      + destruct (Hhead Hr) as (Hrq & _ & _).
        assert (Hk : queries_kept g interface (Z.to_nat (recv_query_count st1)) st1 st2)
          by (eapply dns_decode_queries_kept; [exact E1|lia|lia]).
        split; [exact Hk|]. split; [auto|].
        destruct Hk as (kq & _ & Hlenq & Hq2 & _ & Hlq & _). lia.
      + injection E1 as <- <- _. split; [now apply queries_kept_refl|]. split; [auto|lia]. }
  destruct Hqueries as [(kq & Hokq & Hlenq & Hq2 & Hcq & Hlq & Houtq) [Hr1 Hbq]].
  unfold outside_queries in Houtq.
  injection Houtq as _ Hrecv2 Hidx2 Hc2 Ht2 Haq2 Har2 Hrl2 _ _ _ _.
  rewrite Hq1 in Hq2, Hcq. cbn [cells Z.to_nat seq map app] in Hcq.
  rewrite Z.add_0_l in Hq2.
  cbn [fold_left] in Hrun.
  destruct (if negb (r1 =? 0) && negb (sec_get (recv_rr_count st2) RR_ANSWER =? 0)
            then _ else _) as [[r2 st3] tr2] eqn:E2.
  destruct (if negb (r2 =? 0) && negb (sec_get (recv_rr_count st3) RR_AUTHORITY =? 0)
            then _ else _) as [[r3 st4] tr3] eqn:E3.
  destruct (if negb (r3 =? 0) && negb (sec_get (recv_rr_count st4) RR_ADDITIONAL =? 0)
            then _ else _) as [[r4 st5] tr4] eqn:E4.
  assert (Hfinal : st' = st5).
  { cbv beta iota zeta in Hrun.
    destruct (negb (r4 =? bytes packet));
      [|destruct ((query_count st5 =? 0) && _ && _ && _)];
      now injection Hrun as _ <- _. }
  subst st'. clear Hrun.
  apply section_kept in E2.
  2:{ lia. }
  2:{ intros Hr. destruct (Hhead (Hr1 Hr)) as (_ & Hpos & Hsum).
      rewrite Hrecv2, Ht2, Ht1, Hrl2. pose proof (Hpos RR_ANSWER).
      pose proof (Hpos RR_AUTHORITY). pose proof (Hpos RR_ADDITIONAL). lia. }
  destruct E2 as [Hr2 (ka & Hoka & Hlena & Hba & Hia & Hta & Hca & Hcea & Hla & Hoa
                         & Hrecv3 & Hq3 & Hql3 & Haq3 & Har3)].
  rewrite Ht2, Ht1 in Hta, Hia, Hcea. cbn [cells Z.to_nat seq map app] in Hcea.
  rewrite Z.add_0_l in Hta.
  apply section_kept in E3.
  2:{ lia. }
  2:{ intros Hr. destruct (Hhead (Hr1 (Hr2 Hr))) as (_ & Hpos & Hsum).
      rewrite Hrecv3, Hrecv2, Hla, Hrl2, Hta. rewrite Hrecv2 in Hlena.
      pose proof (Hpos RR_ANSWER). pose proof (Hpos RR_AUTHORITY).
      pose proof (Hpos RR_ADDITIONAL). lia. }
  destruct E3 as [Hr3 (ku & Hoku & Hlenu & Hbu & Hiu & Htu & Hcu & Hceu & Hlu & Hou
                         & Hrecv4 & Hq4 & Hql4 & Haq4 & Har4)].
  apply section_kept in E4.
  2:{ lia. }
  2:{ intros Hr. destruct (Hhead (Hr1 (Hr2 (Hr3 Hr)))) as (_ & Hpos & Hsum).
      rewrite Hrecv4, Hrecv3, Hrecv2, Hlu, Hla, Hrl2, Htu, Hta.
      rewrite Hrecv2 in Hlena. rewrite Hrecv3, Hrecv2 in Hlenu.
      pose proof (Hpos RR_ANSWER). pose proof (Hpos RR_AUTHORITY).
      pose proof (Hpos RR_ADDITIONAL). lia. }
  destruct E4 as [Hr4 (kd & Hokd & Hlend & Hbd & Hid & Htd & Hcd & Hced & Hld & Hod
                         & Hrecv5 & Hq5 & Hql5 & Haq5 & Har5)].
  rewrite Hcea in Hceu. rewrite Hceu, <- app_assoc in Hced.
  rewrite Hta in Htu, Hiu. rewrite Htu in Htd, Hid.
  assert (Hcount : rr_count st5
                   = mk_per_section (Z.of_nat (length ka)) (Z.of_nat (length ku))
                       (Z.of_nat (length kd))).
  { rewrite Hcd, Hcu, Hca, Hc2, Hc1. reflexivity. }
  destruct Halloc1 as [Hal1 Hal2].
  split.
  { split; congruence. }
  exists kq, ka, ku, kd.
  split; [exact Hokq|]. split; [exact Hoka|]. split; [exact Hoku|]. split; [exact Hokd|].
  split; [rewrite Hq5, Hq4, Hq3; exact Hq2|].
  split; [rewrite Hq5, Hq4, Hq3, Hql5, Hql4, Hql3; exact Hcq|].
  split; [exact Hcount|]. split; [exact Htd|].
  rewrite Htd in Hced |- *. split; [exact Hced|].
  unfold section_rrs.
  replace (sec_get (rr_count st5) RR_ANSWER) with (Z.of_nat (length ka))
    by (rewrite Hcount; reflexivity).
  replace (sec_get (rr_count st5) RR_AUTHORITY) with (Z.of_nat (length ku))
    by (rewrite Hcount; reflexivity).
  replace (sec_get (rr_count st5) RR_ADDITIONAL) with (Z.of_nat (length kd))
    by (rewrite Hcount; reflexivity).
  split; [|split; [|split; [|split]]].
  - destruct ka as [|a ka']; [reflexivity|].
    rewrite (Hod RR_ANSWER), (Hou RR_ANSWER), Hia by discriminate.
    apply (cells_middle zero_rr (rr_list st5) 0 [] (a :: ka') (ku ++ kd)); [lia|reflexivity|].
    etransitivity; [|exact Hced]. f_equal. rewrite length_app. lia.
  - destruct ku as [|u ku']; [reflexivity|].
    rewrite (Hod RR_AUTHORITY), Hiu by discriminate.
    apply (cells_middle zero_rr (rr_list st5) (Z.of_nat (length ka)) ka (u :: ku') kd);
      [lia|lia|]. exact Hced.
  - destruct kd as [|d kd']; [reflexivity|].
    rewrite Hid by discriminate.
    apply (cells_middle zero_rr (rr_list st5)
             (Z.of_nat (length ka) + Z.of_nat (length ku)) (ka ++ ku) (d :: kd') []);
      [lia|rewrite length_app; lia|].
    etransitivity; [|rewrite app_nil_r, <- app_assoc; exact Hced].
    f_equal. cbn [length]. lia.
  - rewrite Hq5, Hq4, Hq3, Hql5, Hql4, Hql3. exact Hbq.
  - rewrite Ht2, Ht1 in Hba. rewrite Hta in Hbu. rewrite Htu in Hbd. lia.
Qed.


Lemma lists_allocated_create heap : lists_allocated (dns_state_create heap).
Proof. split; reflexivity. Qed.


(** X6.  The records that dns_decode_packet keeps lie at the start of [rr_list],
    inside the allocated array: first those of the answer section, then
    those of the authority section, then those of the additional section, as
    many as [rr_count] says of each and [total_rr_count] in all; the kept
    queries lie inside [query_list].  The arrays are again as long as their
    allocated counts say. *)
Theorem decoder_sections_layout (g : globals) (st : dns_state_t) (packet : packet_t)
    (interface : interface_t) (r : Z) (st' : dns_state_t) (tr : list event) :
  dns_decode_packet g st packet interface = (r, st', tr) ->
  lists_allocated st ->
  lists_allocated st' /\
  0 <= query_count st' <= Z.of_nat (length (query_list st')) /\
  0 <= total_rr_count st' <= Z.of_nat (length (rr_list st')) /\
  total_rr_count st'
  = sec_get (rr_count st') RR_ANSWER + sec_get (rr_count st') RR_AUTHORITY
    + sec_get (rr_count st') RR_ADDITIONAL /\
  (forall s, Z.of_nat (length (section_rrs st' s)) = sec_get (rr_count st') s) /\
  section_rrs st' RR_ANSWER ++ section_rrs st' RR_AUTHORITY ++ section_rrs st' RR_ADDITIONAL
  = cells zero_rr (rr_list st') 0 (total_rr_count st').
Proof.
  intros Hrun Halloc.
  destruct (dns_decode_packet_kept _ _ _ _ _ _ _ Hrun Halloc)
    as (Halloc' & kq & ka & ku & kd & _ & _ & _ & _ & Hqc & _ & Hcount & Htotal & Hcells
        & Hsa & Hsu & Hsd & Hbq & Hbr).
  split; [exact Halloc'|]. split; [lia|]. split; [lia|].
  rewrite Hcount, Hsa, Hsu, Hsd, Hcells. cbn [sec_get at_answer at_authority at_additional].
  split; [exact Htotal|]. split; [|reflexivity].
  intros []; rewrite ?Hsa, ?Hsu, ?Hsd; reflexivity.
Qed.

Lemma decoder_sections_layout_witness :
  match dns_decode_packet no_filters (dns_state_create true) (received a_and_mx)
          plain_interface with
  | (_, st', _) =>
      lists_allocated st' /\
      0 <= query_count st' <= Z.of_nat (length (query_list st')) /\
      0 <= total_rr_count st' <= Z.of_nat (length (rr_list st')) /\
      total_rr_count st'
      = sec_get (rr_count st') RR_ANSWER + sec_get (rr_count st') RR_AUTHORITY
        + sec_get (rr_count st') RR_ADDITIONAL /\
      (forall s, Z.of_nat (length (section_rrs st' s)) = sec_get (rr_count st') s) /\
      section_rrs st' RR_ANSWER ++ section_rrs st' RR_AUTHORITY
        ++ section_rrs st' RR_ADDITIONAL
      = cells zero_rr (rr_list st') 0 (total_rr_count st')
  end.
Proof.
  destruct (dns_decode_packet no_filters (dns_state_create true) (received a_and_mx)
              plain_interface) as [[r st'] tr] eqn:E.
  apply (decoder_sections_layout _ _ _ _ r st' tr E).
  apply lists_allocated_create.
Defined.

(** ** The loop of dns_decode_name, whatever the packet holds *)

Lemma dns_decode_name_loop_more packet name :
  forall fuel packet_offset label_offset compressed name_offset label_count offs labs tr
         result,
    dns_decode_name_loop fuel packet name packet_offset label_offset compressed
      name_offset label_count offs labs tr = Some result ->
    dns_decode_name_loop (S fuel) packet name packet_offset label_offset compressed
      name_offset label_count offs labs tr = Some result.
Proof.
  induction fuel as [|fuel IH]; intros po lo c no lc offs labs tr result;
    [discriminate|].
  intros H. cbn [dns_decode_name_loop] in H.
  remember (S fuel) as more eqn:Hmore. cbn [dns_decode_name_loop]. subst more.
  destruct (IS_LABEL_POINTER _).
  - destruct (_ || _); [exact H|]. now apply IH.
  - destruct (_ >? MAX_NUM_LABELS); [exact H|].
    destruct (_ =? 0); [exact H|].
    destruct (_ || _); [exact H|]. now apply IH.
Qed.

(** X1.  The loop of dns_decode_name ends on every packet and at every offset,
    whatever pointers the packet holds: within [dns_decode_name_fuel] rounds
    it has returned, and more rounds give the same result. *)
Theorem dns_decode_name_terminates (packet : packet_t) (packet_offset : Z)
    (name : dns_name_t) (fuel : nat) :
  0 <= packet_offset ->
  (dns_decode_name_fuel packet packet_offset <= fuel)%nat ->
  dns_decode_name_loop fuel packet name packet_offset packet_offset false 0 0 [] [] []
  = Some (dns_decode_name packet packet_offset name).
Proof.
  intros Hoff Hfuel. unfold dns_decode_name.
  pose proof (dns_decode_name_total packet packet_offset name Hoff) as Htotal.
  destruct (dns_decode_name_loop (dns_decode_name_fuel packet packet_offset) _ _ _ _ _ _ _ _ _ _)
    as [result|] eqn:E; [|contradiction].
  clear Htotal. induction Hfuel as [|fuel Hle IH]; [exact E|].
  now apply dns_decode_name_loop_more.
Qed.

Lemma dns_decode_name_terminates_witness :
  dns_decode_name_loop (dns_decode_name_fuel (received two_queries) 12)
    (received two_queries) zero_name 12 12 false 0 0 [] [] []
  = Some (dns_decode_name (received two_queries) 12 zero_name).
Proof.
  apply dns_decode_name_terminates; [lia|]. apply Nat.le_refl.
Defined.


(** X3.  A name that dns_decode_name returns with a nonzero offset is written out
    in full: labels, each a length byte from 1 to 191 and as many bytes,
    and a final zero byte, 256 bytes at most with it; [count] labels, the
    final one included, 127 at most; and [offset] holds where each label
    starts. *)
Theorem dns_decode_name_limits (packet : packet_t) (packet_offset : Z)
    (name0 : dns_name_t) (r : Z) (name : dns_name_t) (tr : list event) :
  dns_decode_name packet packet_offset name0 = (r, name, tr) -> r <> 0 ->
  exists ls,
    Forall wf_label ls /\
    nm_labels name = concat ls ++ [x00] /\
    nm_offset name = label_offsets 0 ls ++ [Z.of_nat (length (concat ls))] /\
    nm_length name = Z.of_nat (length (nm_labels name)) /\
    nm_count name = Z.of_nat (length (nm_offset name)) /\
    nm_length name <= DNS_MAX_NAME_LEN /\
    nm_count name <= MAX_NUM_LABELS.
Proof.
  intros H Hr. apply dns_decode_name_sound in H; [|exact Hr].
  destruct H as (ls & Hwf & -> & Hlen & Hcount). exists ls.
  cbn [name_of_labels nm_labels nm_offset nm_length nm_count] in *.
  rewrite !length_app, length_label_offsets. cbn [length].
  repeat split; auto; lia.
Qed.

Lemma dns_decode_name_limits_witness :
  exists ls,
    Forall wf_label ls /\
    nm_labels (name_of_labels [datagram [1;104]]) = concat ls ++ [x00] /\
    nm_offset (name_of_labels [datagram [1;104]])
    = label_offsets 0 ls ++ [Z.of_nat (length (concat ls))] /\
    nm_length (name_of_labels [datagram [1;104]])
    = Z.of_nat (length (nm_labels (name_of_labels [datagram [1;104]]))) /\
    nm_count (name_of_labels [datagram [1;104]])
    = Z.of_nat (length (nm_offset (name_of_labels [datagram [1;104]]))) /\
    nm_length (name_of_labels [datagram [1;104]]) <= DNS_MAX_NAME_LEN /\
    nm_count (name_of_labels [datagram [1;104]]) <= MAX_NUM_LABELS.
Proof.
  refine (dns_decode_name_limits (received a_and_mx) 12 zero_name 15 _ _ _ _).
  - vm_compute. reflexivity.
  - discriminate.
Defined.
(** ** strcmp orders the strings *)

Lemma u8_inj (a b : byte) : u8 a = u8 b -> a = b.
Proof. intros H. rewrite <- (byte_of_Z_u8 a), <- (byte_of_Z_u8 b). now rewrite H. Qed.

Lemma strcmp_eq (a b : list byte) : strcmp a b = 0 <-> a = b.
Proof.
  revert b. induction a as [|x a IH]; intros [|y b]; cbn [strcmp];
    try (split; [lia|discriminate]); [tauto|].
  destruct (Z.eqb_spec (u8 x) (u8 y)) as [E|E].
  - rewrite IH. apply u8_inj in E. subst y. split; [now intros ->|now intros [= ->]].
  - split.
    + intros H. apply Z.sgn_null_iff in H. lia.
    + intros [= -> _]. contradiction.
Qed.

Lemma strcmp_refl (a : list byte) : strcmp a a = 0.
Proof. now apply strcmp_eq. Qed.

Lemma strcmp_antisym (a b : list byte) : strcmp b a = - strcmp a b.
Proof.
  revert b. induction a as [|x a IH]; intros [|y b]; cbn [strcmp]; try reflexivity.
  destruct (Z.eqb_spec (u8 x) (u8 y)) as [E|E], (Z.eqb_spec (u8 y) (u8 x)) as [E'|E'];
    try lia. apply IH.
Qed.

Lemma strcmp_trans (a b c : list byte) :
  strcmp a b <= 0 -> strcmp b c <= 0 -> strcmp a c <= 0.
Proof.
  revert b c. induction a as [|x a IH]; intros [|y b] [|z c]; cbn [strcmp]; try lia.
  destruct (Z.eqb_spec (u8 x) (u8 y)) as [E1|E1], (Z.eqb_spec (u8 y) (u8 z)) as [E2|E2],
    (Z.eqb_spec (u8 x) (u8 z)) as [E3|E3]; try lia;
    rewrite ?Z.sgn_nonpos; try lia; try apply IH.
Qed.


Lemma strcmp_lt_le_trans (a b c : list byte) :
  strcmp_lt a b -> strcmp_le b c -> strcmp_lt a c.
Proof.
  unfold strcmp_lt, strcmp_le. intros Hab Hbc.
  pose proof (strcmp_trans a b c ltac:(lia) Hbc) as Hac.
  destruct (Z.eq_dec (strcmp a c) 0) as [E|E]; [|lia].
  apply strcmp_eq in E. subst c. rewrite (strcmp_antisym a b) in Hbc. lia.
Qed.

(** ** qsort sorts, and keeps the strings *)

Lemma in_qsort_insert x l s : In s (qsort_insert qsort_strcmp x l) <-> s = x \/ In s l.
Proof.
  induction l as [|y l IH]; cbn [qsort_insert].
  - cbn. intuition congruence.
  - destruct (_ <=? 0); cbn [In]; [intuition congruence|]. rewrite IH. intuition congruence.
Qed.

Lemma in_qsort l s : In s (qsort qsort_strcmp l) <-> In s l.
Proof.
  induction l as [|x l IH]; cbn [qsort]; [tauto|].
  rewrite in_qsort_insert, IH. cbn. intuition congruence.
Qed.

Lemma length_qsort_insert x l :
  length (qsort_insert qsort_strcmp x l) = S (length l).
Proof.
  induction l as [|y l IH]; cbn [qsort_insert]; [reflexivity|].
  destruct (_ <=? 0); cbn [length]; congruence.
Qed.

Lemma length_qsort l : length (qsort qsort_strcmp l) = length l.
Proof.
  induction l as [|x l IH]; cbn [qsort]; [reflexivity|].
  rewrite length_qsort_insert. cbn. congruence.
Qed.

Lemma sorted_qsort_insert x l :
  StronglySorted strcmp_le l -> StronglySorted strcmp_le (qsort_insert qsort_strcmp x l).
Proof.
  induction 1 as [|y l Hs IH Hall]; cbn [qsort_insert].
  - repeat constructor.
  - unfold qsort_strcmp at 1. destruct (Z.leb_spec (strcmp x y) 0) as [Hle|Hgt].
    + constructor; [now constructor|]. constructor; [exact Hle|].
      eapply Forall_impl; [|exact Hall]. intros z Hz. now apply (strcmp_trans x y z).
    + constructor; [exact IH|]. apply Forall_forall. intros z Hz.
      apply in_qsort_insert in Hz as [->|Hz].
      * unfold strcmp_le. rewrite (strcmp_antisym x y). lia.
      * rewrite Forall_forall in Hall. now apply Hall.
Qed.

Lemma sorted_qsort l : StronglySorted strcmp_le (qsort qsort_strcmp l).
Proof.
  induction l as [|x l IH]; cbn [qsort]; [constructor|]. now apply sorted_qsort_insert.
Qed.

(** ** What is left without the repeats *)

Lemma in_without_repeats p rest s :
  In s (p :: without_repeats p rest) <-> In s (p :: rest).
Proof.
  revert p. induction rest as [|x rest IH]; intros p; cbn [without_repeats]; [tauto|].
  destruct (Z.eqb_spec (strcmp p x) 0) as [E|E].
  - apply strcmp_eq in E. subst x. rewrite IH. cbn. tauto.
  - specialize (IH x). cbn [In] in *. tauto.
Qed.

Lemma sorted_without_repeats p rest :
  StronglySorted strcmp_le (p :: rest) ->
  StronglySorted strcmp_lt (p :: without_repeats p rest).
Proof.
  revert p. induction rest as [|x rest IH]; intros p Hs; cbn [without_repeats].
  - repeat constructor.
  - apply StronglySorted_inv in Hs as [Hs Hall].
    destruct (Z.eqb_spec (strcmp p x) 0) as [E|E].
    + apply strcmp_eq in E. subst x. now apply IH.
    + pose proof (Forall_inv Hall) as Hpx. unfold strcmp_le in Hpx.
      assert (Hlt : strcmp_lt p x) by (unfold strcmp_lt; lia).
      specialize (IH x Hs). constructor; [exact IH|].
      constructor; [exact Hlt|]. apply StronglySorted_inv in IH as [_ IH].
      eapply Forall_impl; [|exact IH]. intros z Hz.
      apply (strcmp_lt_le_trans p x z Hlt). unfold strcmp_lt, strcmp_le in *. lia.
Qed.

(** Two strictly ascending arrays with the same strings are the same array. *)
Lemma ascending_unique (l1 l2 : list (list byte)) :
  StronglySorted strcmp_lt l1 -> StronglySorted strcmp_lt l2 ->
  (forall s, In s l1 <-> In s l2) -> l1 = l2.
Proof.
  intros H1. revert l2. induction H1 as [|a l1 Hs1 IH Hall1]; intros l2 H2 Hin.
  - destruct l2 as [|b l2]; [reflexivity|]. exfalso. apply (Hin b). now left.
  - destruct H2 as [|b l2 Hs2 Hall2]; [exfalso; apply (Hin a); now left|].
    rewrite Forall_forall in Hall1, Hall2.
    assert (Hirr : forall s, ~ strcmp_lt s s)
      by (intros s; unfold strcmp_lt; rewrite strcmp_refl; lia).
    assert (Hasym : forall s t, strcmp_lt s t -> strcmp_lt t s -> False).
    { intros s t. unfold strcmp_lt. rewrite (strcmp_antisym s t). lia. }
    assert (a = b) as <-.
    { destruct (proj1 (Hin a) (or_introl eq_refl)) as [E|Ha]; [now symmetry|].
      destruct (proj2 (Hin b) (or_introl eq_refl)) as [E|Hb]; [exact E|].
      exfalso. apply (Hasym a b); [now apply Hall1|now apply Hall2]. }
    f_equal. apply IH; [exact Hs2|]. intros s. split; intros Hs.
    + destruct (proj1 (Hin s) (or_intror Hs)) as [E|Hs']; [|exact Hs'].
      subst s. exfalso. apply (Hirr a). now apply Hall1.
    + destruct (proj2 (Hin s) (or_intror Hs)) as [E|Hs']; [|exact Hs'].
      subst s. exfalso. apply (Hirr a). now apply Hall2.
Qed.

(** ** The loop that removes duplicates *)

Lemma memmove_down {A} (a : list A) (x : A) (r junk : list A) :
  memmove (a ++ x :: r ++ junk) (Z.of_nat (length a)) (Z.of_nat (length a) + 1)
    (Z.of_nat (length r))
  = a ++ r ++ skipn (length r) (x :: r ++ junk).
Proof.
  unfold memmove.
  replace (Z.to_nat (Z.of_nat (length a) + 1)) with (length a + 1)%nat by lia.
  replace (Z.to_nat (Z.of_nat (length a) + Z.of_nat (length r)))
    with (length a + length r)%nat by lia.
  rewrite !Nat2Z.id.
  rewrite firstn_app, firstn_all, Nat.sub_diag. cbn [firstn]. rewrite app_nil_r.
  rewrite !skipn_app.
  rewrite !(skipn_all2 a) by lia. cbn [app].
  replace (length a + 1 - length a)%nat with 1%nat by lia.
  replace (length a + length r - length a)%nat with (length r) by lia.
  cbn [skipn]. rewrite firstn_app, firstn_all, Nat.sub_diag. cbn [firstn].
  now rewrite app_nil_r.
Qed.

Lemma remove_duplicates_spec :
  forall post fuel pre p junk,
    (length post < fuel)%nat ->
    exists l',
      remove_duplicates fuel (pre ++ p :: post ++ junk)
        (Z.of_nat (length pre) + 1)
        (Z.of_nat (length pre) + 1 + Z.of_nat (length post))
      = returns (l', Z.of_nat (length pre) + 1
                     + Z.of_nat (length (without_repeats p post))) /\
      firstn (length pre + 1 + length (without_repeats p post)) l'
      = pre ++ p :: without_repeats p post.
Proof.
  induction post as [|x r IH]; intros fuel pre p junk Hfuel;
    (destruct fuel as [|f]; [cbn in Hfuel; lia|]); cbn [remove_duplicates].
  - cbn [length without_repeats app]. rewrite Z.add_0_r, Z.ltb_irrefl.
    eexists. split; [reflexivity|].
    rewrite Nat.add_0_r.
    replace (pre ++ p :: junk) with ((pre ++ [p]) ++ junk) by now rewrite <- app_assoc.
    replace (length pre + 1)%nat with (length (pre ++ [p]))
      by (rewrite length_app; reflexivity).
    rewrite firstn_app, firstn_all, Nat.sub_diag. cbn [firstn]. now rewrite app_nil_r.
  - cbn [length] in Hfuel |- *.
    destruct (Z.ltb_spec (Z.of_nat (length pre) + 1)
                (Z.of_nat (length pre) + 1 + Z.of_nat (S (length r)))) as [_|]; [|lia].
    replace (Z.to_nat (Z.of_nat (length pre) + 1 - 1)) with (length pre) by lia.
    replace (Z.to_nat (Z.of_nat (length pre) + 1)) with (S (length pre)) by lia.
    rewrite nth_middle.
    replace (nth (S (length pre)) (pre ++ p :: (x :: r) ++ junk) [])
      with x.
    2:{ replace (pre ++ p :: (x :: r) ++ junk) with ((pre ++ [p]) ++ x :: r ++ junk)
          by (rewrite <- app_assoc; reflexivity).
        replace (S (length pre)) with (length (pre ++ [p]))
          by (rewrite length_app; cbn; lia).
        now rewrite nth_middle. }
    cbn [without_repeats].
    destruct (Z.eqb_spec (strcmp p x) 0) as [E|E].
    + destruct (Z.ltb_spec (Z.of_nat (length pre) + 1)
                  (Z.of_nat (length pre) + 1 + Z.of_nat (S (length r)) - 1)) as [Hmore|Hlast].
      * (* the rest moves down by one entry *)
        assert (Hmove :
          memmove (pre ++ p :: (x :: r) ++ junk) (Z.of_nat (length pre) + 1)
            (Z.of_nat (length pre) + 1 + 1)
            (Z.of_nat (length pre) + 1 + Z.of_nat (S (length r))
             - (Z.of_nat (length pre) + 1) - 1)
          = pre ++ p :: r ++ skipn (length r) (x :: r ++ junk)).
        { replace (pre ++ p :: (x :: r) ++ junk) with ((pre ++ [p]) ++ x :: r ++ junk)
            by (rewrite <- app_assoc; reflexivity).
          replace (Z.of_nat (length pre) + 1) with (Z.of_nat (length (pre ++ [p])))
            by (rewrite length_app; cbn [length]; lia).
          replace (Z.of_nat (length (pre ++ [p])) + Z.of_nat (S (length r))
                   - Z.of_nat (length (pre ++ [p])) - 1)
            with (Z.of_nat (length r)) by lia.
          rewrite memmove_down, <- app_assoc. reflexivity. }
        rewrite Hmove.
        replace (Z.of_nat (length pre) + 1 - 1 + 1) with (Z.of_nat (length pre) + 1)
          by lia.
        replace (Z.of_nat (length pre) + 1 + Z.of_nat (S (length r)) - 1)
          with (Z.of_nat (length pre) + 1 + Z.of_nat (length r)) by lia.
        apply IH. lia.
      * (* the duplicate is the last entry *)
        assert (r = []) as -> by (destruct r; [reflexivity|cbn [length] in Hlast; lia]).
        destruct f as [|f]; [cbn in Hfuel; lia|]. cbn [remove_duplicates].
        cbn [length].
        destruct (Z.ltb_spec (Z.of_nat (length pre) + 1 + 1)
                    (Z.of_nat (length pre) + 1 + Z.of_nat 1 - 1))
          as [Hlt|_]; [lia|].
        cbn [length without_repeats]. eexists. split; [f_equal; f_equal; lia|].
        rewrite Nat.add_0_r.
        replace (pre ++ p :: [x] ++ junk) with ((pre ++ [p]) ++ x :: junk)
          by (rewrite <- app_assoc; reflexivity).
        replace (length pre + 1)%nat with (length (pre ++ [p]))
          by (rewrite length_app; reflexivity).
        rewrite firstn_app, firstn_all, Nat.sub_diag. cbn [firstn]. now rewrite app_nil_r.
    + destruct (IH f (pre ++ [p]) x junk ltac:(lia)) as (l' & Hrun & Hfirst).
      exists l'. rewrite length_app in Hrun, Hfirst. cbn [length] in Hrun, Hfirst |- *.
      rewrite <- !app_assoc in *. cbn [app] in *. split.
      * match type of Hrun with
        | remove_duplicates _ _ ?c ?d = returns (_, ?e) =>
            match goal with
            | |- remove_duplicates _ _ ?c' ?d' = returns (_, ?e') =>
                replace c' with c by lia; replace d' with d by lia;
                replace e' with e by lia; exact Hrun
            end
        end.
      * rewrite <- Hfirst. f_equal. lia.
Qed.

(** ** filter_list_create *)

Lemma filter_list_create_unfold ad list memory :
  filter_list_create ad list memory
  = if negb (alloc_ok memory) then fatal
    else match save_names (kept_strings list) 0 (alloc_blocks memory) with
         | returns names =>
             returns (mk_filter_ref (alloc_addr memory)
                        (mk_filter_list ad (Z.of_nat (length (kept_strings list))) names))
         | fatal => fatal
         | unfinished => unfinished
         end.
Proof.
  unfold filter_list_create, kept_strings.
  pose proof (length_qsort list) as Hlen. rewrite <- Hlen.
  destruct (qsort qsort_strcmp list) as [|p post].
  - reflexivity.
  - destruct (remove_duplicates_spec post (S (length (p :: post))) [] p []) as (l' & Hrun & Hfirst);
      [cbn [length]; lia|].
    cbn [app length] in Hrun, Hfirst |- *. rewrite app_nil_r in Hrun.
    change (Z.of_nat 0 + 1) with 1 in Hrun. change (0 + 1)%nat with 1%nat in Hfirst.
    replace (Z.of_nat (S (length post))) with (1 + Z.of_nat (length post)) by lia.
    rewrite Hrun.
    replace (Z.to_nat (1 + Z.of_nat (length (without_repeats p post))))
      with (1 + length (without_repeats p post))%nat by lia.
    rewrite Hfirst.
    replace (1 + Z.of_nat (length (without_repeats p post)))
      with (Z.of_nat (S (length (without_repeats p post)))) by lia.
    reflexivity.
Qed.

Lemma kept_strings_ascending list : StronglySorted strcmp_lt (kept_strings list).
Proof.
  unfold kept_strings. pose proof (sorted_qsort list) as Hs.
  destruct (qsort qsort_strcmp list); [constructor|]. now apply sorted_without_repeats.
Qed.

Lemma in_kept_strings list s : In s (kept_strings list) <-> In s list.
Proof.
  unfold kept_strings. rewrite <- (in_qsort list s).
  destruct (qsort qsort_strcmp list); [tauto|]. apply in_without_repeats.
Qed.

(** Two arrays with the same strings, in any order and with any repeats,
    leave the same strings. *)
Lemma kept_strings_same (list1 list2 : list (list byte)) :
  (forall s, In s list1 <-> In s list2) -> kept_strings list1 = kept_strings list2.
Proof.
  intros Hsame. apply ascending_unique; try apply kept_strings_ascending.
  intros s. now rewrite !in_kept_strings.
Qed.

Lemma dns_save_match_name_null string m :
  dns_save_match_name string None <> returns m.
Proof. unfold dns_save_match_name. destruct (_ || _); discriminate. Qed.

Lemma save_names_returns blocks :
  forall strings index names,
    save_names strings index blocks = returns names ->
    Forall2 (fun string name =>
               exists block, dns_save_match_name string (Some block) = returns name)
      strings names.
Proof.
  induction strings as [|s strings IH]; intros index names H; cbn [save_names] in H.
  - injection H as <-. constructor.
  - destruct (dns_save_match_name s (blocks index)) as [m| |] eqn:Hs; try discriminate.
    destruct (save_names strings (S index) blocks) as [ms| |] eqn:Hss; try discriminate.
    injection H as <-. constructor; [|now apply (IH (S index))].
    destruct (blocks index) as [block|]; [now exists block|].
    exfalso. now apply (dns_save_match_name_null s m).
Qed.

Lemma save_names_filter_strings blocks :
  (forall index, blocks index <> None) ->
  forall strings index,
    Forall filter_string strings ->
    exists names, save_names strings index blocks = returns names.
Proof.
  intros Hblocks. induction strings as [|s strings IH]; intros index Hall;
    cbn [save_names].
  - now exists [].
  - apply Forall_cons_iff in Hall as [(ls & -> & Hne & Hwf & Hcount & Hlen) Hall].
    destruct (blocks index) as [block|] eqn:Hb; [|now elim (Hblocks index)].
    destruct (dns_save_match_name_joined ls block Hne Hwf Hcount Hlen) as (m & -> & _).
    destruct (IH (S index) Hall) as (ms & ->). now exists (m :: ms).
Qed.

Lemma one_label_filter_string (l : list byte) :
  l <> [] -> forallb (fun c => negb (Byte.eqb c dot)) l = true ->
  (Z.of_nat (length l) <=? DNS_MAX_LABEL_LEN) = true ->
  filter_string l.
Proof.
  intros Hne Hdots Hlen. apply Z.leb_le in Hlen. exists [l]. cbn [join_dots length].
  unfold DNS_MAX_LABEL_LEN, MAX_NUM_LABELS, DNS_MAX_NAME_LEN in *.
  repeat split; try discriminate; try lia.
  constructor; [|constructor]. repeat split; try assumption; try (unfold DNS_MAX_LABEL_LEN; lia).
  intros Hin. rewrite forallb_forall in Hdots. specialize (Hdots _ Hin).
  now rewrite (Byte.byte_dec_lb eq_refl) in Hdots.
Qed.

(** X15.  filter_list_create on filter strings, with memory to be had: the list
    has the address calloc gave and the given [allow_deny]; its names are the
    strings of the array in strictly ascending order of strcmp, each string
    once, [count] of them. *)
Theorem filter_list_create_names (allow_deny0 : filter_allow_deny_t)
    (list : list (list byte)) (memory : allocation) :
  alloc_ok memory = true ->
  (forall index, alloc_blocks memory index <> None) ->
  Forall filter_string list ->
  exists filter_list strings,
    filter_list_create allow_deny0 list memory = returns filter_list /\
    addr filter_list = alloc_addr memory /\
    allow_deny (target filter_list) = allow_deny0 /\
    fl_count (target filter_list) = Z.of_nat (length strings) /\
    StronglySorted strcmp_lt strings /\
    (forall s, In s strings <-> In s list) /\
    Forall2 (fun string name =>
               exists block, dns_save_match_name string (Some block) = returns name)
      strings (names (target filter_list)).
Proof.
  intros Hok Hblocks Hall. rewrite filter_list_create_unfold, Hok. cbn [negb].
  assert (Hkept : Forall filter_string (kept_strings list)).
  { rewrite Forall_forall in *. intros s Hs. apply Hall. now apply in_kept_strings. }
  destruct (save_names_filter_strings _ Hblocks _ 0%nat Hkept) as (saved & Hsaved).
  rewrite Hsaved. eexists. exists (kept_strings list).
  split; [reflexivity|]. cbn [addr target allow_deny fl_count names].
  repeat split; try apply in_kept_strings.
  - apply kept_strings_ascending.
  - now apply save_names_returns in Hsaved.
Qed.

Lemma filter_list_create_names_witness :
  exists filter_list strings,
    filter_list_create DENY http_ssh_http (zeroed 7) = returns filter_list /\
    addr filter_list = alloc_addr (zeroed 7) /\
    allow_deny (target filter_list) = DENY /\
    fl_count (target filter_list) = Z.of_nat (length strings) /\
    StronglySorted strcmp_lt strings /\
    (forall s, In s strings <-> In s http_ssh_http) /\
    Forall2 (fun string name =>
               exists block, dns_save_match_name string (Some block) = returns name)
      strings (names (target filter_list)).
Proof.
  apply filter_list_create_names.
  - reflexivity.
  - discriminate.
  - repeat constructor; apply one_label_filter_string; (discriminate || reflexivity).
Defined.

(** ** filter_list_compare *)

Lemma bytes_eqb_eq (a b : list byte) : bytes_eqb a b = true <-> a = b.
Proof.
  revert b. induction a as [|x a IH]; intros [|y b]; cbn [bytes_eqb];
    try (split; [discriminate|discriminate]); [tauto|].
  rewrite andb_true_iff, IH. split.
  - intros [Hxy ->]. f_equal. now apply Byte.byte_dec_bl.
  - intros [= -> ->]. split; [|reflexivity]. now apply Byte.byte_dec_lb.
Qed.

Lemma filter_list_compare_loop_zero :
  forall names1 names2,
    length names1 = length names2 ->
    (filter_list_compare_loop names1 names2 = 0 <-> Forall2 same_name names1 names2).
Proof.
  induction names1 as [|n1 names1 IH]; intros [|n2 names2] Hlen;
    try discriminate; cbn [filter_list_compare_loop].
  - split; [constructor|reflexivity].
  - injection Hlen as Hlen. specialize (IH names2 Hlen).
    destruct (Z.eqb_spec (mn_length n1) (mn_length n2)) as [El|El]; cbn [negb].
    + destruct (bytes_eqb _ _) eqn:Eb; cbn [negb].
      * apply bytes_eqb_eq in Eb. rewrite IH. split.
        -- intros H. constructor; [|exact H]. split; [exact El|].
           unfold match_name_bytes. now rewrite <- El.
        -- intros H. now inversion H.
      * split; [lia|]. intros H. inversion H as [|? ? ? ? [_ Hb]]; subst.
        unfold match_name_bytes in Hb. rewrite <- El in Hb.
        apply bytes_eqb_eq in Hb. congruence.
    + split; [lia|]. intros H. inversion H as [|? ? ? ? [Hl _]]. contradiction.
Qed.

Lemma filter_names_full (l : filter_list_t) :
  filter_list_full l -> filter_names l = names l.
Proof.
  unfold filter_list_full, filter_names. intros ->. rewrite Nat2Z.id. apply firstn_all.
Qed.

Lemma filter_list_compare_zero (l1 l2 : filter_list_t) :
  filter_list_full l1 -> filter_list_full l2 ->
  (filter_list_compare l1 l2 = 0 <->
   allow_deny l1 = allow_deny l2 /\ Forall2 same_name (names l1) (names l2)).
Proof.
  intros Hf1 Hf2. unfold filter_list_compare.
  rewrite (filter_names_full _ Hf1), (filter_names_full _ Hf2).
  unfold filter_list_full in *.
  destruct (allow_deny_eqb (allow_deny l1) (allow_deny l2)) eqn:Ead; cbn [negb orb].
  - assert (Had : allow_deny l1 = allow_deny l2)
      by (destruct (allow_deny l1), (allow_deny l2); (reflexivity || discriminate)).
    destruct (Z.eqb_spec (fl_count l1) (fl_count l2)) as [Ec|Ec]; cbn [negb].
    + rewrite filter_list_compare_loop_zero by lia. tauto.
    + split; [lia|]. intros [_ H]. apply Forall2_length in H. lia.
  - split; [lia|]. intros [H _]. rewrite H in Ead.
    destruct (allow_deny l2); discriminate.
Qed.

Lemma existsb_same_name (name : dns_name_t) (names1 names2 : list dns_match_name_t) :
  Forall2 same_name names1 names2 ->
  existsb (dns_subset_match name) names1 = existsb (dns_subset_match name) names2.
Proof.
  induction 1 as [|n1 n2 names1 names2 [_ Hb] _ IH]; [reflexivity|].
  cbn [existsb]. rewrite IH. unfold dns_subset_match. now rewrite Hb.
Qed.

Lemma filter_list_compare_same (l1 l2 : filter_list_t) (name : dns_name_t) :
  filter_list_full l1 -> filter_list_full l2 ->
  filter_list_compare l1 l2 = 0 ->
  filter_list_allowed l1 name = filter_list_allowed l2 name.
Proof.
  intros Hf1 Hf2 Hcmp. apply (filter_list_compare_zero _ _ Hf1 Hf2) in Hcmp as [Had Hnames].
  unfold filter_list_allowed. rewrite (filter_names_full _ Hf1), (filter_names_full _ Hf2).
  rewrite Had, (existsb_same_name name _ _ Hnames). reflexivity.
Qed.

(** X17.  Two filter lists that filter_list_compare finds equal allow the same
    names. *)
Theorem filter_list_compare_allowed (l1 l2 : filter_list_t) (name : dns_name_t) :
  filter_list_full l1 -> filter_list_full l2 ->
  filter_list_compare l1 l2 = 0 ->
  filter_list_allowed l1 name = filter_list_allowed l2 name.
Proof. apply filter_list_compare_same. Qed.

Lemma filter_list_compare_allowed_witness :
  filter_list_allowed (mk_filter_list DENY 1 [mk_match_name 5 (datagram [4;95;115;115;104;9])])
    (name_of_labels [datagram [4;95;115;115;104]])
  = filter_list_allowed (target deny_ssh) (name_of_labels [datagram [4;95;115;115;104]]).
Proof. apply filter_list_compare_allowed; reflexivity. Defined.

(** A string that does not end in a dot is stored in full: the match name
    does not depend on what the block held before. *)
Lemma dns_save_match_name_same (string block1 block2 : list byte)
    (n1 n2 : dns_match_name_t) :
  last string x00 <> dot ->
  dns_save_match_name string (Some block1) = returns n1 ->
  dns_save_match_name string (Some block2) = returns n2 ->
  same_name n1 n2.
Proof.
  unfold dns_save_match_name. intros Hlast H1 H2.
  destruct (Z.ltb_spec (Z.of_nat (length string)) 1) as [|Hlen1]; [discriminate|].
  destruct (_ >=? _); [discriminate|]. cbn [orb] in *.
  destruct (dns_save_match_name_loop _ string 0 0 []) as [stored| |] eqn:Hloop;
    try discriminate.
  injection H1 as <-. injection H2 as <-.
  apply dns_save_match_name_loop_returns in Hloop as (ls & -> & Hwf & _ & Hrest); [|lia].
  cbn [Z.to_nat skipn app] in *.
  destruct Hrest as [Hstr|[_ Hstr]];
    [|exfalso; apply Hlast; rewrite Hstr; apply last_last].
  assert (Hne : ls <> []) by (intros ->; subst string; cbn in Hlen1; lia).
  pose proof (length_prefixed_labels ls Hne) as Hlp. rewrite <- Hstr in Hlp.
  split; [reflexivity|]. unfold match_name_bytes. cbn [mn_length mn_labels].
  rewrite <- Hlp, !slice_overlay. reflexivity.
Qed.

Lemma save_names_same blocks1 blocks2 :
  forall strings index1 index2 names1 names2,
    (forall s, In s strings -> last s x00 <> dot) ->
    save_names strings index1 blocks1 = returns names1 ->
    save_names strings index2 blocks2 = returns names2 ->
    Forall2 same_name names1 names2.
Proof.
  intros strings index1 index2 names1 names2 Hlast H1 H2.
  apply save_names_returns in H1, H2. revert names2 H2.
  induction H1 as [|s n1 strings names1 [b1 Hs1] _ IH]; intros names2 H2;
    inversion H2 as [|? n2 ? names2' [b2 Hs2] Hrest]; subst; constructor.
  - apply (dns_save_match_name_same s b1 b2); auto. apply Hlast. now left.
  - apply IH; [|exact Hrest]. intros s' Hs'. apply Hlast. now right.
Qed.

Lemma filter_list_create_full ad list memory filter_list :
  filter_list_create ad list memory = returns filter_list ->
  filter_list_full (target filter_list).
Proof.
  rewrite filter_list_create_unfold. destruct (negb _); [discriminate|].
  destruct (save_names _ _ _) as [saved| |] eqn:Hsaved; try discriminate.
  intros [= <-]. unfold filter_list_full. cbn [target fl_count names].
  apply save_names_returns, Forall2_length in Hsaved. now rewrite Hsaved.
Qed.

(** X16.  Two filter lists made of the same filters, given in any order and any
    number of times, none ending in a dot, are equal for
    filter_list_compare. *)
Theorem filter_list_create_same_filters (allow_deny0 : filter_allow_deny_t)
    (list1 list2 : list (list byte)) (memory1 memory2 : allocation)
    (l1 l2 : filter_ref) :
  filter_list_create allow_deny0 list1 memory1 = returns l1 ->
  filter_list_create allow_deny0 list2 memory2 = returns l2 ->
  (forall s, In s list1 <-> In s list2) ->
  (forall s, In s list1 -> last s x00 <> dot) ->
  filter_list_compare (target l1) (target l2) = 0.
Proof.
  intros H1 H2 Hsame Hlast.
  apply filter_list_compare_zero; try (eapply filter_list_create_full; eassumption).
  rewrite filter_list_create_unfold in H1, H2.
  destruct (negb (alloc_ok memory1)); [discriminate|].
  destruct (negb (alloc_ok memory2)); [discriminate|].
  destruct (save_names (kept_strings list1) _ _) as [saved1| |] eqn:Hs1; try discriminate.
  destruct (save_names (kept_strings list2) _ _) as [saved2| |] eqn:Hs2; try discriminate.
  injection H1 as <-. injection H2 as <-. cbn [target allow_deny names].
  split; [reflexivity|]. rewrite <- (kept_strings_same _ _ Hsame) in Hs2.
  refine (save_names_same _ _ _ _ _ _ _ _ Hs1 Hs2).
  intros s Hs. apply Hlast. now apply in_kept_strings.
Qed.

Lemma filter_list_create_same_filters_witness :
  exists l1 l2,
    filter_list_create DENY ssh_http (zeroed 1) = returns l1 /\
    filter_list_create DENY http_ssh_http (zeroed 2) = returns l2 /\
    filter_list_compare (target l1) (target l2) = 0.
Proof.
  destruct (filter_list_create DENY ssh_http (zeroed 1)) as [l1| |] eqn:E1;
    [|vm_compute in E1; discriminate..].
  destruct (filter_list_create DENY http_ssh_http (zeroed 2)) as [l2| |] eqn:E2;
    [|vm_compute in E2; discriminate..].
  exists l1, l2. split; [reflexivity|]. split; [reflexivity|].
  refine (filter_list_create_same_filters _ _ _ _ _ l1 l2 E1 E2 _ _).
  - intros s. cbn. tauto.
  - intros s [<-|[<-|[]]]; discriminate.
Defined.

(** ** The filter lists of the interfaces *)

Lemma adopt_existing_spec (lists : list filter_ptr) (filter_list : filter_ref) :
  (adopt_existing lists filter_list = filter_list /\
   forall existing, In (Some existing) lists ->
     filter_list_compare (target existing) (target filter_list) <> 0) \/
  (In (Some (adopt_existing lists filter_list)) lists /\
   filter_list_compare (target (adopt_existing lists filter_list)) (target filter_list) = 0).
Proof.
  induction lists as [|[existing|] lists IH]; cbn [adopt_existing].
  - left. split; [reflexivity|]. intros ? [].
  - destruct (Z.eqb_spec (filter_list_compare (target existing) (target filter_list)) 0)
      as [E|E].
    + right. split; [now left|exact E].
    + destruct IH as [[-> IH]|[Hin IH]].
      * left. split; [reflexivity|]. intros e [[= <-]|He]; [exact E|now apply IH].
      * right. split; [now right|exact IH].
  - destruct IH as [[-> IH]|[Hin IH]].
    + left. split; [reflexivity|]. intros e [[=]|He]. now apply IH.
    + right. split; [now right|exact IH].
Qed.

Lemma in_map_nth {A} (f : interface_t -> A) (configured : list interface_t) (x : A) :
  In x (map f configured) ->
  exists index, (index < length configured)%nat /\
                f (nth index configured zero_interface) = x.
Proof.
  intros Hin. apply in_map_iff in Hin as (i & <- & Hin).
  apply (In_nth _ _ zero_interface) in Hin as (index & Hlt & <-). now exists index.
Qed.

Lemma length_filter_list_set (f : interface_t -> bool) (l : list interface_t)
    (i : nat) (v : interface_t) :
  (i < length l)%nat -> f (nth i l zero_interface) = false -> f v = true ->
  length (filter f (list_set l i v)) = S (length (filter f l)).
Proof.
  revert i. induction l as [|x l IH]; intros [|i] Hlt Hold Hnew;
    cbn [length list_set nth filter] in *; try lia.
  - rewrite Hold, Hnew. reflexivity.
  - destruct (f x); cbn [length]; rewrite IH; auto; lia.
Qed.

Lemma length_filter_bound {A} (f : A -> bool) (l : list A) :
  (length (filter f l) <= length l)%nat.
Proof. induction l as [|x l IH]; cbn [filter length]; [lia|]. destruct (f x); cbn [length]; lia. Qed.

Lemma length_filter_below (f : interface_t -> bool) (l : list interface_t) (i : nat) :
  (i < length l)%nat -> f (nth i l zero_interface) = false ->
  (length (filter f l) < length l)%nat.
Proof.
  revert i. induction l as [|x l IH]; intros [|i] Hlt Hold;
    cbn [length nth filter] in *; try lia.
  - rewrite Hold. pose proof (length_filter_bound f l). lia.
  - specialize (IH i ltac:(lia) Hold). destruct (f x); cbn [length]; lia.
Qed.

Lemma set_interface_outbound_filter_list_counts (g : globals)
    (unique_outbound_filter_count : Z) (interface : nat)
    (allow_deny0 : filter_allow_deny_t) (list : list (list byte))
    (memory : allocation) (result : Z) (g' : globals)
    (unique_outbound_filter_count' : Z) :
  (interface < length (configured_interface_list g))%nat ->
  Z.of_nat (length (configured_interface_list g)) < 2 ^ 32 ->
  unique_outbound_filter_count
  = Z.of_nat (length (filter has_outbound (configured_interface_list g))) ->
  set_interface_outbound_filter_list g unique_outbound_filter_count interface
    allow_deny0 list memory
  = returns (result, g', unique_outbound_filter_count') ->
  unique_outbound_filter_count'
  = Z.of_nat (length (filter has_outbound (configured_interface_list g'))) /\
  length (configured_interface_list g') = length (configured_interface_list g).
Proof.
  intros Hlt Hsmall Hcount. unfold set_interface_outbound_filter_list.
  destruct (outbound_filter_list (nth interface (configured_interface_list g) zero_interface))
    as [old|] eqn:Hold.
  - intros [= <- <- <-]. split; [exact Hcount|reflexivity].
  - destruct (filter_list_create _ _ _) as [created| |]; try discriminate.
    intros [= <- <- <-]. cbn [set_configured configured_interface_list].
    rewrite length_list_set. split; [|reflexivity].
    assert (Hno : has_outbound (nth interface (configured_interface_list g) zero_interface)
                  = false) by (unfold has_outbound; now rewrite Hold).
    rewrite (length_filter_list_set has_outbound _ _ _ Hlt Hno) by reflexivity.
    pose proof (length_filter_below has_outbound _ _ Hlt Hno).
    rewrite Z.mod_small by lia. lia.
Qed.

(** X20.  [unique_outbound_filter_count] is the number of interfaces that have an
    outbound filter list, whether the lists are shared or not:
    set_interface_outbound_filter_list keeps it so. *)
Theorem set_interface_outbound_filter_list_count (g : globals)
    (unique_outbound_filter_count : Z) (interface : nat)
    (allow_deny0 : filter_allow_deny_t) (list : list (list byte))
    (memory : allocation) (result : Z) (g' : globals)
    (unique_outbound_filter_count' : Z) :
  (interface < length (configured_interface_list g))%nat ->
  Z.of_nat (length (configured_interface_list g)) < 2 ^ 32 ->
  unique_outbound_filter_count
  = Z.of_nat (length (filter has_outbound (configured_interface_list g))) ->
  set_interface_outbound_filter_list g unique_outbound_filter_count interface
    allow_deny0 list memory
  = returns (result, g', unique_outbound_filter_count') ->
  unique_outbound_filter_count'
  = Z.of_nat (length (filter has_outbound (configured_interface_list g'))) /\
  length (configured_interface_list g') = length (configured_interface_list g).
Proof. apply set_interface_outbound_filter_list_counts. Qed.

Lemma set_interface_outbound_filter_list_count_witness :
  match set_interface_outbound_filter_list (set_configured no_filters three_interfaces) 2
          0 ALLOW ssh_http (zeroed 4) with
  | returns (result, g', unique_outbound_filter_count') =>
      unique_outbound_filter_count'
      = Z.of_nat (length (filter has_outbound (configured_interface_list g'))) /\
      length (configured_interface_list g') = 3%nat
  | _ => False
  end.
Proof.
  destruct (set_interface_outbound_filter_list _ _ _ _ _ _) as [[[result g'] count']| |] eqn:E;
    [|vm_compute in E; discriminate..].
  refine (set_interface_outbound_filter_list_count _ 2 0 _ _ _ _ _ _ _ _ _ E).
  - cbn. lia.
  - cbn. lia.
  - reflexivity.
Defined.

Lemma set_interface_outbound_filter_list_adopts (g : globals)
    (unique_outbound_filter_count : Z) (interface : nat)
    (allow_deny0 : filter_allow_deny_t) (list : list (list byte))
    (memory : allocation) (created : filter_ref) :
  (interface < length (configured_interface_list g))%nat ->
  interface_lists_full (configured_interface_list g) ->
  outbound_lists_shared (configured_interface_list g) ->
  outbound_filter_list (nth interface (configured_interface_list g) zero_interface) = None ->
  filter_list_create allow_deny0 list memory = returns created ->
  exists g' unique_outbound_filter_count' adopted,
    set_interface_outbound_filter_list g unique_outbound_filter_count interface
      allow_deny0 list memory
    = returns (0, g', unique_outbound_filter_count') /\
    global_filter_list g' = global_filter_list g /\
    (forall other, other <> interface ->
       nth other (configured_interface_list g') zero_interface
       = nth other (configured_interface_list g) zero_interface) /\
    nth interface (configured_interface_list g') zero_interface
    = set_outbound (nth interface (configured_interface_list g) zero_interface)
        (Some adopted) /\
    (forall name,
       allowed_outbound (Some adopted) name = allowed_outbound (Some created) name) /\
    interface_lists_full (configured_interface_list g') /\
    outbound_lists_shared (configured_interface_list g').
Proof.
  intros Hlt Hfull Hshared Hnone Hcreate.
  unfold set_interface_outbound_filter_list. rewrite Hnone, Hcreate.
  set (configured := configured_interface_list g) in *.
  set (adopted := adopt_existing (map outbound_filter_list configured) created).
  pose proof (filter_list_create_full _ _ _ _ Hcreate) as Hcfull.
  assert (Hadopted :
    (adopted = created /\
     forall index l, outbound_filter_list (nth index configured zero_interface) = Some l ->
       filter_list_compare (target l) (target created) <> 0) \/
    ((exists index, outbound_filter_list (nth index configured zero_interface)
                    = Some adopted) /\
     filter_list_compare (target adopted) (target created) = 0)).
  { pose proof (adopt_existing_spec (map outbound_filter_list configured) created)
      as Hspec.
    fold adopted in Hspec. destruct Hspec as [[E Hnot]|[Hin Hcmp]].
    - left. split; [exact E|]. intros index l Hl. apply Hnot. rewrite <- Hl.
      destruct (Nat.lt_ge_cases index (length configured)) as [Hi|Hi].
      + now apply in_map, nth_In.
      + rewrite nth_overflow in Hl by exact Hi. discriminate.
    - right. split; [|exact Hcmp]. apply in_map_nth in Hin as (index & _ & Hin).
      now exists index. }
  assert (Hafull : filter_list_full (target adopted)).
  { destruct Hadopted as [[-> _]|[[index Hindex] _]]; [exact Hcfull|].
    apply (Hfull index). now right. }
  exists (set_configured g
            (list_set configured interface
               (set_outbound (nth interface configured zero_interface) (Some adopted)))),
    ((unique_outbound_filter_count + 1) mod 2 ^ 32), adopted.
  cbn [set_configured global_filter_list configured_interface_list].
  assert (Hnew : forall index,
    nth index (list_set configured interface
                 (set_outbound (nth interface configured zero_interface) (Some adopted)))
      zero_interface
    = if Nat.eqb index interface
      then set_outbound (nth interface configured zero_interface) (Some adopted)
      else nth index configured zero_interface).
  { intros index. destruct (Nat.eqb_spec index interface) as [->|Hne].
    - now apply nth_list_set_same.
    - apply nth_list_set_other. congruence. }
  split; [reflexivity|]. split; [reflexivity|]. split.
  { intros other Hother. rewrite Hnew.
    now destruct (Nat.eqb_spec other interface). }
  split. { now rewrite Hnew, Nat.eqb_refl. }
  split.
  { intros name. cbn [allowed_outbound].
    destruct Hadopted as [[-> _]|[_ Hcmp]]; [reflexivity|].
    now apply filter_list_compare_same. }
  split.
  - intros index l. rewrite Hnew. destruct (Nat.eqb index interface).
    + cbn [set_outbound inbound_filter_list outbound_filter_list].
      intros [Hin|[= <-]]; [|exact Hafull]. apply (Hfull interface). now left.
    + apply Hfull.
  - assert (Hsym : forall a b, filter_list_full a -> filter_list_full b ->
                               filter_list_compare a b = 0 -> filter_list_compare b a = 0).
    { intros a b Ha Hb Hab. apply (filter_list_compare_zero _ _ Ha Hb) in Hab as [Had Hn].
      apply (filter_list_compare_zero _ _ Hb Ha). split; [now symmetry|].
      clear -Hn. induction Hn as [|? ? ? ? [? ?]]; constructor; [now split|assumption]. }
    intros i j li lj. rewrite !Hnew.
    destruct (Nat.eqb_spec i interface) as [->|Hi], (Nat.eqb_spec j interface) as [->|Hj];
      cbn [set_outbound outbound_filter_list].
    + now intros [= <-] [= <-].
    + intros [= <-] Hj' Hcmp.
      destruct Hadopted as [[-> Hnot]|[[index Hindex] _]].
      * exfalso. apply (Hnot j lj Hj'). apply Hsym; auto. apply (Hfull j). now right.
      * now apply (Hshared index j).
    + intros Hi' [= <-] Hcmp.
      destruct Hadopted as [[-> Hnot]|[[index Hindex] _]].
      * exfalso. now apply (Hnot i li Hi').
      * now apply (Hshared i index).
    + apply Hshared.
Qed.

(** X19.  set_interface_outbound_filter_list on an interface without an outbound
    list: the interface gets a list that allows the names that the list
    made of the given filters allows, be it that list or one adopted from
    another interface; the other interfaces, the inbound lists and the global
    list stay; and equal outbound lists stay one list. *)
Theorem set_interface_outbound_filter_list_shares (g : globals)
    (unique_outbound_filter_count : Z) (interface : nat)
    (allow_deny0 : filter_allow_deny_t) (list : list (list byte))
    (memory : allocation) (created : filter_ref) :
  (interface < length (configured_interface_list g))%nat ->
  interface_lists_full (configured_interface_list g) ->
  outbound_lists_shared (configured_interface_list g) ->
  outbound_filter_list (nth interface (configured_interface_list g) zero_interface) = None ->
  filter_list_create allow_deny0 list memory = returns created ->
  exists g' unique_outbound_filter_count' adopted,
    set_interface_outbound_filter_list g unique_outbound_filter_count interface
      allow_deny0 list memory
    = returns (0, g', unique_outbound_filter_count') /\
    global_filter_list g' = global_filter_list g /\
    (forall other, other <> interface ->
       nth other (configured_interface_list g') zero_interface
       = nth other (configured_interface_list g) zero_interface) /\
    nth interface (configured_interface_list g') zero_interface
    = set_outbound (nth interface (configured_interface_list g) zero_interface)
        (Some adopted) /\
    (forall name,
       allowed_outbound (Some adopted) name = allowed_outbound (Some created) name) /\
    interface_lists_full (configured_interface_list g') /\
    outbound_lists_shared (configured_interface_list g').
Proof. apply set_interface_outbound_filter_list_adopts. Qed.

Lemma three_interfaces_full : interface_lists_full three_interfaces.
Proof.
  intros index l H.
  do 4 (try destruct index as [|index]); cbn in H; destruct H as [H|H];
    try discriminate; injection H as <-; reflexivity.
Qed.

Lemma three_interfaces_shared : outbound_lists_shared three_interfaces.
Proof.
  intros i j li lj Hi Hj _.
  do 4 (try destruct i as [|i]); cbn in Hi; try discriminate; injection Hi as <-;
    do 4 (try destruct j as [|j]); cbn in Hj; try discriminate; injection Hj as <-;
    reflexivity.
Qed.

Lemma set_interface_outbound_filter_list_shares_witness :
  exists g' unique_outbound_filter_count' adopted,
    set_interface_outbound_filter_list (set_configured no_filters three_interfaces) 2 0
      DENY [datagram [95;115;115;104]] (zeroed 4)
    = returns (0, g', unique_outbound_filter_count') /\
    global_filter_list g' = None /\
    (forall other, other <> 0%nat ->
       nth other (configured_interface_list g') zero_interface
       = nth other three_interfaces zero_interface) /\
    nth 0 (configured_interface_list g') zero_interface
    = set_outbound (nth 0 three_interfaces zero_interface) (Some adopted) /\
    (forall name,
       allowed_outbound (Some adopted) name
       = allowed_outbound (Some deny_ssh_created) name) /\
    interface_lists_full (configured_interface_list g') /\
    outbound_lists_shared (configured_interface_list g').
Proof.
  apply (set_interface_outbound_filter_list_shares
           (set_configured no_filters three_interfaces) 2 0 DENY
           [datagram [95;115;115;104]] (zeroed 4) deny_ssh_created).
  - cbn. lia.
  - exact three_interfaces_full.
  - exact three_interfaces_shared.
  - reflexivity.
  - vm_compute. reflexivity.
Defined.

Lemma set_interface_inbound_filter_list_adopts (g : globals) (interface : nat)
    (allow_deny0 : filter_allow_deny_t) (list : list (list byte))
    (memory : allocation) (created : filter_ref) :
  (interface < length (configured_interface_list g))%nat ->
  interface_lists_full (configured_interface_list g) ->
  (forall l, global_filter_list g = Some l -> filter_list_full (target l)) ->
  inbound_filter_list (nth interface (configured_interface_list g) zero_interface) = None ->
  filter_list_create allow_deny0 list memory = returns created ->
  exists g' logged,
    set_interface_inbound_filter_list g interface allow_deny0 list memory
    = returns (0, g', logged) /\
    global_filter_list g' = global_filter_list g /\
    (forall other, other <> interface ->
       nth other (configured_interface_list g') zero_interface
       = nth other (configured_interface_list g) zero_interface) /\
    outbound_filter_list (nth interface (configured_interface_list g') zero_interface)
    = outbound_filter_list (nth interface (configured_interface_list g) zero_interface) /\
    (forall name,
       allowed_inbound g' (nth interface (configured_interface_list g') zero_interface) name
       = allowed_inbound g
           (set_inbound (nth interface (configured_interface_list g) zero_interface)
              (Some created)) name) /\
    interface_lists_full (configured_interface_list g').
Proof.
  intros Hlt Hfull Hglobal Hnone Hcreate.
  unfold set_interface_inbound_filter_list. rewrite Hnone, Hcreate.
  set (configured := configured_interface_list g) in *.
  pose proof (filter_list_create_full _ _ _ _ Hcreate) as Hcfull.
  destruct (match global_filter_list g with
            | Some global => filter_list_compare (target global) (target created) =? 0
            | None => false
            end) eqn:Hdup.
  - (* a duplicate of the global list *)
    exists g, true. fold configured.
    split; [reflexivity|]. split; [reflexivity|]. split; [reflexivity|].
    split; [reflexivity|]. split; [|exact Hfull].
    intros name. unfold allowed_inbound. rewrite Hnone.
    cbn [set_inbound inbound_filter_list].
    destruct (global_filter_list g) as [global|] eqn:Hg; [|discriminate].
    apply Z.eqb_eq in Hdup.
    rewrite <- (filter_list_compare_same _ _ name (Hglobal _ eq_refl) Hcfull Hdup).
    now destruct (filter_list_allowed (target global) name).
  - set (adopted := adopt_existing (map inbound_filter_list configured) created).
    assert (Hadopted :
      adopted = created \/
      ((exists index, inbound_filter_list (nth index configured zero_interface)
                      = Some adopted) /\
       filter_list_compare (target adopted) (target created) = 0)).
    { pose proof (adopt_existing_spec (map inbound_filter_list configured) created)
        as Hspec.
      fold adopted in Hspec. destruct Hspec as [[E _]|[Hin Hcmp]]; [now left|].
      right. split; [|exact Hcmp]. apply in_map_nth in Hin as (index & _ & Hin).
      now exists index. }
    assert (Hafull : filter_list_full (target adopted)).
    { destruct Hadopted as [->|[[index Hindex] _]]; [exact Hcfull|].
      apply (Hfull index). now left. }
    eexists. exists false. split; [reflexivity|].
    cbn [set_configured global_filter_list configured_interface_list].
    assert (Hnew : forall index,
      nth index (list_set configured interface
                   (set_inbound (nth interface configured zero_interface) (Some adopted)))
        zero_interface
      = if Nat.eqb index interface
        then set_inbound (nth interface configured zero_interface) (Some adopted)
        else nth index configured zero_interface).
    { intros index. destruct (Nat.eqb_spec index interface) as [->|Hne].
      - now apply nth_list_set_same.
      - apply nth_list_set_other. congruence. }
    split; [reflexivity|]. split.
    { intros other Hother. rewrite Hnew. now destruct (Nat.eqb_spec other interface). }
    split. { now rewrite Hnew, Nat.eqb_refl. }
    split.
    + intros name. rewrite Hnew, Nat.eqb_refl. unfold allowed_inbound.
      cbn [set_inbound inbound_filter_list global_filter_list].
      destruct Hadopted as [->|[_ Hcmp]]; [reflexivity|].
      now rewrite (filter_list_compare_same _ _ name Hafull Hcfull Hcmp).
    + intros index l. rewrite Hnew. destruct (Nat.eqb index interface).
      * cbn [set_inbound inbound_filter_list outbound_filter_list].
        intros [[= <-]|Hout]; [exact Hafull|]. apply (Hfull interface). now right.
      * apply Hfull.
Qed.

(** X18.  set_interface_inbound_filter_list on an interface without an inbound
    list: whether the new list is kept, dropped as a duplicate of the global
    list or replaced by the equal list of another interface, inbound
    filtering on the interface allows the names that it would allow with the
    list made of the given filters; nothing else changes. *)
Theorem set_interface_inbound_filter_list_allowed (g : globals) (interface : nat)
    (allow_deny0 : filter_allow_deny_t) (list : list (list byte))
    (memory : allocation) (created : filter_ref) :
  (interface < length (configured_interface_list g))%nat ->
  interface_lists_full (configured_interface_list g) ->
  (forall l, global_filter_list g = Some l -> filter_list_full (target l)) ->
  inbound_filter_list (nth interface (configured_interface_list g) zero_interface) = None ->
  filter_list_create allow_deny0 list memory = returns created ->
  exists g' logged,
    set_interface_inbound_filter_list g interface allow_deny0 list memory
    = returns (0, g', logged) /\
    global_filter_list g' = global_filter_list g /\
    (forall other, other <> interface ->
       nth other (configured_interface_list g') zero_interface
       = nth other (configured_interface_list g) zero_interface) /\
    outbound_filter_list (nth interface (configured_interface_list g') zero_interface)
    = outbound_filter_list (nth interface (configured_interface_list g) zero_interface) /\
    (forall name,
       allowed_inbound g' (nth interface (configured_interface_list g') zero_interface) name
       = allowed_inbound g
           (set_inbound (nth interface (configured_interface_list g) zero_interface)
              (Some created)) name) /\
    interface_lists_full (configured_interface_list g').
Proof. apply set_interface_inbound_filter_list_adopts. Qed.

Lemma set_interface_inbound_filter_list_allowed_witness :
  exists g' logged,
    set_interface_inbound_filter_list
      (set_configured global_deny_ssh three_interfaces) 0 DENY
      [datagram [95;115;115;104]] (zeroed 4)
    = returns (0, g', logged) /\
    global_filter_list g' = Some deny_ssh /\
    (forall other, other <> 0%nat ->
       nth other (configured_interface_list g') zero_interface
       = nth other three_interfaces zero_interface) /\
    outbound_filter_list (nth 0 (configured_interface_list g') zero_interface) = None /\
    (forall name,
       allowed_inbound g' (nth 0 (configured_interface_list g') zero_interface) name
       = allowed_inbound (set_configured global_deny_ssh three_interfaces)
           (set_inbound (nth 0 three_interfaces zero_interface) (Some deny_ssh_created))
           name) /\
    interface_lists_full (configured_interface_list g').
Proof.
  apply (set_interface_inbound_filter_list_allowed
           (set_configured global_deny_ssh three_interfaces) 0 DENY
           [datagram [95;115;115;104]] (zeroed 4) deny_ssh_created).
  - cbn. lia.
  - exact three_interfaces_full.
  - intros l [= <-]. reflexivity.
  - reflexivity.
  - vm_compute. reflexivity.
Defined.

(** ** Any number of calls of the three functions *)

Lemma Forall_list_set {A} (P : A -> Prop) (l : list A) (i : nat) (v : A) :
  Forall P l -> P v -> Forall P (list_set l i v).
Proof.
  intros Hall Hv. revert i. induction Hall as [|x l Hx Hall IH]; intros [|i];
    cbn [list_set]; constructor; auto.
Qed.

Lemma length_filter_list_set_same (f : interface_t -> bool) (l : list interface_t)
    (i : nat) (v : interface_t) :
  f v = f (nth i l zero_interface) ->
  length (filter f (list_set l i v)) = length (filter f l).
Proof.
  revert i. induction l as [|x l IH]; intros [|i] Hv; cbn [list_set nth filter] in *;
    try reflexivity.
  - rewrite Hv. destruct (f x); reflexivity.
  - destruct (f x); cbn [length]; now rewrite IH.
Qed.

Lemma set_interface_inbound_filter_list_shape g interface ad list memory result g' logged :
  set_interface_inbound_filter_list g interface ad list memory
  = returns (result, g', logged) ->
  g' = g \/
  exists adopted,
    g' = set_configured g
           (list_set (configured_interface_list g) interface
              (set_inbound (nth interface (configured_interface_list g) zero_interface)
                 (Some adopted))).
Proof.
  unfold set_interface_inbound_filter_list.
  destruct (inbound_filter_list _); [intros [= _ <- _]; now left|].
  destruct (filter_list_create _ _ _); try discriminate.
  destruct (match global_filter_list g with Some _ => _ | None => _ end);
    intros [= _ <- _]; [now left|]. right. eexists. reflexivity.
Qed.

Lemma set_interface_outbound_filter_list_shape g count interface ad list memory
    result g' count' :
  set_interface_outbound_filter_list g count interface ad list memory
  = returns (result, g', count') ->
  g' = g \/
  exists adopted,
    g' = set_configured g
           (list_set (configured_interface_list g) interface
              (set_outbound (nth interface (configured_interface_list g) zero_interface)
                 (Some adopted))).
Proof.
  unfold set_interface_outbound_filter_list.
  destruct (outbound_filter_list _); [intros [= _ <- _]; now left|].
  destruct (filter_list_create _ _ _); try discriminate.
  intros [= _ <- _]. right. eexists. reflexivity.
Qed.

Lemma peers_unset_zero : peers_unset zero_interface.
Proof. repeat split. Qed.

Lemma configuration_kept_start (g : globals) :
  global_filter_list g = None ->
  Forall filters_unset (configured_interface_list g) ->
  Forall peers_unset (configured_interface_list g) ->
  configuration_kept g 0.
Proof.
  intros Hglobal Hfilters Hpeers.
  assert (Hnth : forall index,
            filters_unset (nth index (configured_interface_list g) zero_interface)).
  { intros index.
    destruct (Nat.lt_ge_cases index (length (configured_interface_list g))) as [Hi|Hi].
    - rewrite Forall_forall in Hfilters. now apply Hfilters, nth_In.
    - rewrite nth_overflow by exact Hi. now split. }
  split; [|split; [exact Hpeers|split; [|split]]].
  - intros _.
    assert (Hnone : forall l, Forall filters_unset l -> filter has_outbound l = []).
    { induction 1 as [|x l [_ Hx] _ IH]; [reflexivity|].
      cbn [filter]. unfold has_outbound at 1. now rewrite Hx. }
    now rewrite (Hnone _ Hfilters).
  - intros index l [H|H]; destruct (Hnth index) as [Hin Hout]; congruence.
  - intros l. congruence.
  - intros i j li lj Hi. destruct (Hnth i) as [_ Hout]. congruence.
Qed.

Lemma configuration_kept_global g count ad list memory result g' :
  configuration_kept g count ->
  set_global_filter_list g ad list memory = returns (result, g') ->
  configuration_kept g' count.
Proof.
  intros Hkept. unfold set_global_filter_list.
  destruct (global_filter_list g); [now intros [= _ <-]|].
  destruct (filter_list_create _ _ _) as [created| |] eqn:Hcreate; try discriminate.
  intros [= _ <-]. destruct Hkept as (Hcount & Hpeers & Hfull & _ & Hshared).
  repeat split; try assumption.
  cbn [set_global global_filter_list]. intros l [= <-].
  now apply filter_list_create_full in Hcreate.
Qed.

Lemma configuration_kept_inbound g count interface ad list memory result g' logged :
  configuration_kept g count ->
  (interface < length (configured_interface_list g))%nat ->
  set_interface_inbound_filter_list g interface ad list memory
  = returns (result, g', logged) ->
  configuration_kept g' count.
Proof.
  intros Hkept Hlt Hset.
  destruct (set_interface_inbound_filter_list_shape _ _ _ _ _ _ _ _ Hset)
    as [->|[adopted Hshape]]; [exact Hkept|].
  destruct Hkept as (Hcount & Hpeers & Hfull & Hglobal & Hshared).
  set (old := nth interface (configured_interface_list g) zero_interface) in *.
  assert (Hnth : forall index,
    outbound_filter_list (nth index (configured_interface_list g') zero_interface)
    = outbound_filter_list (nth index (configured_interface_list g) zero_interface)).
  { intros index. rewrite Hshape. cbn [set_configured configured_interface_list].
    destruct (Nat.eq_dec interface index) as [<-|Hne].
    - now rewrite nth_list_set_same.
    - now rewrite nth_list_set_other. }
  assert (Hfull' : interface_lists_full (configured_interface_list g')).
  { revert Hset. unfold set_interface_inbound_filter_list. fold old.
    destruct (inbound_filter_list old) eqn:Hold; [now intros [= _ <- _]|].
    destruct (filter_list_create ad list memory) as [created| |] eqn:Hcreate;
      try discriminate.
    destruct (set_interface_inbound_filter_list_adopts g interface ad list memory created
                Hlt Hfull Hglobal Hold Hcreate) as (g2 & logged2 & Hset2 & _ & _ & _ & _ & Hf).
    unfold set_interface_inbound_filter_list in Hset2. fold old in Hset2.
    rewrite Hold, Hcreate in Hset2. intros Hset. rewrite Hset in Hset2.
    now injection Hset2 as _ <- _. }
  split; [|split; [|split; [exact Hfull'|split]]].
  - rewrite Hshape. cbn [set_configured configured_interface_list].
    rewrite length_list_set. intros Hsmall. rewrite (Hcount Hsmall).
    now rewrite length_filter_list_set_same.
  - rewrite Hshape. cbn [set_configured configured_interface_list].
    apply Forall_list_set; [exact Hpeers|].
    assert (Hold : peers_unset old).
    { rewrite Forall_forall in Hpeers. now apply Hpeers, nth_In. }
    exact Hold.
  - rewrite Hshape. exact Hglobal.
  - intros i j li lj. rewrite !Hnth. apply Hshared.
Qed.

Lemma configuration_kept_outbound g count interface ad list memory result g' count' :
  configuration_kept g count ->
  (interface < length (configured_interface_list g))%nat ->
  set_interface_outbound_filter_list g count interface ad list memory
  = returns (result, g', count') ->
  configuration_kept g' count'.
Proof.
  intros Hkept Hlt Hset.
  destruct Hkept as (Hcount & Hpeers & Hfull & Hglobal & Hshared).
  set (old := nth interface (configured_interface_list g) zero_interface) in *.
  assert (Hlen : length (configured_interface_list g')
                 = length (configured_interface_list g)).
  { destruct (set_interface_outbound_filter_list_shape _ _ _ _ _ _ _ _ _ Hset)
      as [->|[adopted ->]]; [reflexivity|].
    cbn [set_configured configured_interface_list]. apply length_list_set. }
  assert (Hboth : interface_lists_full (configured_interface_list g') /\
                  outbound_lists_shared (configured_interface_list g')).
  { revert Hset. unfold set_interface_outbound_filter_list. fold old.
    destruct (outbound_filter_list old) eqn:Hold; [now intros [= _ <- _]|].
    destruct (filter_list_create ad list memory) as [created| |] eqn:Hcreate;
      try discriminate.
    destruct (set_interface_outbound_filter_list_adopts g count interface ad list memory
                created Hlt Hfull Hshared Hold Hcreate)
      as (g2 & count2 & adopted & Hset2 & _ & _ & _ & _ & Hf & Hs).
    unfold set_interface_outbound_filter_list in Hset2. fold old in Hset2.
    rewrite Hold, Hcreate in Hset2. intros Hset. rewrite Hset in Hset2.
    injection Hset2 as _ <- _. now split. }
  split; [|split; [|split; [apply Hboth|split; [|apply Hboth]]]].
  - rewrite Hlen. intros Hsmall.
    now destruct (set_interface_outbound_filter_list_counts _ _ _ _ _ _ _ _ _
                    Hlt Hsmall (Hcount Hsmall) Hset).
  - destruct (set_interface_outbound_filter_list_shape _ _ _ _ _ _ _ _ _ Hset)
      as [->|[adopted ->]]; [exact Hpeers|].
    cbn [set_configured configured_interface_list].
    apply Forall_list_set; [exact Hpeers|].
    assert (Hold : peers_unset old).
    { rewrite Forall_forall in Hpeers. now apply Hpeers, nth_In. }
    exact Hold.
  - destruct (set_interface_outbound_filter_list_shape _ _ _ _ _ _ _ _ _ Hset)
      as [->|[adopted ->]]; exact Hglobal.
Qed.

Lemma filter_configuration_kept (g : globals) (count : Z) :
  filter_configuration g count -> configuration_kept g count.
Proof.
  induction 1.
  - now apply configuration_kept_start.
  - eapply configuration_kept_global; eassumption.
  - eapply configuration_kept_inbound; eassumption.
  - eapply configuration_kept_outbound; eassumption.
Qed.

(** X21.  Whatever filter lists are set, in whatever order, the arrays that
    build_interface_peer_lists allocates with [unique_outbound_filter_count]
    entries are large enough: it stores nothing past their end; and no
    interface gets two peer filter lists that filter_list_compare finds
    equal. *)
Theorem configured_peer_filter_lists (g : globals) (unique_outbound_filter_count : Z)
    (ip_interface_list : list nat) :
  filter_configuration g unique_outbound_filter_count ->
  Z.of_nat (length (configured_interface_list g)) < 2 ^ 32 ->
  NoDup ip_interface_list ->
  (forall i, In i ip_interface_list -> (i < length (configured_interface_list g))%nat) ->
  exists configured',
    build_interface_peer_lists unique_outbound_filter_count ip_interface_list
      (configured_interface_list g)
    = Some configured' /\
    forall i, In i ip_interface_list ->
      forall a b fa fb,
        nth_error (peer_filter_list (nth i configured' zero_interface)) a = Some fa ->
        nth_error (peer_filter_list (nth i configured' zero_interface)) b = Some fb ->
        a <> b ->
        filter_list_compare (target fa) (target fb) <> 0.
Proof.
  intros Hconf Hsmall Hnd Hin.
  apply filter_configuration_kept in Hconf as (Hcount & Hpeers & _ & _ & Hshared).
  destruct (build_interface_peer_lists_built unique_outbound_filter_count
              ip_interface_list (configured_interface_list g) Hnd)
    as (configured' & Hbuild & _ & Hbuilt).
  - intros i Hi. split; [now apply Hin|].
    rewrite Forall_forall in Hpeers. apply Hpeers, nth_In. now apply Hin.
  - rewrite (Hcount Hsmall). lia.
  - exists configured'. split; [exact Hbuild|].
    intros i Hi a b fa fb Ha Hb Hab Hcmp.
    destruct (Hbuilt i) as (_ & _ & _ & _ & Hlists).
    destruct (Hlists Hi) as (_ & _ & Hnodup & Hfrom & _).
    destruct (Hfrom fa (nth_error_In _ _ Ha)) as (pa & _ & Hpa).
    destruct (Hfrom fb (nth_error_In _ _ Hb)) as (pb & _ & Hpb).
    pose proof (Hshared pa pb fa fb Hpa Hpb Hcmp) as Haddr.
    apply Hab. rewrite NoDup_nth_error in Hnodup. apply Hnodup.
    + rewrite length_map. apply nth_error_Some. congruence.
    + rewrite !nth_error_map, Ha, Hb. cbn. now rewrite Haddr.
Qed.

Lemma configured_after_outbound :
  filter_configuration
    (set_configured no_filters
       (list_set two_plain_interfaces 1
          (set_outbound (nth 1 two_plain_interfaces zero_interface)
             (Some deny_ssh_created))))
    1.
Proof.
  apply (configuration_outbound (set_configured no_filters two_plain_interfaces) 0 1%nat
           DENY [datagram [95;115;115;104]] (zeroed 4) 0).
  - apply configuration_start; [reflexivity| |]; repeat constructor.
  - cbn. lia.
  - vm_compute. reflexivity.
Qed.

Lemma configured_peer_filter_lists_witness :
  exists configured',
    build_interface_peer_lists 1 [0; 1]%nat
      (configured_interface_list
         (set_configured no_filters
            (list_set two_plain_interfaces 1
               (set_outbound (nth 1 two_plain_interfaces zero_interface)
                  (Some deny_ssh_created)))))
    = Some configured' /\
    forall i, In i [0; 1]%nat ->
      forall a b fa fb,
        nth_error (peer_filter_list (nth i configured' zero_interface)) a = Some fa ->
        nth_error (peer_filter_list (nth i configured' zero_interface)) b = Some fb ->
        a <> b ->
        filter_list_compare (target fa) (target fb) <> 0.
Proof.
  apply configured_peer_filter_lists.
  - exact configured_after_outbound.
  - cbn. lia.
  - repeat constructor; cbn; intuition discriminate.
  - intros i [<-|[<-|[]]]; cbn; lia.
Defined.

(** ** The strings of a configuration line *)

Lemma isspace_not_nul (c : byte) : isspace c = true -> c <> x00.
Proof. intros H ->. discriminate. Qed.

Lemma isspace_not_comma (c : byte) : isspace c = true -> c <> comma.
Proof. intros H ->. discriminate. Qed.

Lemma isspace_not_equals (c : byte) : isspace c = true -> c <> equals.
Proof. intros H ->. discriminate. Qed.

Lemma byte_eqb_false (a b : byte) : a <> b -> Byte.eqb a b = false.
Proof.
  intros H. destruct (Byte.eqb a b) eqn:E; [|reflexivity].
  apply Byte.byte_dec_bl in E. contradiction.
Qed.

Lemma byte_eqb_true (a b : byte) : Byte.eqb a b = true <-> a = b.
Proof. split; [apply Byte.byte_dec_bl|apply Byte.byte_dec_lb]. Qed.

Lemma rd_middle (pre : list byte) (c : byte) (post : list byte) :
  rd (pre ++ c :: post) (Z.of_nat (length pre)) = c.
Proof. unfold rd. rewrite Nat2Z.id. apply nth_middle. Qed.

Lemma rd_end (buffer : list byte) : rd buffer (Z.of_nat (length buffer)) = x00.
Proof. unfold rd. rewrite Nat2Z.id. now apply nth_overflow. Qed.

Lemma skipn_length_app {A} (pre post : list A) : skipn (length pre) (pre ++ post) = post.
Proof. now rewrite skipn_app, skipn_all, Nat.sub_diag. Qed.

Lemma list_set_middle {A} (pre : list A) (c v : A) (post : list A) :
  list_set (pre ++ c :: post) (length pre) v = pre ++ v :: post.
Proof. induction pre as [|x pre IH]; cbn [app length list_set]; congruence. Qed.

Lemma repeat_snoc {A} (x : A) (n : nat) : repeat x n ++ [x] = x :: repeat x n.
Proof. induction n as [|n IH]; cbn [repeat app]; congruence. Qed.

Lemma whitespace_run_app (ws rest : list byte) :
  white_space ws -> isspace (hd x00 rest) = false ->
  whitespace_run (ws ++ rest) = Z.of_nat (length ws).
Proof.
  intros Hws Hrest. induction Hws as [|c ws Hc _ IH]; cbn [app whitespace_run length].
  - destruct rest as [|r rest]; [reflexivity|]. cbn [hd whitespace_run] in *.
    now rewrite Hrest.
  - rewrite Hc, IH. lia.
Qed.

Lemma trim_trailing_loop_spec (stem : list byte) :
  stem <> [] -> isspace (last stem x00) = false ->
  forall ws post,
    white_space ws ->
    trim_trailing_loop (length (stem ++ ws)) (stem ++ ws ++ post)
    = Some (stem ++ repeat x00 (length ws) ++ post).
Proof.
  intros Hne Hlast ws. induction ws as [|w ws IH] using rev_ind; intros post Hws.
  - rewrite app_nil_r. cbn [app length repeat].
    destruct (exists_last Hne) as (stem' & c & ->).
    rewrite last_last in Hlast. rewrite length_app. cbn [length].
    replace (length stem' + 1)%nat with (S (length stem')) by lia.
    cbn [trim_trailing_loop]. rewrite <- app_assoc. cbn [app].
    now rewrite nth_middle, Hlast.
  - apply Forall_app in Hws as [Hws Hw]. apply Forall_inv in Hw.
    rewrite !length_app. cbn [length].
    replace (length stem + (length ws + 1))%nat with (S (length (stem ++ ws)))
      by (rewrite length_app; lia).
    cbn [trim_trailing_loop].
    replace (stem ++ (ws ++ [w]) ++ post) with ((stem ++ ws) ++ w :: post)
      by (rewrite <- !app_assoc; reflexivity).
    rewrite nth_middle, Hw, list_set_middle.
    rewrite <- app_assoc. rewrite (IH (x00 :: post) Hws).
    replace (length ws + 1)%nat with (S (length ws)) by lia.
    cbn [repeat]. rewrite <- repeat_snoc, <- !app_assoc. reflexivity.
Qed.

Lemma strlen_nul (s : list byte) : strlen (x00 :: s) = 0.
Proof. reflexivity. Qed.

Lemma c_string_app (s rest : list byte) :
  ~ In x00 s -> hd x00 rest = x00 -> c_string (s ++ rest) = s.
Proof.
  intros Hs Hrest. induction s as [|c s IH]; cbn [app c_string].
  - destruct rest as [|r rest]; [reflexivity|]. cbn [hd] in Hrest. now subst r.
  - rewrite byte_eqb_false by (intros ->; apply Hs; now left).
    rewrite IH; [reflexivity|]. intros H. apply Hs. now right.
Qed.

(** ** split_comma_list on a list of elements *)

(** The loop passes the bytes that are neither NUL nor comma. *)
Lemma split_comma_list_loop_scan :
  forall passed fuel pre post index array,
    Forall (fun c => c <> x00 /\ c <> comma) passed ->
    (length passed <= fuel)%nat ->
    split_comma_list_loop fuel (pre ++ passed ++ post) (Z.of_nat (length pre)) index array
    = split_comma_list_loop (fuel - length passed) (pre ++ passed ++ post)
        (Z.of_nat (length (pre ++ passed))) index array.
Proof.
  induction passed as [|c passed IH]; intros fuel pre post index array Hall Hfuel.
  - rewrite app_nil_r, Nat.sub_0_r. reflexivity.
  - apply Forall_cons_iff in Hall as [[Hnul Hcomma] Hall].
    destruct fuel as [|fuel]; [cbn in Hfuel; lia|].
    cbn [split_comma_list_loop length Nat.sub app].
    rewrite rd_middle, !byte_eqb_false by assumption. cbn [negb].
    replace (pre ++ c :: passed ++ post) with ((pre ++ [c]) ++ passed ++ post)
      by (rewrite <- app_assoc; reflexivity).
    replace (Z.of_nat (length pre) + 1) with (Z.of_nat (length (pre ++ [c])))
      by (rewrite length_app; cbn [length]; lia).
    rewrite IH by (auto; cbn [length] in Hfuel; lia).
    rewrite <- !app_assoc. reflexivity.
Qed.

Lemma last_app_r {A} (pre rest : list A) (d : A) :
  rest <> [] -> last (pre ++ rest) d = last rest d.
Proof.
  intros Hne. destruct (exists_last Hne) as (rest' & c & ->).
  now rewrite app_assoc, !last_last.
Qed.

Lemma list_element_head (element rest : list byte) :
  list_element element ->
  hd x00 (element ++ rest) = hd x00 element /\ hd x00 element <> x00.
Proof.
  intros (Hne & Hnul & _). destruct element as [|c element]; [contradiction|].
  cbn [app hd]. split; [reflexivity|]. intros E. apply Hnul. rewrite <- E. now left.
Qed.

Lemma list_element_passed (element ws : list byte) :
  list_element element -> white_space ws ->
  Forall (fun c => c <> x00 /\ c <> comma) (element ++ ws).
Proof.
  intros (_ & Hnul & Hcomma & _) Hws. apply Forall_app. split.
  - apply Forall_forall. intros c Hc. split; intros ->; auto.
  - eapply Forall_impl; [|exact Hws]. intros c Hc.
    split; [now apply isspace_not_nul|now apply isspace_not_comma].
Qed.

(** The loop at the comma that ends an element. *)
Lemma split_comma_list_loop_comma (fuel : nat) (pre element before after next post : list byte)
    (index : Z) (array : list Z) :
  list_element element -> white_space before -> white_space after ->
  list_element next ->
  Z.of_nat (length array) = index ->
  index + 1 < MAX_LIST_ARRAY ->
  split_comma_list_loop (S fuel)
    ((pre ++ element ++ before) ++ comma :: after ++ next ++ post)
    (Z.of_nat (length (pre ++ element ++ before))) index
    (array ++ [Z.of_nat (length pre)])
  = split_comma_list_loop fuel
      ((pre ++ element ++ repeat x00 (length before) ++ x00 :: after) ++ next ++ post)
      (Z.of_nat (length (pre ++ element ++ repeat x00 (length before) ++ x00 :: after)))
      (index + 1)
      ((array ++ [Z.of_nat (length pre)])
       ++ [Z.of_nat (length (pre ++ element ++ repeat x00 (length before) ++ x00 :: after))]).
Proof.
  intros Helement Hbefore Hafter Hnext Harray Hroom.
  pose proof Helement as (Hne & _ & _ & _ & Hlast).
  assert (Hlen : (0 < length element)%nat) by (destruct element; [contradiction|cbn; lia]).
  cbn [split_comma_list_loop].
  rewrite rd_middle. change (Byte.eqb comma x00) with false.
  change (Byte.eqb comma comma) with true. cbn [negb].
  destruct (Z.geb_spec (index + 1) MAX_LIST_ARRAY) as [|_]; [lia|].
  rewrite Nat2Z.id, list_set_middle.
  (* the white space before the comma *)
  assert (Htrim :
    trim_trailing_whitespace
      ((pre ++ element ++ before) ++ x00 :: after ++ next ++ post)
      (Z.of_nat (length (pre ++ element ++ before)))
    = Some ((pre ++ element) ++ repeat x00 (length before)
            ++ x00 :: after ++ next ++ post)).
  { unfold trim_trailing_whitespace. rewrite Nat2Z.id, skipn_length_app, strlen_nul.
    destruct (Z.ltb_spec (Z.of_nat (length (pre ++ element ++ before)) + 0 - 1) 0) as [Hneg|_].
    { rewrite !length_app in Hneg. lia. }
    replace (Z.to_nat (Z.of_nat (length (pre ++ element ++ before)) + 0 - 1 + 1))
      with (length ((pre ++ element) ++ before)) by (rewrite <- app_assoc; lia).
    replace ((pre ++ element ++ before) ++ x00 :: after ++ next ++ post)
      with ((pre ++ element) ++ before ++ x00 :: after ++ next ++ post)
      by (rewrite <- !app_assoc; reflexivity).
    apply trim_trailing_loop_spec; [| |exact Hbefore].
    - destruct pre; [exact Hne|discriminate].
    - rewrite last_app_r by exact Hne. exact Hlast. }
  rewrite Htrim.
  (* the element is not empty *)
  rewrite <- Harray, Nat2Z.id, nth_middle.
  destruct (Z.eqb_spec (Z.of_nat (length pre)) (Z.of_nat (length (pre ++ element ++ before))))
    as [E|_]; [rewrite !length_app in E; lia|].
  (* the white space after the comma *)
  assert (Hlead :
    trim_leading_whitespace
      ((pre ++ element) ++ repeat x00 (length before) ++ x00 :: after ++ next ++ post)
      (Z.of_nat (length (pre ++ element ++ before)) + 1)
    = Z.of_nat (length (pre ++ element ++ repeat x00 (length before) ++ x00 :: after))).
  { unfold trim_leading_whitespace.
    replace (Z.to_nat (Z.of_nat (length (pre ++ element ++ before)) + 1))
      with (length (pre ++ element ++ repeat x00 (length before) ++ [x00]))
      by (rewrite !length_app, repeat_length; cbn [length]; lia).
    replace ((pre ++ element) ++ repeat x00 (length before) ++ x00 :: after ++ next ++ post)
      with ((pre ++ element ++ repeat x00 (length before) ++ [x00]) ++ after ++ next ++ post)
      by (rewrite <- !app_assoc; reflexivity).
    rewrite skipn_length_app, whitespace_run_app; [|exact Hafter|].
    - rewrite !length_app, !repeat_length. cbn [length]. rewrite ?length_app. lia.
    - destruct (list_element_head next post Hnext) as [-> _]. apply Hnext. }
  rewrite Hlead.
  replace ((pre ++ element) ++ repeat x00 (length before) ++ x00 :: after ++ next ++ post)
    with ((pre ++ element ++ repeat x00 (length before) ++ x00 :: after) ++ next ++ post)
    by (rewrite <- !app_assoc; cbn [app]; rewrite <- ?app_assoc; reflexivity).
  destruct Hnext as (Hnext & Hnul & _).
  destruct next as [|c next]; [contradiction|]. cbn [app]. rewrite rd_middle.
  rewrite byte_eqb_false by (intros ->; apply Hnul; now left).
  reflexivity.
Qed.

Lemma split_comma_list_loop_elements :
  forall rest fuel pre element index array,
    list_element element -> Forall list_item rest ->
    Z.of_nat (length array) = index ->
    index + 1 <= MAX_LIST_ARRAY ->
    (length (element ++ comma_list rest) < fuel)%nat ->
    split_comma_list_loop fuel (pre ++ element ++ comma_list rest)
      (Z.of_nat (length pre)) index (array ++ [Z.of_nat (length pre)])
    = Some (if index + 1 + Z.of_nat (length rest) <=? MAX_LIST_ARRAY
            then returns (pre ++ element ++ comma_list_split rest,
                          (array ++ [Z.of_nat (length pre)])
                          ++ comma_list_offsets
                               (Z.of_nat (length pre) + Z.of_nat (length element)) rest,
                          index + 1 + Z.of_nat (length rest))
            else fatal).
Proof.
  induction rest as [|[[before after] next] rest IH];
    intros fuel pre element index array Helement Hrest Harray Hroom Hfuel.
  - cbn [comma_list comma_list_split comma_list_offsets length] in *.
    rewrite app_nil_r in Hfuel.
    rewrite (split_comma_list_loop_scan element fuel pre [] index _)
      by first [lia | rewrite <- (app_nil_r element); apply list_element_passed;
                      [exact Helement|apply Forall_nil]].
    destruct (fuel - length element)%nat as [|fuel'] eqn:Hleft; [lia|].
    rewrite !app_nil_r. cbn [split_comma_list_loop].
    rewrite rd_end. change (Byte.eqb x00 x00) with true. cbn [negb].
    rewrite Z.add_0_r. destruct (Z.leb_spec (index + 1) MAX_LIST_ARRAY); [reflexivity|lia].
  - apply Forall_cons_iff in Hrest as [(Hbefore & Hafter & Hnext) Hrest].
    cbn [fst snd] in Hbefore, Hafter, Hnext.
    cbn [comma_list comma_list_split comma_list_offsets length] in *.
    replace (pre ++ element ++ before ++ comma :: after ++ next ++ comma_list rest)
      with (pre ++ (element ++ before) ++ comma :: after ++ next ++ comma_list rest)
      by (rewrite <- !app_assoc; reflexivity).
    rewrite !length_app in Hfuel. cbn [length] in Hfuel. rewrite !length_app in Hfuel.
    rewrite (split_comma_list_loop_scan (element ++ before) fuel pre _ index _)
      by first [rewrite length_app; lia | now apply list_element_passed].
    destruct (fuel - length (element ++ before))%nat as [|fuel'] eqn:Hleft;
      [rewrite length_app in Hleft; lia|].
    rewrite length_app in Hleft.
    replace (pre ++ (element ++ before) ++ comma :: after ++ next ++ comma_list rest)
      with ((pre ++ element ++ before) ++ comma :: after ++ next ++ comma_list rest)
      by (rewrite <- !app_assoc; reflexivity).
    replace (pre ++ (element ++ before)) with (pre ++ element ++ before)
      by reflexivity.
    destruct (Z.ltb_spec (index + 1) MAX_LIST_ARRAY) as [Hmore|Hfull].
    + rewrite (split_comma_list_loop_comma fuel' pre element before after next _ index array)
        by assumption.
      rewrite (IH fuel' _ next (index + 1) (array ++ [Z.of_nat (length pre)]));
        try assumption; try lia.
      * destruct (Z.leb_spec (index + 1 + 1 + Z.of_nat (length rest)) MAX_LIST_ARRAY),
          (Z.leb_spec (index + 1 + Z.of_nat (S (length rest))) MAX_LIST_ARRAY);
          try lia; [|reflexivity].
        match goal with
        | |- Some (returns (?a, ?b, ?c)) = Some (returns (?a', ?b', ?c')) =>
            assert (Ha : a = a'); [|assert (Hb : b = b');
              [|assert (Hc : c = c') by lia; now rewrite Ha, Hb, Hc]]
        end.
        -- rewrite <- !app_assoc. cbn [app]. rewrite <- ?app_assoc. reflexivity.
        -- rewrite <- !app_assoc. f_equal. cbn [app]. f_equal.
           assert (Hhere :
             Z.of_nat (length (pre ++ element ++ repeat x00 (length before) ++ x00 :: after))
             = Z.of_nat (length pre) + Z.of_nat (length element)
               + Z.of_nat (length before) + 1 + Z.of_nat (length after)).
           { rewrite !length_app, repeat_length. cbn [length]. lia. }
           rewrite Hhere. reflexivity.
      * rewrite length_app. cbn [length]. lia.
      * rewrite length_app. lia.
    + cbn [split_comma_list_loop]. rewrite rd_middle.
      change (Byte.eqb comma x00) with false. change (Byte.eqb comma comma) with true.
      cbn [negb].
      destruct (Z.geb_spec (index + 1) MAX_LIST_ARRAY) as [_|]; [|lia].
      destruct (Z.leb_spec (index + 1 + Z.of_nat (S (length rest))) MAX_LIST_ARRAY);
        [lia|reflexivity].
Qed.

Lemma comma_list_split_strings :
  forall rest pre element,
    list_element element -> Forall list_item rest ->
    map (string_at (pre ++ element ++ comma_list_split rest))
      (Z.of_nat (length pre)
       :: comma_list_offsets (Z.of_nat (length pre) + Z.of_nat (length element)) rest)
    = element :: map snd rest.
Proof.
  induction rest as [|[[before after] next] rest IH]; intros pre element Helement Hrest;
    cbn [comma_list_split comma_list_offsets map snd].
  - unfold string_at. rewrite Nat2Z.id, skipn_length_app, app_nil_r.
    f_equal. rewrite <- (app_nil_r element) at 1. apply c_string_app; [apply Helement|reflexivity].
  - apply Forall_cons_iff in Hrest as [(_ & _ & Hnext) Hrest]. cbn [snd] in Hnext.
    f_equal.
    + unfold string_at. rewrite Nat2Z.id, skipn_length_app.
      apply c_string_app; [apply Helement|]. now destruct before.
    + specialize (IH (pre ++ element ++ repeat x00 (length before) ++ x00 :: after)
                     next Hnext Hrest).
      assert (Hhere :
        Z.of_nat (length (pre ++ element ++ repeat x00 (length before) ++ x00 :: after))
        = Z.of_nat (length pre) + Z.of_nat (length element)
          + Z.of_nat (length before) + 1 + Z.of_nat (length after)).
      { rewrite !length_app, repeat_length. cbn [length]. lia. }
      rewrite Hhere in IH. rewrite <- IH. cbn [map].
      replace ((pre ++ element ++ repeat x00 (length before) ++ x00 :: after)
               ++ next ++ comma_list_split rest)
        with (pre ++ element ++ repeat x00 (length before)
              ++ x00 :: after ++ next ++ comma_list_split rest)
        by (rewrite <- !app_assoc; cbn [app]; rewrite <- ?app_assoc; reflexivity).
      reflexivity.
Qed.

(** X29.  split_comma_list on a list of elements with white space around the
    commas: with 1024 elements at most it returns their number, and the
    array holds the elements in their order, the white space cut off; nothing
    in front of the list changes.  With more elements it ends in fatal(). *)
Theorem split_comma_list_elements (front first : list byte)
    (rest : list (list byte * list byte * list byte)) :
  list_element first -> Forall list_item rest ->
  (1 + Z.of_nat (length rest) <= MAX_LIST_ARRAY ->
   exists buffer' array,
     split_comma_list (front ++ first ++ comma_list rest) (Z.of_nat (length front))
     = Some (returns (buffer', array, 1 + Z.of_nat (length rest))) /\
     map (string_at buffer') array = first :: map snd rest /\
     firstn (length front) buffer' = front) /\
  (1 + Z.of_nat (length rest) > MAX_LIST_ARRAY ->
   split_comma_list (front ++ first ++ comma_list rest) (Z.of_nat (length front))
   = Some fatal).
Proof.
  intros Hfirst Hrest. unfold split_comma_list.
  rewrite (split_comma_list_loop_elements rest _ front first 0 []); try assumption;
    try reflexivity.
  - change (0 + 1) with 1. split; intros Hcount.
    + destruct (Z.leb_spec (1 + Z.of_nat (length rest)) MAX_LIST_ARRAY); [|lia].
      eexists. eexists. split; [reflexivity|]. split.
      * cbn [app]. apply comma_list_split_strings; assumption.
      * now rewrite firstn_app, firstn_all, Nat.sub_diag, app_nil_r.
    + destruct (Z.leb_spec (1 + Z.of_nat (length rest)) MAX_LIST_ARRAY); [lia|reflexivity].
  - unfold MAX_LIST_ARRAY. lia.
  - rewrite !length_app. lia.
Qed.

Lemma split_comma_list_elements_witness :
  (1 + Z.of_nat (length [(datagram [32], datagram [32;9], datagram [95;104])])
   <= MAX_LIST_ARRAY ->
   exists buffer' array,
     split_comma_list
       (datagram [107;0] ++ datagram [95;115]
        ++ comma_list [(datagram [32], datagram [32;9], datagram [95;104])])
       (Z.of_nat (length (datagram [107;0])))
     = Some (returns (buffer', array,
                      1 + Z.of_nat (length [(datagram [32], datagram [32;9],
                                             datagram [95;104])]))) /\
     map (string_at buffer') array
     = datagram [95;115]
       :: map snd [(datagram [32], datagram [32;9], datagram [95;104])] /\
     firstn (length (datagram [107;0])) buffer' = datagram [107;0]) /\
  (1 + Z.of_nat (length [(datagram [32], datagram [32;9], datagram [95;104])])
   > MAX_LIST_ARRAY ->
   split_comma_list
     (datagram [107;0] ++ datagram [95;115]
      ++ comma_list [(datagram [32], datagram [32;9], datagram [95;104])])
     (Z.of_nat (length (datagram [107;0])))
   = Some fatal).
Proof.
  apply split_comma_list_elements.
  - repeat split; try discriminate; cbn; intuition discriminate.
  - repeat constructor; try discriminate; cbn; intuition discriminate.
Defined.

(** ** split_comma_list on any line *)

Lemma rd_list_set (buffer : list byte) (i : nat) (v : byte) (q : Z) :
  rd (list_set buffer i v) q
  = if (Nat.eqb (Z.to_nat q) i && Nat.ltb i (length buffer))%bool then v else rd buffer q.
Proof. unfold rd. apply nth_list_set. Qed.

Lemma trim_trailing_loop_effect :
  forall n buffer buffer',
    trim_trailing_loop n buffer = Some buffer' ->
    length buffer' = length buffer /\
    forall q, rd buffer' q = rd buffer q \/
              (isspace (rd buffer q) = true /\ rd buffer' q = x00).
Proof.
  induction n as [|n IH]; intros buffer buffer' H; cbn [trim_trailing_loop] in H;
    [discriminate|].
  destruct (isspace (nth n buffer x00)) eqn:Hspace.
  - apply IH in H as [Hlen H]. rewrite length_list_set in Hlen. split; [exact Hlen|].
    intros q. destruct (H q) as [Hq|[Hq Hq']]; rewrite rd_list_set in Hq.
    + destruct (Nat.eqb_spec (Z.to_nat q) n) as [E|E]; cbn [andb] in Hq; [|now left].
      destruct (Nat.ltb n (length buffer)); [|now left].
      right. split; [|exact Hq]. unfold rd. now rewrite E.
    + destruct (Nat.eqb (Z.to_nat q) n && Nat.ltb n (length buffer))%bool;
        [discriminate|]. right. now split.
  - injection H as <-. split; [reflexivity|]. intros q. now left.
Qed.

Lemma trim_trailing_whitespace_effect (buffer buffer' : list byte) (str : Z) :
  trim_trailing_whitespace buffer str = Some buffer' ->
  length buffer' = length buffer /\
  forall q, rd buffer' q = rd buffer q \/
            (isspace (rd buffer q) = true /\ rd buffer' q = x00).
Proof.
  unfold trim_trailing_whitespace. destruct (_ <? 0); [discriminate|].
  apply trim_trailing_loop_effect.
Qed.

Lemma whitespace_run_spec (s : list byte) :
  0 <= whitespace_run s <= Z.of_nat (length s) /\
  (forall k, (Z.of_nat k < whitespace_run s) -> isspace (nth k s x00) = true) /\
  isspace (nth (Z.to_nat (whitespace_run s)) s x00) = false.
Proof.
  induction s as [|c s (IH1 & IH2 & IH3)]; cbn [whitespace_run length].
  - split; [lia|]. split; [lia|]. reflexivity.
  - destruct (isspace c) eqn:Hc.
    + split; [lia|]. split.
      * intros [|k] Hk; [exact Hc|]. cbn [nth]. apply IH2. lia.
      * replace (Z.to_nat (1 + whitespace_run s)) with (S (Z.to_nat (whitespace_run s)))
          by lia. exact IH3.
    + split; [lia|]. split; [lia|]. exact Hc.
Qed.

Lemma nth_skipn_plus {A} (l : list A) (n k : nat) (d : A) :
  nth k (skipn n l) d = nth (n + k) l d.
Proof.
  revert l. induction n as [|n IH]; intros [|x l]; cbn [skipn nth Nat.add];
    try reflexivity; [now destruct k|apply IH].
Qed.

Lemma trim_leading_whitespace_spec (buffer : list byte) (str : Z) :
  0 <= str ->
  let str' := trim_leading_whitespace buffer str in
  str <= str' /\
  (str <= Z.of_nat (length buffer) -> str' <= Z.of_nat (length buffer)) /\
  (forall q, str <= q < str' -> isspace (rd buffer q) = true) /\
  isspace (rd buffer str') = false.
Proof.
  intros Hstr. unfold trim_leading_whitespace. cbv zeta.
  destruct (whitespace_run_spec (skipn (Z.to_nat str) buffer)) as (Hrange & Hrun & Hend).
  rewrite length_skipn in Hrange.
  split; [lia|]. split; [lia|]. split.
  - intros q Hq. specialize (Hrun (Z.to_nat (q - str)) ltac:(lia)).
    rewrite nth_skipn_plus in Hrun. unfold rd.
    now replace (Z.to_nat q) with (Z.to_nat str + Z.to_nat (q - str))%nat by lia.
  - rewrite nth_skipn_plus in Hend. unfold rd.
    now replace (Z.to_nat (str + whitespace_run (skipn (Z.to_nat str) buffer)))
      with (Z.to_nat str + Z.to_nat (whitespace_run (skipn (Z.to_nat str) buffer)))%nat
      by lia.
Qed.

Lemma rd_not_nul_inside (buffer : list byte) (q : Z) :
  0 <= q -> rd buffer q <> x00 -> q < Z.of_nat (length buffer).
Proof.
  intros Hq Hrd. destruct (Z.lt_ge_cases q (Z.of_nat (length buffer))) as [|Hge];
    [assumption|]. exfalso. apply Hrd. unfold rd. apply nth_overflow. lia.
Qed.

(** The loop ends, and what it returns it has kept as
    [split_comma_list_kept] says, with [str] at the NUL that ends the line. *)
Lemma split_comma_list_loop_kept (start : Z) :
  forall fuel buffer str index array,
    split_comma_list_kept buffer start str index array ->
    (Z.to_nat (Z.of_nat (length buffer) - str) < fuel)%nat ->
    match split_comma_list_loop fuel buffer str index array with
    | Some unfinished => False
    | Some (returns (buffer', array', count)) =>
        length buffer' = length buffer /\
        exists str',
          split_comma_list_kept buffer' start str' (count - 1) array' /\
          rd buffer' str' = x00
    | _ => True
    end.
Proof.
  induction fuel as [|fuel IH]; intros buffer str index array Hkept Hfuel; [lia|].
  pose proof Hkept as (Hindex & Hlen & Hroom & Hstart & Hstr & Hentries & Hbelow & Hcommas).
  cbn [split_comma_list_loop].
  destruct (Byte.eqb (rd buffer str) x00) eqn:Hnul; cbn [negb].
  { apply byte_eqb_true in Hnul. split; [reflexivity|]. exists str.
    replace (index + 1 - 1) with index by lia. now split. }
  clear Hkept.
  assert (Hnot : rd buffer str <> x00) by (intros E; rewrite E in Hnul; discriminate).
  pose proof (rd_not_nul_inside buffer str ltac:(lia) Hnot) as Hinside.
  destruct (Byte.eqb (rd buffer str) comma) eqn:Hcomma.
  - (* a comma *)
    destruct (Z.geb_spec (index + 1) MAX_LIST_ARRAY) as [|Hfull]; [exact I|].
    destruct (trim_trailing_whitespace (list_set buffer (Z.to_nat str) x00) str)
      as [trimmed|] eqn:Htrim; [|exact I].
    apply trim_trailing_whitespace_effect in Htrim as [Htlen Htrim].
    rewrite length_list_set in Htlen.
    destruct (Z.eqb_spec (nth (Z.to_nat index) array 0) str) as [|Hlast]; [exact I|].
    destruct (trim_leading_whitespace_spec trimmed (str + 1) ltac:(lia))
      as (Hnext & Hnext_in & Hrun & Hnext_space).
    set (next := trim_leading_whitespace trimmed (str + 1)) in *.
    destruct (Byte.eqb (rd trimmed next) x00) eqn:Hnext_nul; [exact I|].
    assert (Hnext_not : rd trimmed next <> x00)
      by (intros E; rewrite E in Hnext_nul; discriminate).
    (* what the stores change *)
    assert (Hsame : forall q, q <> str -> 0 <= q -> isspace (rd buffer q) = false ->
                              rd trimmed q = rd buffer q).
    { intros q Hq Hq0 Hspace. destruct (Htrim q) as [E|[E _]]; rewrite rd_list_set in E.
      - rewrite E. destruct (Nat.eqb_spec (Z.to_nat q) (Z.to_nat str)); [lia|reflexivity].
      - destruct (Nat.eqb_spec (Z.to_nat q) (Z.to_nat str)); [lia|]. cbn [andb] in E.
        congruence. }
    assert (Hat : rd trimmed str = x00).
    { destruct (Htrim str) as [E|[_ E]]; [|exact E]. rewrite E, rd_list_set.
      rewrite Nat.eqb_refl. cbn [andb].
      destruct (Nat.ltb_spec (Z.to_nat str) (length buffer)); [reflexivity|lia]. }
    assert (Hbelow' : forall off, In off array -> off < str).
    { intros off Hoff. apply (In_nth _ _ 0) in Hoff as (k & Hk & <-).
      destruct (Z.eq_dec (Z.of_nat k) index) as [E|E].
      - rewrite <- E, Nat2Z.id in Hlast.
        destruct (Hentries (nth k array 0) (nth_In _ _ Hk)) as [? _]. lia.
      - specialize (Hbelow (Z.of_nat k) ltac:(lia)). now rewrite Nat2Z.id in Hbelow. }
    specialize (IH trimmed next (index + 1) (array ++ [next])).
    rewrite Htlen in IH. apply IH; [|lia].
    unfold split_comma_list_kept. rewrite length_app. cbn [length].
    split; [lia|]. split; [lia|]. split; [lia|]. split; [lia|].
    split; [apply Hnext_in; lia|].
    split; [|split].
    + intros off Hoff. apply in_app_or in Hoff as [Hoff|[<-|[]]].
      * destruct (Hentries off Hoff) as [Hrange [Hoff_nul Hoff_space]].
        specialize (Hbelow' off Hoff). split; [lia|].
        unfold element_start. rewrite (Hsame off) by (try lia; assumption). now split.
      * split; [lia|]. now split.
    + intros k Hk. destruct (Z.eq_dec k index) as [->|Hne].
      * rewrite app_nth1 by lia.
        destruct (Hentries (nth (Z.to_nat index) array 0)) as [? _]; [apply nth_In; lia|].
        lia.
      * rewrite app_nth1 by lia. specialize (Hbelow k ltac:(lia)). lia.
    + intros q Hq. destruct (Z.lt_trichotomy q str) as [Hlt|[->|Hgt]].
      * destruct (Htrim q) as [E|[_ E]]; [|rewrite E; discriminate].
        rewrite E, rd_list_set.
        destruct (Nat.eqb_spec (Z.to_nat q) (Z.to_nat str)); [lia|]. cbn [andb].
        apply Hcommas. lia.
      * rewrite Hat. discriminate.
      * apply isspace_not_comma, Hrun. lia.
  - (* any other byte *)
    apply (IH buffer (str + 1) index array); [|lia].
    unfold split_comma_list_kept. repeat split; try lia.
    + destruct (Hentries off H) as [? _]. lia.
    + destruct (Hentries off H) as [? _]. lia.
    + now destruct (Hentries off H) as [_ [? _]].
    + now destruct (Hentries off H) as [_ [_ ?]].
    + intros k Hk. specialize (Hbelow k Hk). lia.
    + intros q Hq. destruct (Z.eq_dec q str) as [->|Hne].
      * intros E. rewrite E in Hcomma. discriminate.
      * apply Hcommas. lia.
Qed.

Lemma in_c_string (s : list byte) (c : byte) :
  In c (c_string s) ->
  exists k, nth k s x00 = c /\ forall p, (p <= k)%nat -> nth p s x00 <> x00.
Proof.
  induction s as [|x s IH]; cbn [c_string]; [intros []|].
  destruct (Byte.eqb x x00) eqn:Hx; [intros []|].
  assert (Hnot : x <> x00) by (intros ->; discriminate).
  intros [<-|Hin].
  - exists 0%nat. split; [reflexivity|]. intros p Hp. now replace p with 0%nat by lia.
  - destruct (IH Hin) as (k & Hk & Hbefore). exists (S k). split; [exact Hk|].
    intros [|p] Hp; [exact Hnot|]. apply Hbefore. lia.
Qed.

Lemma c_string_head (s : list byte) :
  nth 0 s x00 <> x00 -> c_string s <> [] /\ hd x00 (c_string s) = nth 0 s x00.
Proof.
  destruct s as [|x s]; cbn [nth c_string]; [congruence|]. intros Hx.
  rewrite byte_eqb_false by exact Hx. split; [discriminate|reflexivity].
Qed.

(** X30.  split_comma_list on any line, from a value that starts with a byte that
    is neither NUL nor white space: the loop ends; and when the function
    returns, it returns between 1 and 1024 elements, as many as it stored
    in the array, each inside the line, none empty, none with a comma, none
    with white space in front. *)
Theorem split_comma_list_sound (buffer : list byte) (str : Z) :
  0 <= str -> element_start buffer str ->
  split_comma_list buffer str <> Some unfinished /\
  forall buffer' array count,
    split_comma_list buffer str = Some (returns (buffer', array, count)) ->
    1 <= count <= MAX_LIST_ARRAY /\
    Z.of_nat (length array) = count /\
    length buffer' = length buffer /\
    Forall (fun off =>
              str <= off < Z.of_nat (length buffer) /\
              string_at buffer' off <> [] /\
              ~ In comma (string_at buffer' off) /\
              isspace (hd x00 (string_at buffer' off)) = false)
      array.
Proof.
  intros Hstr Hstart. unfold split_comma_list.
  pose proof (rd_not_nul_inside buffer str Hstr (proj1 Hstart)) as Hinside.
  assert (Hkept : split_comma_list_kept buffer str str 0 [str]).
  { unfold split_comma_list_kept, MAX_LIST_ARRAY. cbn [length].
    split; [lia|]. split; [lia|]. split; [lia|]. split; [lia|]. split; [lia|].
    split; [|split; intros; lia].
    intros off [<-|[]]. split; [lia|exact Hstart]. }
  pose proof (split_comma_list_loop_kept str (S (length buffer)) buffer str 0 [str]
                Hkept ltac:(lia)) as Hloop.
  destruct (split_comma_list_loop _ _ _ _ _) as [[[[buffer' array] count]| |]|];
    [|split; [discriminate|intros ? ? ? [=]]|contradiction
     |split; [discriminate|intros ? ? ? [=]]].
  split; [discriminate|]. intros ? ? ? [= <- <- <-].
  destruct Hloop as (Hlen & str' & Hfinal & Hend).
  destruct Hfinal as (Hindex & Hcount & Hroom & Hrange & Hstr' & Hentries & _ & Hcommas).
  split; [lia|]. split; [lia|]. split; [exact Hlen|].
  apply Forall_forall. intros off Hoff.
  destruct (Hentries off Hoff) as [Hoff_range [Hoff_nul Hoff_space]].
  pose proof (rd_not_nul_inside _ off ltac:(lia) Hoff_nul) as Hoff_in.
  assert (Hhead : nth 0 (skipn (Z.to_nat off) buffer') x00 = rd buffer' off).
  { rewrite nth_skipn_plus, Nat.add_0_r. reflexivity. }
  destruct (c_string_head (skipn (Z.to_nat off) buffer')) as [Hne Hhd];
    [now rewrite Hhead|].
  split; [lia|]. unfold string_at. split; [exact Hne|]. split.
  - intros Hin. apply in_c_string in Hin as (k & Hk & Hbefore).
    rewrite nth_skipn_plus in Hk.
    assert (Hlt : off + Z.of_nat k < str').
    { destruct (Z.lt_ge_cases (off + Z.of_nat k) str') as [|Hge]; [assumption|].
      exfalso. apply (Hbefore (Z.to_nat (str' - off)) ltac:(lia)).
      rewrite nth_skipn_plus.
      replace (Z.to_nat off + Z.to_nat (str' - off))%nat with (Z.to_nat str') by lia.
      exact Hend. }
    apply (Hcommas (off + Z.of_nat k) ltac:(lia)). unfold rd.
    now replace (Z.to_nat (off + Z.of_nat k)) with (Z.to_nat off + k)%nat by lia.
  - now rewrite Hhd, Hhead.
Qed.

Lemma split_comma_list_sound_witness :
  split_comma_list (datagram [97;44;98]) 0 <> Some unfinished /\
  forall buffer' array count,
    split_comma_list (datagram [97;44;98]) 0 = Some (returns (buffer', array, count)) ->
    1 <= count <= MAX_LIST_ARRAY /\
    Z.of_nat (length array) = count /\
    length buffer' = length (datagram [97;44;98]) /\
    Forall (fun off =>
              0 <= off < Z.of_nat (length (datagram [97;44;98])) /\
              string_at buffer' off <> [] /\
              ~ In comma (string_at buffer' off) /\
              isspace (hd x00 (string_at buffer' off)) = false)
      array.
Proof.
  apply split_comma_list_sound; [lia|]. split; [discriminate|reflexivity].
Defined.

(** ** split_keyvalue *)

Lemma strchr_passed (passed post : list byte) (c : byte) :
  Forall (fun x => x <> c /\ x <> x00) passed ->
  strchr (passed ++ c :: post) c = Some (Z.of_nat (length passed)).
Proof.
  induction 1 as [|x passed [Hc Hnul] _ IH]; cbn [app strchr length].
  - now rewrite (Byte.byte_dec_lb eq_refl).
  - rewrite !byte_eqb_false by assumption. rewrite IH. cbn [option_map]. f_equal. lia.
Qed.

Lemma strlen_passed (passed post : list byte) :
  ~ In x00 passed -> strlen (passed ++ x00 :: post) = Z.of_nat (length passed).
Proof.
  intros Hnul. induction passed as [|x passed IH]; cbn [app strlen length];
    [reflexivity|].
  rewrite byte_eqb_false by (intros ->; apply Hnul; now left).
  rewrite IH; [lia|]. intros H. apply Hnul. now right.
Qed.

Lemma trim_trailing_loop_all_space :
  forall n buffer,
    (forall k, (k < n)%nat -> isspace (nth k buffer x00) = true) ->
    trim_trailing_loop n buffer = None.
Proof.
  induction n as [|n IH]; intros buffer Hall; cbn [trim_trailing_loop]; [reflexivity|].
  rewrite Hall by lia. apply IH. intros k Hk.
  rewrite nth_list_set_other by lia. apply Hall. lia.
Qed.

(** The value behind the white space that follows the equals sign. *)
Lemma split_keyvalue_value (front ws value : list byte) :
  white_space ws -> hd x00 value <> x00 -> isspace (hd x00 value) = false ->
  let buffer := front ++ x00 :: ws ++ value in
  trim_leading_whitespace buffer (Z.of_nat (length front) + 1)
  = Z.of_nat (length (front ++ x00 :: ws)) /\
  Byte.eqb (rd buffer (Z.of_nat (length (front ++ x00 :: ws)))) x00 = false.
Proof.
  intros Hws Hnul Hspace. cbv zeta.
  assert (Hstart :
    trim_leading_whitespace (front ++ x00 :: ws ++ value) (Z.of_nat (length front) + 1)
    = Z.of_nat (length (front ++ x00 :: ws))).
  { unfold trim_leading_whitespace.
    replace (Z.to_nat (Z.of_nat (length front) + 1)) with (length (front ++ [x00]))
      by (rewrite length_app; cbn [length]; lia).
    replace (front ++ x00 :: ws ++ value) with ((front ++ [x00]) ++ ws ++ value)
      by (rewrite <- app_assoc; reflexivity).
    rewrite skipn_length_app, whitespace_run_app by assumption.
    rewrite !length_app. cbn [length]. lia. }
  split; [exact Hstart|].
  replace (front ++ x00 :: ws ++ value) with ((front ++ x00 :: ws) ++ value)
    by (rewrite <- app_assoc; reflexivity).
  destruct value as [|v value]; [now elim Hnul|]. cbn [hd] in Hnul.
  rewrite rd_middle. now apply byte_eqb_false.
Qed.

(** X27.  split_keyvalue on a line made of a key, an equals sign and a value, with
    white space around the sign: [line] becomes the key, the white space cut
    off, and the pointer returned is at the value, which is as it was. *)
Theorem split_keyvalue_key_value (front key before after value : list byte) :
  line_key key -> white_space before -> white_space after ->
  hd x00 value <> x00 -> isspace (hd x00 value) = false ->
  exists buffer' start,
    split_keyvalue (front ++ key ++ before ++ equals :: after ++ value)
      (Z.of_nat (length front))
    = Some (returns (buffer', start)) /\
    string_at buffer' (Z.of_nat (length front)) = key /\
    skipn (Z.to_nat start) buffer' = value /\
    firstn (length front) buffer' = front.
Proof.
  intros (Hne & Hnul & Hequals & Hlast) Hbefore Hafter Hvalue Hspace.
  unfold split_keyvalue. rewrite Nat2Z.id, skipn_length_app.
  assert (Hpassed : Forall (fun x => x <> equals /\ x <> x00) (key ++ before)).
  { apply Forall_app. split.
    - apply Forall_forall. intros c Hc. split; intros ->; auto.
    - eapply Forall_impl; [|exact Hbefore]. intros c Hc.
      split; [now apply isspace_not_equals|now apply isspace_not_nul]. }
  replace (key ++ before ++ equals :: after ++ value)
    with ((key ++ before) ++ equals :: after ++ value)
    by (rewrite <- app_assoc; reflexivity).
  rewrite (strchr_passed _ _ _ Hpassed).
  replace (Z.to_nat (Z.of_nat (length front) + Z.of_nat (length (key ++ before))))
    with (length (front ++ key ++ before)) by (rewrite !length_app; lia).
  replace (front ++ (key ++ before) ++ equals :: after ++ value)
    with ((front ++ key ++ before) ++ equals :: after ++ value)
    by (rewrite <- !app_assoc; reflexivity).
  rewrite list_set_middle.
  replace (Z.of_nat (length front) + Z.of_nat (length (key ++ before)))
    with (Z.of_nat (length (front ++ key ++ before))) by (rewrite !length_app; lia).
  destruct (split_keyvalue_value (front ++ key ++ before) after value
              Hafter Hvalue Hspace) as [Hstart Hrd].
  rewrite Hstart, Hrd.
  (* the key *)
  assert (Htrim :
    trim_trailing_whitespace ((front ++ key ++ before) ++ x00 :: after ++ value)
      (Z.of_nat (length front))
    = Some ((front ++ key) ++ repeat x00 (length before) ++ x00 :: after ++ value)).
  { unfold trim_trailing_whitespace. rewrite Nat2Z.id.
    replace ((front ++ key ++ before) ++ x00 :: after ++ value)
      with (front ++ (key ++ before) ++ x00 :: after ++ value)
      by (rewrite <- !app_assoc; reflexivity).
    rewrite skipn_length_app, strlen_passed.
    2:{ intros Hin. apply in_app_or in Hin as [Hin|Hin]; [now apply Hnul|].
        unfold white_space in Hbefore. rewrite Forall_forall in Hbefore.
        now specialize (Hbefore _ Hin). }
    assert (0 < length key)%nat by (destruct key; [contradiction|cbn; lia]).
    destruct (Z.ltb_spec (Z.of_nat (length front) + Z.of_nat (length (key ++ before)) - 1) 0)
      as [Hneg|_]; [rewrite length_app in Hneg; lia|].
    replace (Z.to_nat (Z.of_nat (length front) + Z.of_nat (length (key ++ before)) - 1 + 1))
      with (length ((front ++ key) ++ before)) by (rewrite !length_app; lia).
    replace (front ++ (key ++ before) ++ x00 :: after ++ value)
      with ((front ++ key) ++ before ++ x00 :: after ++ value)
      by (rewrite <- !app_assoc; reflexivity).
    apply trim_trailing_loop_spec; [| |exact Hbefore].
    - destruct front; [exact Hne|discriminate].
    - now rewrite last_app_r. }
  rewrite Htrim. eexists. eexists. split; [reflexivity|]. split; [|split].
  - unfold string_at. rewrite Nat2Z.id, <- app_assoc, skipn_length_app.
    apply c_string_app; [exact Hnul|]. now destruct before.
  - rewrite Nat2Z.id.
    replace ((front ++ key) ++ repeat x00 (length before) ++ x00 :: after ++ value)
      with ((front ++ key ++ repeat x00 (length before) ++ x00 :: after) ++ value)
      by (rewrite <- !app_assoc; cbn [app]; rewrite <- ?app_assoc; reflexivity).
    replace (length ((front ++ key ++ before) ++ x00 :: after))
      with (length (front ++ key ++ repeat x00 (length before) ++ x00 :: after))
      by (rewrite !length_app, ?repeat_length; cbn [length];
          rewrite ?length_app, ?repeat_length; lia).
    apply skipn_length_app.
  - rewrite <- app_assoc. now rewrite firstn_app, firstn_all, Nat.sub_diag, app_nil_r.
Qed.

Lemma split_keyvalue_key_value_witness :
  exists buffer' start,
    split_keyvalue
      (datagram [32] ++ datagram [107;101;121] ++ datagram [32]
       ++ equals :: datagram [32;32] ++ datagram [95;115;115;104])
      (Z.of_nat (length (datagram [32])))
    = Some (returns (buffer', start)) /\
    string_at buffer' (Z.of_nat (length (datagram [32]))) = datagram [107;101;121] /\
    skipn (Z.to_nat start) buffer' = datagram [95;115;115;104] /\
    firstn (length (datagram [32])) buffer' = datagram [32].
Proof.
  apply split_keyvalue_key_value.
  - repeat split; try discriminate; cbn; intuition discriminate.
  - repeat constructor.
  - repeat constructor.
  - discriminate.
  - reflexivity.
Defined.

(** X28.  On a line without a key, of an equals sign and a value behind the white
    space that read_line has passed, trim_trailing_whitespace walks back over
    that white space and reads the byte before the line buffer. *)
Theorem split_keyvalue_without_key (front after value : list byte) :
  white_space front -> white_space after ->
  hd x00 value <> x00 -> isspace (hd x00 value) = false ->
  split_keyvalue (front ++ equals :: after ++ value) (Z.of_nat (length front)) = None.
Proof.
  intros Hfront Hafter Hvalue Hspace.
  unfold split_keyvalue. rewrite Nat2Z.id, skipn_length_app.
  cbn [strchr]. rewrite (Byte.byte_dec_lb eq_refl). rewrite Z.add_0_r, Nat2Z.id.
  rewrite list_set_middle.
  destruct (split_keyvalue_value front after value Hafter Hvalue Hspace) as [Hstart Hrd].
  rewrite Hstart, Hrd.
  unfold trim_trailing_whitespace. rewrite Nat2Z.id, skipn_length_app, strlen_nul.
  destruct (Z.ltb_spec (Z.of_nat (length front) + 0 - 1) 0) as [|Hpos]; [reflexivity|].
  rewrite trim_trailing_loop_all_space; [reflexivity|]. intros k Hk.
  rewrite app_nth1 by lia. unfold white_space in Hfront.
  rewrite Forall_forall in Hfront. apply Hfront, nth_In. lia.
Qed.

Lemma split_keyvalue_without_key_witness :
  split_keyvalue (datagram [] ++ equals :: datagram [32] ++ datagram [120])
    (Z.of_nat (length (datagram []))) = None.
Proof.
  apply split_keyvalue_without_key.
  - constructor.
  - repeat constructor.
  - discriminate.
  - reflexivity.
Defined.
